(** * Durak card game: card rules, match state machine and match registry

    A shallow embedding of
      - [backend/src/game/CardLogic.ts]   (module [CardLogic]),
      - [backend/src/game/GameSession.ts] (module [GameSession]),
      - [backend/src/game/GameManager.ts] (module [GameManager]),
      - the tables of [shared/types.ts],
    followed by the properties of the specification that concern them
    and by further properties of the same code.

    Conventions of the embedding.
      - A card is the string the source uses (["10d"], ["Ah"]); a player id
        and a room id are strings; a JS value is "truthy" when it is neither
        [null] nor the empty string.
      - Strings are byte strings; on the ASCII cards and codes of the
        program they behave as the UTF-16 strings of JS do.
      - [hands : Record<string, Card[]>] is a finite map from strings to
        lists, and [RANK_VALUES] a table of nine entries; keys inherited
        from [Object.prototype] are not modelled.
      - A method that can throw (reading [.length] or [.includes] of an
        absent hand is a [TypeError]) returns an [outcome]; [Raised] is the
        thrown exception.
      - [Math.random] is an explicit argument [rnd : nat -> nat]: the raw
        value of the k-th draw of a call, reduced modulo the bound the
        source multiplies by. *)

From stdpp Require Import base decidable option list sorting gmap strings fin_maps.
From Stdlib Require Import ZArith Lia.

#[local] Open Scope string_scope.
#[local] Open Scope list_scope.

(* ===================================================================== *)
(** ** Results of methods that may throw or loop                          *)
(* ===================================================================== *)

Inductive outcome (A : Type) : Type :=
| Returned (a : A)   (* the method returned [a] *)
| Raised             (* a TypeError was thrown *)
| Diverged.          (* the retry loop did not end within the given fuel *)
Arguments Returned {A} a.
Arguments Raised {A}.
Arguments Diverged {A}.

Definition obind {A B} (m : outcome A) (k : A -> outcome B) : outcome B :=
  match m with
  | Returned a => k a
  | Raised => Raised
  | Diverged => Diverged
  end.

Notation "'call!' x := m 'in' k" := (obind m (fun x => k))
  (at level 10, x pattern, m at level 100, k at level 200).

(** JS truthiness of a string value. *)
Definition truthy (s : string) : bool := negb (String.eqb s EmptyString).

(** [o || null] on an optional string: an empty string counts as absent. *)
Definition or_null (o : option string) : option string :=
  match o with
  | Some s => if truthy s then Some s else None
  | None => None
  end.

(* ===================================================================== *)
(** ** shared/types.ts                                                     *)
(* ===================================================================== *)

Definition Card := string.
Definition Suit := string.

Inductive Rank := R6 | R7 | R8 | R9 | R10 | RJ | RQ | RK | RA.
Inductive SuitName := Hearts | Diamonds | Clubs | Spades.

Definition rankStr (r : Rank) : string :=
  match r with
  | R6 => "6" | R7 => "7" | R8 => "8" | R9 => "9" | R10 => "10"
  | RJ => "J" | RQ => "Q" | RK => "K" | RA => "A"
  end.

Definition suitStr (s : SuitName) : Suit :=
  match s with
  | Hearts => "h" | Diamonds => "d" | Clubs => "c" | Spades => "s"
  end.

(** [RANK_VALUES[rank]]; [None] is [undefined]. *)
Definition RANK_VALUES (rank : string) : option Z :=
  match rank with
  | "6" => Some 6%Z | "7" => Some 7%Z | "8" => Some 8%Z | "9" => Some 9%Z
  | "10" => Some 10%Z | "J" => Some 11%Z | "Q" => Some 12%Z
  | "K" => Some 13%Z | "A" => Some 14%Z
  | _ => None
  end.

(** The ordinal of a rank, 6 < 7 < ... < A. *)
Definition rankValue (r : Rank) : Z :=
  match r with
  | R6 => 6 | R7 => 7 | R8 => 8 | R9 => 9 | R10 => 10
  | RJ => 11 | RQ => 12 | RK => 13 | RA => 14
  end%Z.

(** [SUIT_ORDER[suit]]; [None] is [undefined]. *)
Definition SUIT_ORDER (suit : string) : option Z :=
  match suit with
  | "c" => Some 1%Z | "d" => Some 2%Z | "h" => Some 3%Z | "s" => Some 4%Z
  | _ => None
  end.

Record CardPair := mkPair { attack_ : Card; defense_ : option Card }.

Inductive GamePhase := waiting | playing | finished.

#[global] Instance GamePhase_eq_dec : EqDecision GamePhase.
Proof. solve_decision. Defined.
#[global] Instance Rank_eq_dec : EqDecision Rank.
Proof. solve_decision. Defined.
#[global] Instance SuitName_eq_dec : EqDecision SuitName.
Proof. solve_decision. Defined.
#[global] Instance CardPair_eq_dec : EqDecision CardPair.
Proof. solve_decision. Defined.

(* ===================================================================== *)
(** ** backend/src/game/CardLogic.ts                                       *)
(* ===================================================================== *)

Module CardLogic.

Definition ranks : list Rank := [R6; R7; R8; R9; R10; RJ; RQ; RK; RA].
Definition suits : list SuitName := [Hearts; Diamonds; Clubs; Spades].

(** The template literal [`${rank}${suit}`]. *)
Definition mkCard (r : Rank) (s : SuitName) : Card := rankStr r +:+ suitStr s.

Definition generateDeck : list Card :=
  flat_map (fun suit => map (fun rank => mkCard rank suit) ranks) suits.

(** [[a[i], a[j]] = [a[j], a[i]]]: both reads happen before both writes;
    a hole read out of range would be [undefined], which the loop of
    [shuffleDeck] never does. *)
Definition swap (a : list Card) (i j : nat) : list Card :=
  match a !! i, a !! j with
  | Some ai, Some aj => <[j := ai]> (<[i := aj]> a)
  | _, _ => a
  end.

(** The loop [for (i = length - 1; i > 0; i--)], written on the number of
    iterations left: iteration [i] draws [j = floor(random() * (i + 1))],
    here the [k]-th draw reduced modulo [i + 1]. *)
Fixpoint shuffleLoop (rnd : nat -> nat) (k : nat) (i : nat) (a : list Card)
  : list Card :=
  match i with
  | 0 => a
  | S i' =>
      let j := rnd k mod (i + 1) in
      shuffleLoop rnd (S k) i' (swap a i j)
  end.

Definition shuffleDeck (rnd : nat -> nat) (deck : list Card) : list Card :=
  shuffleLoop rnd 0 (length deck - 1) deck.

(** [card.slice(-1)] and [card.slice(0, -1)]. *)
Definition slice_last (card : string) : string :=
  String.substring (String.length card - 1) 1 card.
Definition slice_init (card : string) : string :=
  String.substring 0 (String.length card - 1) card.

Record Parsed := mkParsed { rank : string; suit : string }.

Definition parseCard (card : Card) : Parsed :=
  {| rank := slice_init card; suit := slice_last card |}.

(** [x > y] on two table look-ups: a comparison with [undefined] is false. *)
Definition js_gt (x y : option Z) : bool :=
  match x, y with
  | Some a, Some b => (b <? a)%Z
  | _, _ => false
  end.

Definition canBeat (attackCard defenseCard : Card) (trumpSuit : Suit) : bool :=
  let attack := parseCard attackCard in
  let defense := parseCard defenseCard in
  let attackValue := RANK_VALUES (rank attack) in
  let defenseValue := RANK_VALUES (rank defense) in
  let attackIsTrump := bool_decide (suit attack = trumpSuit) in
  let defenseIsTrump := bool_decide (suit defense = trumpSuit) in
  if bool_decide (suit attack = suit defense) && negb attackIsTrump then
    js_gt defenseValue attackValue
  else if attackIsTrump && defenseIsTrump then
    js_gt defenseValue attackValue
  else if negb attackIsTrump && defenseIsTrump then
    true
  else
    false.

Definition canThrowIn (card : Card) (tableCards : list Card) : bool :=
  if bool_decide (length tableCards = 0) then false
  else
    let throwRank := rank (parseCard card) in
    existsb (fun tableCard =>
               bool_decide (rank (parseCard tableCard) = throwRank))
            tableCards.

(** [a.localeCompare(b)] on suits: for the one-letter lower-case suits
    the collation order is the alphabetical one, which the byte-wise
    comparison gives. *)
Definition localeCompare (a b : string) : Z :=
  match String.compare a b with
  | Lt => (-1)%Z | Eq => 0%Z | Gt => 1%Z
  end.

(** The comparator handed to [sort]; a [NaN] result (a rank outside the
    table) is treated by [sort] as 0. *)
Definition compareFn (trumpSuit : option Suit) (a b : Card) : Z :=
  let cardA := parseCard a in
  let cardB := parseCard b in
  let isTrump (c : Parsed) :=
    match trumpSuit with
    | Some t => truthy t && bool_decide (suit c = t)
    | None => false
    end in
  let aIsTrump := isTrump cardA in
  let bIsTrump := isTrump cardB in
  if aIsTrump && negb bIsTrump then 1%Z
  else if negb aIsTrump && bIsTrump then (-1)%Z
  else if negb (bool_decide (suit cardA = suit cardB)) then
    localeCompare (suit cardA) (suit cardB)
  else
    match RANK_VALUES (rank cardA), RANK_VALUES (rank cardB) with
    | Some x, Some y => (x - y)%Z
    | _, _ => 0%Z
    end.

Definition cardLe (trumpSuit : option Suit) (a b : Card) : Prop :=
  (compareFn trumpSuit a b <= 0)%Z.

#[global] Instance cardLe_dec t a b : Decision (cardLe t a b).
Proof. unfold cardLe. apply _. Defined.

(** [[...hand].sort(compareFn)]: [Array.prototype.sort] is a stable merge
    sort; on the distinct well-formed cards of a hand the comparator is a
    strict total order, so that the result is the sorted permutation. *)
Definition sortHand (hand : list Card) (trumpSuit : option Suit) : list Card :=
  merge_sort (cardLe trumpSuit) hand.

End CardLogic.

(* ===================================================================== *)
(** ** backend/src/game/GameSession.ts                                     *)
(* ===================================================================== *)

Module GameSession.
Import CardLogic.

(** The fields of the class; [GameState] of [shared/types.ts] has the
    same fields, so that [getState] returns a value of this type. *)
Record t := mk {
  roomId : string;
  players : list string;
  hands : gmap string (list Card);
  deck : list Card;
  trumpCard : option Card;
  trumpSuit : option Suit;
  table : list CardPair;
  attacker : option string;
  defender : option string;
  phase : GamePhase;
  winner : option string;
  canThrow : bool;
  lastAction : string
}.

Definition GameState := t.

Definition new (roomId : string) : t :=
  {| roomId := roomId; players := []; hands := ∅; deck := [];
     trumpCard := None; trumpSuit := None; table := [];
     attacker := None; defender := None; phase := waiting;
     winner := None; canThrow := false; lastAction := EmptyString |}.

(** Assignments to single fields. *)
Definition set_players v (s : t) : t :=
  mk (roomId s) v (hands s) (deck s) (trumpCard s) (trumpSuit s) (table s)
     (attacker s) (defender s) (phase s) (winner s) (canThrow s) (lastAction s).
Definition set_hands v (s : t) : t :=
  mk (roomId s) (players s) v (deck s) (trumpCard s) (trumpSuit s) (table s)
     (attacker s) (defender s) (phase s) (winner s) (canThrow s) (lastAction s).
Definition set_deck v (s : t) : t :=
  mk (roomId s) (players s) (hands s) v (trumpCard s) (trumpSuit s) (table s)
     (attacker s) (defender s) (phase s) (winner s) (canThrow s) (lastAction s).
Definition set_trumpCard v (s : t) : t :=
  mk (roomId s) (players s) (hands s) (deck s) v (trumpSuit s) (table s)
     (attacker s) (defender s) (phase s) (winner s) (canThrow s) (lastAction s).
Definition set_trumpSuit v (s : t) : t :=
  mk (roomId s) (players s) (hands s) (deck s) (trumpCard s) v (table s)
     (attacker s) (defender s) (phase s) (winner s) (canThrow s) (lastAction s).
Definition set_table v (s : t) : t :=
  mk (roomId s) (players s) (hands s) (deck s) (trumpCard s) (trumpSuit s) v
     (attacker s) (defender s) (phase s) (winner s) (canThrow s) (lastAction s).
Definition set_attacker v (s : t) : t :=
  mk (roomId s) (players s) (hands s) (deck s) (trumpCard s) (trumpSuit s) (table s)
     v (defender s) (phase s) (winner s) (canThrow s) (lastAction s).
Definition set_defender v (s : t) : t :=
  mk (roomId s) (players s) (hands s) (deck s) (trumpCard s) (trumpSuit s) (table s)
     (attacker s) v (phase s) (winner s) (canThrow s) (lastAction s).
Definition set_phase v (s : t) : t :=
  mk (roomId s) (players s) (hands s) (deck s) (trumpCard s) (trumpSuit s) (table s)
     (attacker s) (defender s) v (winner s) (canThrow s) (lastAction s).
Definition set_winner v (s : t) : t :=
  mk (roomId s) (players s) (hands s) (deck s) (trumpCard s) (trumpSuit s) (table s)
     (attacker s) (defender s) (phase s) v (canThrow s) (lastAction s).
Definition set_canThrow v (s : t) : t :=
  mk (roomId s) (players s) (hands s) (deck s) (trumpCard s) (trumpSuit s) (table s)
     (attacker s) (defender s) (phase s) (winner s) v (lastAction s).
Definition set_lastAction v (s : t) : t :=
  mk (roomId s) (players s) (hands s) (deck s) (trumpCard s) (trumpSuit s) (table s)
     (attacker s) (defender s) (phase s) (winner s) (canThrow s) v.

(** *** Array primitives *)

(** [deck.pop()]: the last element, and the array without it. *)
Definition pop (a : list Card) : option Card * list Card :=
  (last a, take (length a - 1) a).

(** [deck.shift()]: the first element, and the array without it. *)
Definition shift (a : list Card) : option Card * list Card :=
  match a with
  | [] => (None, [])
  | c :: rest => (Some c, rest)
  end.

(** [hand.includes(card)]. *)
Definition includes (hand : list Card) (card : Card) : bool :=
  bool_decide (card ∈ hand).

(** [index = hand.indexOf(card); if (index > -1) hand.splice(index, 1)]. *)
Fixpoint spliceFirst (card : Card) (hand : list Card) : list Card :=
  match hand with
  | [] => []
  | c :: rest => if bool_decide (c = card) then rest else c :: spliceFirst card rest
  end.

(** [[p.attack, p.defense].filter(Boolean)]. *)
Definition pairCards (p : CardPair) : list Card :=
  filter (fun c => truthy c = true)
         (attack_ p :: match defense_ p with Some d => [d] | None => [] end).

(** [this.table.flatMap(p => [p.attack, p.defense].filter(Boolean))]. *)
Definition tableCards (s : t) : list Card := flat_map pairCards (table s).

(** [this.table.every(p => p.defense !== null)]. *)
Definition allDefended (tbl : list CardPair) : bool :=
  forallb (fun p => bool_decide (defense_ p <> None)) tbl.

(** [this.table.filter(p => p.defense === null).length]. *)
Definition undefendedCount (tbl : list CardPair) : nat :=
  length (filter (fun p => defense_ p = None) tbl).

(** *** removeCardFromHand *)
Definition removeCardFromHand (playerId : string) (card : Card) (s : t)
  : outcome t :=
  match hands s !! playerId with
  | None => Raised
  | Some hand => Returned (set_hands (<[playerId := spliceFirst card hand]> (hands s)) s)
  end.

(** *** startGame *)

(** One turn of the inner dealing loop:
    [card = deck.pop(); if (card) hands[playerId].push(card)]. *)
Definition dealTo (playerId : string) (s : t) : outcome t :=
  let '(card, deck') := pop (deck s) in
  let s := set_deck deck' s in
  match card with
  | Some c =>
      if truthy c then
        match hands s !! playerId with
        | None => Raised
        | Some hand => Returned (set_hands (<[playerId := hand ++ [c]]> (hands s)) s)
        end
      else Returned s
  | None => Returned s
  end.

Fixpoint forEach {A} (f : A -> t -> outcome t) (l : list A) (s : t) : outcome t :=
  match l with
  | [] => Returned s
  | x :: rest => call! s' := f x s in forEach f rest s'
  end.

(** [rankValues[cardA.rank] - rankValues[cardB.rank]]; [None] is [NaN]. *)
Definition compareCards (a b : Card) : option Z :=
  match RANK_VALUES (rank (parseCard a)), RANK_VALUES (rank (parseCard b)) with
  | Some x, Some y => Some (x - y)%Z
  | _, _ => None
  end.

(** The body of the scan of [determineFirstAttacker] for one card; the
    accumulator is [(lowestTrump, firstAttacker)]. *)
Definition scanCard (trump : option Suit) (playerId : string)
    (acc : option Card * option string) (card : Card)
  : option Card * option string :=
  if bool_decide (Some (suit (parseCard card)) = trump) then
    let better :=
      match or_null (fst acc) with
      | None => true
      | Some lowest =>
          match compareCards card lowest with
          | Some d => (d <? 0)%Z
          | None => false
          end
      end in
    if better then (Some card, Some playerId) else acc
  else acc.

Fixpoint scanPlayers (s : t) (ps : list string)
    (acc : option Card * option string)
  : outcome (option Card * option string) :=
  match ps with
  | [] => Returned acc
  | playerId :: rest =>
      match hands s !! playerId with
      | None => Raised
      | Some hand => scanPlayers s rest (fold_left (scanCard (trumpSuit s) playerId) hand acc)
      end
  end.

(** [rnd 35] is the draw of [Math.floor(Math.random() * 2)], the one
    that follows the 35 draws of the shuffle. *)
Definition determineFirstAttacker (rnd : nat -> nat) (s : t) : outcome t :=
  call! acc := scanPlayers s (players s) (None, None) in
  let firstAttacker := snd acc in
  Returned (set_attacker
              (match or_null firstAttacker with
               | Some p => Some p
               | None => players s !! (rnd 35 mod 2)
               end) s).

Definition sortHandOf (playerId : string) (s : t) : outcome t :=
  match hands s !! playerId with
  | None => Raised
  | Some hand =>
      Returned (set_hands (<[playerId := sortHand hand (trumpSuit s)]> (hands s)) s)
  end.

Definition startGame (rnd : nat -> nat) (s : t) : outcome t :=
  let s := set_deck (shuffleDeck rnd generateDeck) s in
  call! s := forEach dealTo (concat (replicate 6 (players s))) s in
  let '(first, deck') := shift (deck s) in
  let s := set_trumpCard (or_null first) (set_deck deck' s) in
  let s := match trumpCard s with
           | Some c => set_trumpSuit (Some (suit (parseCard c))) s
           | None => s
           end in
  call! s := determineFirstAttacker rnd s in
  let s := set_defender
             (or_null (head (filter (fun p => Some p <> attacker s) (players s)))) s in
  call! s := forEach sortHandOf (players s) s in
  Returned (set_lastAction "Игра началась!" (set_phase playing s)).

(** *** addPlayer, removePlayer *)

Definition addPlayer (rnd : nat -> nat) (playerId : string) (s : t)
  : outcome (bool * t) :=
  if bool_decide (2 <= length (players s)) then Returned (false, s)
  else if bool_decide (playerId ∈ players s) then Returned (false, s)
  else
    let s := set_hands (<[playerId := []]> (hands s))
               (set_players (players s ++ [playerId]) s) in
    if bool_decide (length (players s) = 2) then
      call! s := startGame rnd s in Returned (true, s)
    else Returned (true, s).

Definition removePlayer (playerId : string) (s : t) : t :=
  let s := set_players (filter (fun p => p <> playerId) (players s)) s in
  let s := set_hands (delete playerId (hands s)) s in
  if bool_decide (phase s = playing) && bool_decide (length (players s) = 1) then
    set_lastAction "Противник покинул игру"
      (set_phase finished (set_winner (head (players s)) s))
  else s.

(** *** refillHands *)

(** [while (hands[playerId].length < 6 && deck.length > 0)
       { card = deck.pop(); if (card) hands[playerId].push(card) }]
    on the hand and the deck; every turn shortens the deck, so that
    [length deck] turns are enough (lemma [refillLoop_done]). *)
Fixpoint refillLoop (fuel : nat) (hand deck : list Card)
  : list Card * list Card :=
  match fuel with
  | 0 => (hand, deck)
  | S fuel' =>
      if bool_decide (length hand < 6) && bool_decide (0 < length deck) then
        let '(card, deck') := pop deck in
        let hand' := match card with
                     | Some c => if truthy c then hand ++ [c] else hand
                     | None => hand
                     end in
        refillLoop fuel' hand' deck'
      else (hand, deck)
  end.

Definition refillOne (playerId : string) (s : t) : outcome t :=
  match hands s !! playerId with
  | None => Raised
  | Some hand =>
      let '(hand', deck') := refillLoop (length (deck s)) hand (deck s) in
      Returned (set_hands (<[playerId := sortHand hand' (trumpSuit s)]> (hands s))
                  (set_deck deck' s))
  end.

(** [[this.attacker, this.defender].filter(Boolean)]. *)
Definition refillOrder (s : t) : list string :=
  filter (fun p => truthy p = true)
         (match attacker s with Some a => [a] | None => [] end ++
          match defender s with Some d => [d] | None => [] end).

Definition refillHands (s : t) : outcome t :=
  call! s := forEach refillOne (refillOrder s) s in
  if bool_decide (length (deck s) = 0) && bool_decide (or_null (trumpCard s) <> None)
  then Returned (set_trumpCard None s)
  else Returned s.

(** *** checkWinner *)

(** The body of the loop over [this.players]. *)
Definition checkPlayer (playerId : string) (s : t) : outcome t :=
  match hands s !! playerId with
  | None => Raised
  | Some hand =>
      if bool_decide (length hand = 0) then
        match or_null (head (filter (fun p => p <> playerId) (players s))) with
        | None => Returned s
        | Some opponent =>
            match hands s !! opponent with
            | None => Raised
            | Some ohand =>
                if bool_decide (0 < length ohand) then
                  Returned (set_lastAction (playerId +:+ " победил!")
                              (set_phase finished (set_winner (Some playerId) s)))
                else Returned s
            end
        end
      else Returned s
  end.

Definition checkWinner (s : t) : outcome t :=
  if bool_decide (length (deck s) = 0) && bool_decide (or_null (trumpCard s) = None)
  then forEach checkPlayer (players s) s
  else Returned s.

(** *** The five moves *)

Definition attack (playerId : string) (card : Card) (s : t) : outcome (bool * t) :=
  if bool_decide (phase s <> playing) then Returned (false, s)
  else if bool_decide (Some playerId <> attacker s) then Returned (false, s)
  else match hands s !! playerId with
       | None => Raised
       | Some hand =>
           if negb (includes hand card) then Returned (false, s)
           else if bool_decide (length (table s) = 0) then
             call! s := removeCardFromHand playerId card s in
             let s := set_table (table s ++ [mkPair card None]) s in
             let s := set_canThrow false s in
             let s := set_lastAction (playerId +:+ " атакует картой " +:+ card) s in
             Returned (true, s)
           else Returned (false, s)
       end.

(** [this.table.find(p => p.attack === attackCard && p.defense === null)]:
    the pair is an alias of an element of the table, so the later write
    [pair.defense = defenseCard] updates the table at the index found. *)
Definition findPair (attackCard : Card) (tbl : list CardPair) : option (nat * CardPair) :=
  list_find (fun p => attack_ p = attackCard /\ defense_ p = None) tbl.

Definition defend (playerId : string) (attackCard defenseCard : Card) (s : t)
  : outcome (bool * t) :=
  if bool_decide (phase s <> playing) then Returned (false, s)
  else if bool_decide (Some playerId <> defender s) then Returned (false, s)
  else match hands s !! playerId with
       | None => Raised
       | Some hand =>
           if negb (includes hand defenseCard) then Returned (false, s)
           else match or_null (trumpSuit s) with
                | None => Returned (false, s)
                | Some trump =>
                    match findPair attackCard (table s) with
                    | None => Returned (false, s)
                    | Some (i, found) =>
                        if negb (canBeat attackCard defenseCard trump)
                        then Returned (false, s)
                        else
                          call! s := removeCardFromHand playerId defenseCard s in
                          let s := set_table
                                     (<[i := mkPair (attack_ found) (Some defenseCard)]>
                                        (table s)) s in
                          let s := set_canThrow (allDefended (table s)) s in
                          let s := set_lastAction
                                     (playerId +:+ " защищается картой " +:+ defenseCard) s in
                          Returned (true, s)
                    end
                end
       end.

(** [this.defender ? this.hands[this.defender].length : 0]. *)
Definition defenderHandSize (s : t) : outcome nat :=
  match or_null (defender s) with
  | None => Returned 0
  | Some d => match hands s !! d with
              | None => Raised
              | Some hand => Returned (length hand)
              end
  end.

Definition throwIn (playerId : string) (card : Card) (s : t) : outcome (bool * t) :=
  if bool_decide (phase s <> playing) then Returned (false, s)
  else if negb (canThrow s) then Returned (false, s)
  else match hands s !! playerId with
       | None => Raised
       | Some hand =>
           if negb (includes hand card) then Returned (false, s)
           else if negb (canThrowIn card (tableCards s)) then Returned (false, s)
           else
             call! size := defenderHandSize s in
             if bool_decide (size <= undefendedCount (table s)) then Returned (false, s)
             else
               call! s := removeCardFromHand playerId card s in
               let s := set_table (table s ++ [mkPair card None]) s in
               let s := set_canThrow false s in
               let s := set_lastAction (playerId +:+ " подкидывает карту " +:+ card) s in
               Returned (true, s)
       end.

Definition passTurn (playerId : string) (s : t) : outcome (bool * t) :=
  if bool_decide (phase s <> playing) then Returned (false, s)
  else if bool_decide (Some playerId <> attacker s) then Returned (false, s)
  else if negb (allDefended (table s)) then Returned (false, s)
  else
    let s := set_canThrow false (set_table [] s) in
    call! s := refillHands s in
    let s := set_defender (attacker s) (set_attacker (defender s) s) in
    let s := set_lastAction "Бито! Раунд завершён" s in
    call! s := checkWinner s in
    Returned (true, s).

Definition takeCards (playerId : string) (s : t) : outcome (bool * t) :=
  if bool_decide (phase s <> playing) then Returned (false, s)
  else if bool_decide (Some playerId <> defender s) then Returned (false, s)
  else if bool_decide (length (table s) = 0) then Returned (false, s)
  else
    let cardsToTake := tableCards s in
    call! s :=
      match or_null (defender s) with
      | None => Returned s
      | Some d =>
          match hands s !! d with
          | None => Raised
          | Some hand =>
              Returned (set_hands
                          (<[d := sortHand (hand ++ cardsToTake) (trumpSuit s)]> (hands s)) s)
          end
      end in
    let s := set_canThrow false (set_table [] s) in
    call! s := refillHands s in
    let s := set_lastAction (playerId +:+ " взял карты") s in
    call! s := checkWinner s in
    Returned (true, s).

(** *** getState, getStateForPlayer *)

Definition getState (s : t) : GameState := s.

(** The loop that builds [hiddenHands]; a requesting player without a
    hand gets the value [undefined], which is no entry here. *)
Fixpoint hideHands (playerId : string) (state : GameState) (ps : list string)
    (hiddenHands : gmap string (list Card)) : outcome (gmap string (list Card)) :=
  match ps with
  | [] => Returned hiddenHands
  | pid :: rest =>
      if bool_decide (pid = playerId) then
        hideHands playerId state rest
          (match hands state !! pid with
           | Some hand => <[pid := hand]> hiddenHands
           | None => delete pid hiddenHands
           end)
      else
        match hands state !! pid with
        | None => Raised
        | Some hand =>
            hideHands playerId state rest
              (<[pid := replicate (length hand) "back"]> hiddenHands)
        end
  end.

Definition getStateForPlayer (playerId : string) (s : t) : outcome GameState :=
  let state := getState s in
  call! hiddenHands := hideHands playerId state (players s) ∅ in
  Returned (set_hands hiddenHands state).

(** *** Moves as data, for statements about every move *)

Inductive Move :=
| Attack (playerId : string) (card : Card)
| Defend (playerId : string) (attackCard defenseCard : Card)
| ThrowIn (playerId : string) (card : Card)
| PassTurn (playerId : string)
| TakeCards (playerId : string).

Definition move (m : Move) (s : t) : outcome (bool * t) :=
  match m with
  | Attack p c => attack p c s
  | Defend p a d => defend p a d s
  | ThrowIn p c => throwIn p c s
  | PassTurn p => passTurn p s
  | TakeCards p => takeCards p s
  end.

End GameSession.

(* ===================================================================== *)
(** ** backend/src/game/GameManager.ts                                     *)
(* ===================================================================== *)

Module GameManager.

(** The two maps of the class. A session object stored in [sessions] is
    shared with whoever looked it up; a method call on it is modelled by
    writing the changed session back under its room id. *)
Record t := mk {
  sessions : gmap string GameSession.t;
  playerRooms : gmap string string   (* playerId -> roomId *)
}.

Definition empty : t := {| sessions := ∅; playerRooms := ∅ |}.

(** [{ success: true, roomId }] or [{ success: false, error }]. *)
Inductive CreateResult :=
| Created (roomId : string)
| NotCreated (error : string).

(** [{ success: true }] or [{ success: false, error }]. *)
Inductive Result :=
| Success
| Failure (error : string).

Definition chars : string := "ABCDEFGHIJKLMNOPQRSTUVWXYZ0123456789".

(** [chars.charAt(n)], the empty string out of range. *)
Definition charAt (str : string) (n : nat) : string :=
  match String.get n str with
  | Some c => String c EmptyString
  | None => EmptyString
  end.

(** The loop [for (i = 0; i < 6; i++) roomId += chars.charAt(...)], the
    draws being numbered from [k]. *)
Fixpoint randomCode (rnd : nat -> nat) (k n : nat) : string :=
  match n with
  | 0 => EmptyString
  | S n' => charAt chars (rnd k mod String.length chars) +:+ randomCode rnd (S k) n'
  end.

(** The recursion of [generateRoomId] ends when a drawn code is free;
    [fuel] bounds the number of codes drawn. *)
Fixpoint generateRoomId (fuel : nat) (rnd : nat -> nat) (k : nat)
    (live : gmap string GameSession.t) : outcome string :=
  match fuel with
  | 0 => Diverged
  | S fuel' =>
      let roomId := randomCode rnd k 6 in
      if bool_decide (is_Some (live !! roomId))
      then generateRoomId fuel' rnd (k + 6) live
      else Returned roomId
  end.

Definition createRoom (fuel : nat) (rnd : nat -> nat) (playerId : string) (m : t)
  : outcome (CreateResult * t) :=
  if bool_decide (is_Some (playerRooms m !! playerId)) then
    Returned (NotCreated "Вы уже находитесь в комнате. Сначала выйдите из текущей.", m)
  else
    call! roomId := generateRoomId fuel rnd 0 (sessions m) in
    call! joined := GameSession.addPlayer rnd playerId (GameSession.new roomId) in
    Returned (Created roomId,
              {| sessions := <[roomId := snd joined]> (sessions m);
                 playerRooms := <[playerId := roomId]> (playerRooms m) |}).

Definition joinRoom (rnd : nat -> nat) (playerId roomId : string) (m : t)
  : outcome (Result * t) :=
  if bool_decide (is_Some (playerRooms m !! playerId)) then
    Returned (Failure "Вы уже находитесь в комнате. Сначала выйдите из текущей.", m)
  else
    match sessions m !! roomId with
    | None => Returned (Failure "Комната не найдена.", m)
    | Some session =>
        if bool_decide (2 <= length (GameSession.players session)) then
          Returned (Failure "Комната уже заполнена.", m)
        else if bool_decide (GameSession.phase session <> waiting) then
          Returned (Failure "Игра уже началась.", m)
        else
          call! joined := GameSession.addPlayer rnd playerId session in
          Returned (Success,
                    {| sessions := <[roomId := snd joined]> (sessions m);
                       playerRooms := <[playerId := roomId]> (playerRooms m) |})
    end.

Definition leaveRoom (playerId : string) (m : t) : Result * t :=
  match or_null (playerRooms m !! playerId) with
  | None => (Failure "Вы не находитесь ни в одной комнате.", m)
  | Some roomId =>
      match sessions m !! roomId with
      | None => (Failure "Комната не найдена.", m)
      | Some session =>
          let session := GameSession.removePlayer playerId session in
          let live := <[roomId := session]> (sessions m) in
          (Success,
           {| sessions := if bool_decide (length (GameSession.players session) = 0)
                          then delete roomId live else live;
              playerRooms := delete playerId (playerRooms m) |})
      end
  end.

Definition getSessionByPlayer (playerId : string) (m : t) : option GameSession.t :=
  match or_null (playerRooms m !! playerId) with
  | None => None
  | Some roomId => sessions m !! roomId
  end.

(** The loops of the two clean-ups visit the entries of [sessions]; each
    turn deletes at most the entry it visits (and the mappings of its
    players), so that the order of the visit, insertion order in JS, does
    not matter. The accumulator is the number cleaned and the registry.
    [cleanupFinishedGames] does not use its argument [olderThanMs]. *)
Definition cleanupEmptyRooms (m : t) : nat * t :=
  foldr (fun '(roomId, session) '(cleaned, m) =>
           if bool_decide (length (GameSession.players session) = 0)
           then (S cleaned,
                 {| sessions := delete roomId (sessions m);
                    playerRooms := playerRooms m |})
           else (cleaned, m))
        (0, m) (map_to_list (sessions m)).

Definition cleanupFinishedGames (m : t) : nat * t :=
  foldr (fun '(roomId, session) '(cleaned, m) =>
           if bool_decide (GameSession.phase session = finished)
           then (S cleaned,
                 {| sessions := delete roomId (sessions m);
                    playerRooms := foldr delete (playerRooms m)
                                         (GameSession.players session) |})
           else (cleaned, m))
        (0, m) (map_to_list (sessions m)).

(** The getters of the class. *)
Definition getPlayerRoom (playerId : string) (m : t) : option string :=
  playerRooms m !! playerId.

Definition getSession (roomId : string) (m : t) : option GameSession.t :=
  sessions m !! roomId.

Definition isPlayerInRoom (playerId : string) (m : t) : bool :=
  bool_decide (is_Some (playerRooms m !! playerId)).

Definition getActiveRoomsCount (m : t) : nat := size (sessions m).

Definition getOnlinePlayersCount (m : t) : nat := size (playerRooms m).

(** [RoomInfo] of [shared/types.ts]. *)
Record RoomInfo := mkRoomInfo {
  info_roomId : string;
  playerCount : nat;
  maxPlayers : nat;
  status : GamePhase;
  createdAt : Z
}.

(** The test of [getOpenRooms]:
    [session.phase === 'waiting' && session.players.length < 2]. *)
Definition isOpen (session : GameSession.t) : bool :=
  bool_decide (GameSession.phase session = waiting)
  && bool_decide (length (GameSession.players session) < 2).

(** [getOpenRooms]: one entry for every open room; [now k] is the [k]-th
    reading of [Date.now()]. The loop visits the entries of [sessions] in
    insertion order, which the map of this model does not keep: the list
    is the one of the source up to the order of its entries. *)
Definition getOpenRooms (now : nat -> Z) (m : t) : list RoomInfo :=
  imap (fun k '(roomId, session) =>
          mkRoomInfo roomId (length (GameSession.players session)) 2 waiting (now k))
       (filter (fun x => isOpen x.2 = true) (map_to_list (sessions m))).

(** The object returned by [getServerStats]. *)
Record ServerStats := mkStats {
  activeRooms : nat;
  onlinePlayers : nat;
  waitingRooms : nat;
  playingGames : nat;
  finishedGames : nat
}.

Definition getServerStats (now : nat -> Z) (m : t) : ServerStats :=
  {| activeRooms := size (sessions m);
     onlinePlayers := size (playerRooms m);
     waitingRooms := length (getOpenRooms now m);
     playingGames :=
       length (filter (fun s => GameSession.phase s = playing)
                      (map_to_list (sessions m)).*2);
     finishedGames :=
       length (filter (fun s => GameSession.phase s = finished)
                      (map_to_list (sessions m)).*2) |}.

(** A game action as the transport performs it: the session is looked up
    by the player, and the move is made in the player's own name. *)
Definition movePlayer (mv : GameSession.Move) : string :=
  match mv with
  | GameSession.Attack p _ | GameSession.Defend p _ _ | GameSession.ThrowIn p _
  | GameSession.PassTurn p | GameSession.TakeCards p => p
  end.

Definition play (mv : GameSession.Move) (m : t) : outcome (option bool * t) :=
  match or_null (playerRooms m !! movePlayer mv) with
  | None => Returned (None, m)
  | Some roomId =>
      match sessions m !! roomId with
      | None => Returned (None, m)
      | Some session =>
          call! r := GameSession.move mv session in
          Returned (Some (fst r),
                    {| sessions := <[roomId := snd r]> (sessions m);
                       playerRooms := playerRooms m |})
      end
  end.

(** The operations on the registry, as data. *)
Inductive Op :=
| CreateRoom (fuel : nat) (rnd : nat -> nat) (playerId : string)
| JoinRoom (rnd : nat -> nat) (playerId roomId : string)
| LeaveRoom (playerId : string)
| CleanupEmptyRooms
| CleanupFinishedGames
| Play (mv : GameSession.Move).

Definition step (op : Op) (m : t) : outcome t :=
  match op with
  | CreateRoom fuel rnd p => call! r := createRoom fuel rnd p m in Returned (snd r)
  | JoinRoom rnd p roomId => call! r := joinRoom rnd p roomId m in Returned (snd r)
  | LeaveRoom p => Returned (snd (leaveRoom p m))
  | CleanupEmptyRooms => Returned (snd (cleanupEmptyRooms m))
  | CleanupFinishedGames => Returned (snd (cleanupFinishedGames m))
  | Play mv => call! r := play mv m in Returned (snd r)
  end.

Fixpoint run (ops : list Op) (m : t) : outcome t :=
  match ops with
  | [] => Returned m
  | op :: rest => call! m' := step op m in run rest m'
  end.

End GameManager.

(* ===================================================================== *)
(** * Vocabulary of the specification                                   *)
(* ===================================================================== *)

Import CardLogic GameSession.

(** What [refillHands] leaves alone: everything but hands, deck and the
    trump card. *)
Definition refillFrame (s : t) :=
  (roomId s, players s, trumpSuit s, table s, attacker s, defender s,
   phase s, winner s, canThrow s, lastAction s).

(** What [checkWinner] leaves alone: everything but winner, phase and the
    last-action text. *)
Definition winnerFrame (s : t) :=
  (roomId s, players s, hands s, deck s, trumpCard s, trumpSuit s, table s,
   attacker s, defender s, canThrow s).

(** The hand of a player, empty when the player has none. *)
Definition handOf (s : t) (p : string) : list Card := default [] (hands s !! p).

(** The cards held by the players of the match. *)
Definition handsTotal (s : t) : nat :=
  sum_list_with (fun p => length (handOf s p)) (players s).

(** Cards lying on the table: one per pair, two when it is defended. *)
Definition pairCount (p : CardPair) : nat :=
  match defense_ p with Some _ => 2 | None => 1 end.
Definition tableCount (s : t) : nat := sum_list_with pairCount (table s).

(** 1 while the trump indicator is held aside, 0 afterwards. *)
Definition trumpPresent (s : t) : nat :=
  match trumpCard s with Some _ => 1 | None => 0 end.

(** [|deck| + trump indicator + hands + table]. *)
Definition cardCount (s : t) : nat :=
  length (deck s) + trumpPresent s + handsTotal s + tableCount s.

(** The trump indicator of [s], counted when the refill that ends a round
    has left the deck of [s'] empty: it is discarded then. *)
Definition indicatorDropped (s s' : t) : nat :=
  if bool_decide (deck s' = []) then trumpPresent s else 0.

(** The cards a successful move from [s] to [s'] takes out of the game:
    none for [attack], [defend] and [throwIn]; the cards on the table for
    [passTurn]; and, for [passTurn] and [takeCards], the trump indicator
    when their refill leaves the deck empty. *)
Definition discarded (m : Move) (s s' : t) : nat :=
  match m with
  | Attack _ _ | Defend _ _ _ | ThrowIn _ _ => 0
  | PassTurn _ => tableCount s + indicatorDropped s s'
  | TakeCards _ => indicatorDropped s s'
  end.

Definition cardOk (c : Card) : Prop := truthy c = true.
Definition pairOk (p : CardPair) : Prop :=
  cardOk (attack_ p) /\ forall d, defense_ p = Some d -> cardOk d.

(** The matches a deal and a sequence of moves lead to: two players with
    non-empty ids (the transport refuses an empty [playerId]) join a new
    session, which deals; then any move may be attempted. *)
Inductive reachable : t -> Prop :=
| reach_deal roomId a b rndA rndB sA sB :
    truthy a = true -> truthy b = true ->
    addPlayer rndA a (new roomId) = Returned (true, sA) ->
    addPlayer rndB b sA = Returned (true, sB) ->
    reachable sB
| reach_move s m r s' :
    reachable s -> move m s = Returned (r, s') -> reachable s'.

(** The shape of such matches, for the players [a] and [b] in join order:
    both hold a hand, nobody else does, they share the two roles, and
    every card is a non-empty string. *)
Record Wf (a b : string) (s : t) : Prop := {
  wf_players : players s = [a; b];
  wf_ne : a <> b;
  wf_a : truthy a = true;
  wf_b : truthy b = true;
  wf_roles : (attacker s = Some a /\ defender s = Some b)
             \/ (attacker s = Some b /\ defender s = Some a);
  wf_hand_a : is_Some (hands s !! a);
  wf_hand_b : is_Some (hands s !! b);
  wf_dom : forall p, is_Some (hands s !! p) -> p = a \/ p = b;
  wf_deck : Forall cardOk (deck s);
  wf_cards : forall p, Forall cardOk (handOf s p);
  wf_table : Forall pairOk (table s);
  wf_phase : phase s <> waiting;
  wf_winner : phase s = playing -> winner s = None
}.

(** The invariant: the shape, at most 36 cards in play, and, while the
    deck lasts, each player's hand together with the table holds at least
    six cards. *)
Record Inv (a b : string) (s : t) : Prop := {
  inv_wf : Wf a b s;
  inv_six : deck s <> [] ->
            forall p, p = a \/ p = b -> 6 <= length (handOf s p) + tableCount s;
  inv_count : cardCount s <= 36
}.

(** The hands during the deal: [a] and [b] hold one each, nobody else
    does, and every card in the hands and in the deck is non-empty. *)
Record Dealing (a b : string) (s : t) : Prop := {
  dl_ne : a <> b;
  dl_hand_a : is_Some (hands s !! a);
  dl_hand_b : is_Some (hands s !! b);
  dl_dom : forall p, is_Some (hands s !! p) -> p = a \/ p = b;
  dl_deck : Forall cardOk (deck s);
  dl_cards : forall p, Forall cardOk (handOf s p)
}.

(** What dealing and sorting leave alone. *)
Definition dealFrame (s : t) :=
  (roomId s, players s, trumpCard s, trumpSuit s, table s, attacker s,
   defender s, phase s, winner s, canThrow s, lastAction s).

(** What the win check has decided in the state it leaves, for the
    players [a] and [b]: once the deck is empty and no trump indicator is
    left, a player with an empty hand facing a non-empty hand has won;
    with both hands empty nobody has. *)
Definition winChecked (a b : string) (s : t) : Prop :=
  deck s = [] -> trumpCard s = None ->
  (handOf s a = [] -> handOf s b <> [] -> winner s = Some a /\ phase s = finished)
  /\ (handOf s b = [] -> handOf s a <> [] -> winner s = Some b /\ phase s = finished)
  /\ (handOf s a = [] -> handOf s b = [] -> winner s = None /\ phase s = playing).

(** The state after [playerId] has put [card] from [hand] on the table as
    a new attack: the effect shared by [attack] and [throwIn]. *)
Definition played (text : string) (playerId : string) (card : Card)
    (hand : list Card) (s : t) : t :=
  set_lastAction text
    (set_canThrow false
       (set_table (table s ++ [mkPair card None])
          (set_hands (<[playerId := spliceFirst card hand]> (hands s)) s))).

(** The state after [playerId] has covered the pair [found] at index [i]
    with [card] from [hand]. *)
Definition defended (playerId : string) (card : Card) (hand : list Card)
    (i : nat) (found : CardPair) (s : t) : t :=
  let tbl := <[i := mkPair (attack_ found) (Some card)]> (table s) in
  set_lastAction (playerId +:+ " защищается картой " +:+ card)
    (set_canThrow (allDefended tbl)
       (set_table tbl
          (set_hands (<[playerId := spliceFirst card hand]> (hands s)) s))).

(** The three assignments of [checkWinner] that declare [p] the winner. *)
Definition declare (p : string) (s : t) : t :=
  set_lastAction (p +:+ " победил!") (set_phase finished (set_winner (Some p) s)).


(** Running a list of moves, whatever each one answers. *)
Fixpoint runMoves (ms : list Move) (s : t) : outcome t :=
  match ms with
  | [] => Returned s
  | m :: rest => call! r := move m s in runMoves rest (snd r)
  end.

(** The cards discarded by the moves of [ms] played from [s]. *)
Fixpoint discardedAlong (ms : list Move) (s : t) : nat :=
  match ms with
  | [] => 0
  | m :: rest =>
      match move m s with
      | Returned (true, s') => discarded m s s' + discardedAlong rest s'
      | Returned (false, s') => discardedAlong rest s'
      | _ => 0
      end
  end.

Definition sampleRnd (k : nat) : nat := 0.

(** "alice" then "bob" join room "ROOM01"; the second join deals. *)
Definition sampleLobby : t :=
  match addPlayer sampleRnd "alice" (new "ROOM01") with
  | Returned (_, s) => s
  | _ => new "ROOM01"
  end.
Definition sampleDeal : t :=
  match addPlayer sampleRnd "bob" sampleLobby with
  | Returned (_, s) => s
  | _ => sampleLobby
  end.

(** A whole match played from [sampleDeal]; "alice" wins with its last
    move. *)
Definition sampleMoves : list Move :=
  [Attack "alice" "Ac"; TakeCards "bob"; Attack "alice" "Qc";
   Defend "bob" "Qc" "Kc"; PassTurn "alice";
   Attack "bob" "Ac"; Defend "alice" "Ac" "6h";
   PassTurn "bob"; Attack "alice" "9c"; Defend "bob" "9c" "10c";
   PassTurn "alice"; Attack "bob" "7c"; Defend "alice" "7c" "8c";
   PassTurn "bob"; Attack "alice" "Jc"; TakeCards "bob";
   Attack "alice" "Kd"; TakeCards "bob"; Attack "alice" "Qd";
   Defend "bob" "Qd" "Kd"; PassTurn "alice";
   Attack "bob" "6c"; TakeCards "alice"; Attack "bob" "Jc";
   TakeCards "alice"; Attack "bob" "10d"; Defend "alice" "10d" "Jd";
   PassTurn "bob"; Attack "alice" "6c"; TakeCards "bob";
   Attack "alice" "Jc"; TakeCards "bob"; Attack "alice" "8d";
   Defend "bob" "8d" "9d"; PassTurn "alice";
   Attack "bob" "6c"; TakeCards "alice"; Attack "bob" "Jc";
   TakeCards "alice"; Attack "bob" "6d"; Defend "alice" "6d" "7d";
   PassTurn "bob"; Attack "alice" "6c"; Defend "bob" "6c" "Ah";
   PassTurn "alice"; Attack "bob" "6s"; Defend "alice" "6s" "7s";
   PassTurn "bob"; Attack "alice" "Jc"; Defend "bob" "Jc" "Qh";
   PassTurn "alice"; Attack "bob" "8s"; Defend "alice" "8s" "9s";
   PassTurn "bob"; Attack "alice" "Ad"; Defend "bob" "Ad" "8h";
   PassTurn "alice"; Attack "bob" "10s"; Defend "alice" "10s" "Js";
   PassTurn "bob"; Attack "alice" "Ks"; Defend "bob" "Ks" "As";
   PassTurn "alice"; Attack "bob" "Qs"; Defend "alice" "Qs" "10h";
   PassTurn "bob"; Attack "alice" "Jh"; Defend "bob" "Jh" "Kh";
   PassTurn "alice"].

(** The match after the first [n] moves of [sampleMoves]. *)
Definition sampleAfter (n : nat) : t :=
  match runMoves (take n sampleMoves) sampleDeal with
  | Returned s => s
  | _ => sampleDeal
  end.

(** A hand-built position for the capacity rule: throw-ins are allowed,
    one pair lies undefended and the defender "bob" holds one card;
    "alice" holds a seven that matches the rank on the table. *)
Definition capacityState : t :=
  {| roomId := "ROOM01"; players := ["alice"; "bob"];
     hands := <["alice" := ["7d"; "Kc"]]> (<["bob" := ["8s"]]> ∅);
     deck := []; trumpCard := None; trumpSuit := Some "h";
     table := [mkPair "7s" None];
     attacker := Some "alice"; defender := Some "bob";
     phase := playing; winner := None; canThrow := true; lastAction := EmptyString |}.

(** A position set up by hand, which no deal leads to: the deck is used
    up, the trump indicator is gone, both players have played their last
    card and the one pair on the table is covered. *)
Definition bothOutState : t :=
  {| roomId := "ROOM01"; players := ["alice"; "bob"];
     hands := <["alice" := []]> (<["bob" := []]> ∅);
     deck := []; trumpCard := None; trumpSuit := Some "h";
     table := [mkPair "7s" (Some "8s")];
     attacker := Some "alice"; defender := Some "bob";
     phase := playing; winner := None; canThrow := true; lastAction := EmptyString |}.

(** [bothOutState] after the pass of "alice". *)
Definition bothOutAfterPass : t :=
  match passTurn "alice" bothOutState with
  | Returned (_, s) => s
  | _ => bothOutState
  end.

(** Every field of a state or of a view but the hands. *)
Definition viewFrame (s : t) :=
  (roomId s, players s, phase s, table s, deck s, trumpCard s, trumpSuit s,
   attacker s, defender s, winner s, canThrow s, lastAction s).

(** Two match states that differ at most in which cards the players other
    than [p] hold, each of them holding as many cards in both. *)
Definition sameExceptOtherHands (p : string) (s1 s2 : t) : Prop :=
  viewFrame s1 = viewFrame s2
  /\ hands s1 !! p = hands s2 !! p
  /\ forall q, q <> p -> length <$> (hands s1 !! q) = length <$> (hands s2 !! q).

(** The invariant of the registry: every entry of [playerRooms] names a
    live session that lists the player, and every player listed by a live
    session is mapped to it. *)
Record RegInv (m : GameManager.t) : Prop := {
  reg_live : forall p r,
    GameManager.playerRooms m !! p = Some r ->
    exists s, GameManager.sessions m !! r = Some s /\ p ∈ players s;
  reg_back : forall r s p,
    GameManager.sessions m !! r = Some s -> p ∈ players s ->
    GameManager.playerRooms m !! p = Some r
}.

(** A history of the registry: "alice" opens a room, "bob" joins it (the
    game starts), a second [createRoom] by "alice" is refused, "alice"
    attacks, "bob" leaves (the match ends), and "carol" opens a room; her
    first code collides with the live room and a second one is drawn. *)
Definition carolRnd (k : nat) : nat := if bool_decide (k = 6) then 1 else 0.

Definition sampleOps : list GameManager.Op :=
  [GameManager.CreateRoom 2 sampleRnd "alice";
   GameManager.JoinRoom sampleRnd "bob" "AAAAAA";
   GameManager.CreateRoom 2 sampleRnd "alice";
   GameManager.Play (Attack "alice" "Ac");
   GameManager.LeaveRoom "bob";
   GameManager.CleanupEmptyRooms;
   GameManager.CreateRoom 2 carolRnd "carol"].

Definition sampleRegistry : GameManager.t :=
  match GameManager.run sampleOps GameManager.empty with
  | Returned m => m
  | _ => GameManager.empty
  end.

(** The ordinal [SUIT_ORDER] gives a suit. *)
Definition suitOrd (s : SuitName) : Z :=
  match s with Clubs => 1 | Diamonds => 2 | Hearts => 3 | Spades => 4 end%Z.

(** The place of a card in a sorted hand, as one number: trumps after all
    other cards, then the suits in the order of [SUIT_ORDER], then the
    ranks. *)
Definition sortKey (trump : SuitName) (c : Rank * SuitName) : Z :=
  ((if bool_decide (snd c = trump) then 1000 else 0)
   + 100 * suitOrd (snd c) + rankValue (fst c))%Z.

Definition sortKeyLe (trump : SuitName) (c1 c2 : Rank * SuitName) : Prop :=
  (sortKey trump c1 <= sortKey trump c2)%Z.

(** A structured hand as the strings of the program. *)
Definition mkCards (hand : list (Rank * SuitName)) : list Card :=
  map (fun c => mkCard (fst c) (snd c)) hand.

(** All the cards of a pair, and of the table. *)
Definition pairList (p : CardPair) : list Card :=
  attack_ p :: match defense_ p with Some d => [d] | None => [] end.
Definition tableList (s : t) : list Card := flat_map pairList (table s).

(** The trump indicator while it is held aside. *)
Definition trumpList (s : t) : list Card :=
  match trumpCard s with Some c => [c] | None => [] end.

(** Every card in play: deck, trump indicator, the players' hands, table. *)
Definition allCards (s : t) : list Card :=
  deck s ++ trumpList s ++ concat (map (handOf s) (players s)) ++ tableList s.

(** The cards held by the deck, the hands and the table, the trump
    indicator left out. *)
Definition inPlay (s : t) : nat := length (deck s) + handsTotal s + tableCount s.

(** What the player [p] can work out from a view [v]: the cards of the
    game that [v] shows neither in the deck, nor as the trump indicator,
    nor in the hand of [p], nor on the table. *)
Definition unseenCards (p : string) (v : GameState) : list Card :=
  filter (fun c => c ∉ deck v ++ trumpList v ++ handOf v p ++ tableList v) generateDeck.

(** What a match keeps of the rules of the game, for the players [a] and
    [b]: no card is invented or doubled, the cards of deck, hands and
    table are odd in number, the trump suit is one of the four, the trump
    indicator lies aside exactly while the deck lasts and shows the trump
    suit, every covered attack is beaten by its cover, at most one attack
    lies uncovered, [canThrow] is set exactly when the table is not empty
    and covered, and a finished match has the winner the hands show. *)
Record Sound (a b : string) (s : t) : Prop := {
  snd_cards : allCards s ⊆+ generateDeck;
  snd_odd : Nat.odd (inPlay s) = true;
  snd_trump : exists tr, trumpSuit s = Some (suitStr tr);
  snd_aside : trumpCard s = None <-> deck s = [];
  snd_suit : forall c, trumpCard s = Some c -> trumpSuit s = Some (suit (parseCard c));
  snd_beats : forall p d tr,
    p ∈ table s -> defense_ p = Some d -> trumpSuit s = Some tr ->
    canBeat (attack_ p) d tr = true;
  snd_open : undefendedCount (table s) <= 1;
  snd_throw : canThrow s = allDefended (table s) && bool_decide (table s <> []);
  snd_done : phase s = finished ->
    deck s = [] /\ trumpCard s = None /\ table s = []
    /\ (winner s = Some a /\ handOf s a = [] /\ handOf s b <> []
        \/ winner s = Some b /\ handOf s b = [] /\ handOf s a <> [])
}.

(** The session of a room that waits for a second player: the state
    [createRoom] stores, a new session that [a] has joined. *)
Definition lobby (roomId a : string) : t :=
  set_hands (<[a := []]> ∅) (set_players [a] (new roomId)).

(** The room codes: six characters of the alphabet of [generateRoomId]. *)
Definition isRoomCode (r : string) : Prop :=
  String.length r = 6
  /\ Forall (fun c => c ∈ String.list_ascii_of_string GameManager.chars)
            (String.list_ascii_of_string r).

(** The shape of the rooms of a registry: every room has a code for its
    id, holds one or two players, and a room that waits is the lobby of
    its first player. *)
Record RegShape (m : GameManager.t) : Prop := {
  shape_code : forall r s, GameManager.sessions m !! r = Some s -> isRoomCode r;
  shape_some : forall r s,
    GameManager.sessions m !! r = Some s -> 1 <= length (players s) <= 2;
  shape_lobby : forall r s,
    GameManager.sessions m !! r = Some s -> phase s = waiting ->
    exists a, s = lobby r a
}.

(** The value [RANK_VALUES] gives the rank of a card, 0 when it gives
    none. *)
Definition rankOf (c : Card) : Z := default 0%Z (RANK_VALUES (rank (parseCard c))).

(** The cards of the trump suit of a match. *)
Definition isTrump (s : t) (c : Card) : Prop := Some (suit (parseCard c)) = trumpSuit s.

(** The operations the transport issues: it refuses a message without a
    [playerId], so that rooms are created and joined under non-empty
    ids. *)
Definition opNamed (op : GameManager.Op) : Prop :=
  match op with
  | GameManager.CreateRoom _ _ p | GameManager.JoinRoom _ p _ => truthy p = true
  | _ => True
  end.

(** The sessions of such a registry: a lobby, a match reached from a
    deal, or a finished session. *)
Definition RegLive (m : GameManager.t) : Prop :=
  forall r s, GameManager.sessions m !! r = Some s ->
    (exists a, s = lobby r a /\ truthy a = true) \/ reachable s \/ phase s = finished.

(** The registry after the first [n] operations of [sampleOps], and the
    session of its room "AAAAAA". *)
Definition sampleRegistryAfter (n : nat) : GameManager.t :=
  match GameManager.run (take n sampleOps) GameManager.empty with
  | Returned m => m
  | _ => GameManager.empty
  end.
Definition sampleRoom (n : nat) : t :=
  default (new "AAAAAA") (GameManager.sessions (sampleRegistryAfter n) !! "AAAAAA").

(** Case analysis along the tests and binds of a method body [H]. *)
Ltac split_op H :=
  repeat (simplify_eq/=; try done;
          match type of H with
          | context [obind ?m _] => destruct m eqn:?; cbn [obind] in H
          | context [match ?x with _ => _ end] => destruct x eqn:?
          end); simplify_eq/=; try done.

(* ===================================================================== *)
(** * Properties                                                           *)
(* ===================================================================== *)

(** ** Card rules *)

Section CardRules.

Lemma parseCard_mkCard r s :
  parseCard (mkCard r s) = {| rank := rankStr r; suit := suitStr s |}.
Proof. by destruct r, s. Qed.

Lemma RANK_VALUES_rankStr r : RANK_VALUES (rankStr r) = Some (rankValue r).
Proof. by destruct r. Qed.

Lemma suitStr_inj s1 s2 : suitStr s1 = suitStr s2 -> s1 = s2.
Proof. by destruct s1, s2. Qed.

Lemma suitStr_eq_decide s1 s2 :
  bool_decide (suitStr s1 = suitStr s2) = bool_decide (s1 = s2).
Proof. apply bool_decide_ext. split; [apply suitStr_inj | congruence]. Qed.

Lemma truthy_mkCard r s : truthy (mkCard r s) = true.
Proof. by destruct r, s. Qed.

(** [canBeat] on well-formed cards, as a boolean formula. *)
Lemma canBeat_mkCard ra sa rd sd t :
  canBeat (mkCard ra sa) (mkCard rd sd) (suitStr t) =
    if bool_decide (sa = sd) && negb (bool_decide (sa = t))
    then (rankValue ra <? rankValue rd)%Z
    else if bool_decide (sa = t) && bool_decide (sd = t)
    then (rankValue ra <? rankValue rd)%Z
    else negb (bool_decide (sa = t)) && bool_decide (sd = t).
Proof.
  unfold canBeat. rewrite !parseCard_mkCard. cbn [rank suit].
  rewrite !RANK_VALUES_rankStr, !suitStr_eq_decide. cbn [js_gt].
  repeat case_bool_decide; reflexivity.
Qed.

(** C2. For well-formed cards [mkCard ra sa] (attack) and [mkCard rd sd]
    (defense) and any trump suit [t], [canBeat] is true exactly when
    (a) both have the same non-trump suit and the defense rank is higher,
    or (b) both are trump and the defense rank is higher, or (c) the
    defense is trump and the attack is not; it is false otherwise, and in
    particular a trump attack is beaten only by a higher trump, never by
    a non-trump card. *)
Theorem canBeat_cases (ra rd : Rank) (sa sd t : SuitName) :
  (canBeat (mkCard ra sa) (mkCard rd sd) (suitStr t) = true <->
     (sa = sd /\ sa <> t /\ (rankValue ra < rankValue rd)%Z)
     \/ (sa = t /\ sd = t /\ (rankValue ra < rankValue rd)%Z)
     \/ (sd = t /\ sa <> t))
  /\ canBeat (mkCard ra t) (mkCard rd sd) (suitStr t) =
       bool_decide (sd = t) && (rankValue ra <? rankValue rd)%Z.
Proof.
  split.
  - rewrite canBeat_mkCard.
    repeat case_bool_decide; cbn [andb negb]; subst;
      rewrite ?Z.ltb_lt; split; intros Hc; try tauto; try done;
      try (destruct Hc as [(? & ? & ?) | [(? & ? & ?) | (? & ?)]]; congruence).
  - rewrite canBeat_mkCard.
    repeat case_bool_decide; cbn [andb negb]; subst; try done.
Qed.

Example canBeat_trump_attack_plain_defense : canBeat "7h" "6s" "h" = false.
Proof. reflexivity. Qed.

Lemma sortHand_Permutation hand trump : sortHand hand trump ≡ₚ hand.
Proof. apply merge_sort_Permutation. Qed.

Lemma length_sortHand hand trump : length (sortHand hand trump) = length hand.
Proof. by rewrite sortHand_Permutation. Qed.

Lemma Forall_sortHand (P : Card -> Prop) hand trump :
  Forall P hand -> Forall P (sortHand hand trump).
Proof. by rewrite sortHand_Permutation. Qed.

Lemma swap_Permutation a i j : swap a i j ≡ₚ a.
Proof.
  unfold swap.
  destruct (a !! i) as [ai|] eqn:Hi; [|done].
  destruct (a !! j) as [aj|] eqn:Hj; [|done].
  destruct (decide (i = j)) as [->|Hne].
  - rewrite list_insert_insert_eq. replace aj with ai by congruence.
    by rewrite list_insert_id.
  - symmetry. apply Permutation_inj. split.
    + by rewrite !length_insert.
    + exists (fun k => if decide (k = i) then j else if decide (k = j) then i else k).
      split.
      * intros x y. repeat case_decide; congruence.
      * intros k. repeat case_decide; subst.
        -- rewrite list_lookup_insert_eq; [done|].
           rewrite length_insert. by eapply lookup_lt_Some.
        -- rewrite list_lookup_insert_ne by done.
           rewrite list_lookup_insert_eq; [done|]. by eapply lookup_lt_Some.
        -- by rewrite !list_lookup_insert_ne by done.
Qed.

Lemma shuffleLoop_Permutation rnd k i a : shuffleLoop rnd k i a ≡ₚ a.
Proof.
  revert k a. induction i as [|i IH]; intros k a; cbn [shuffleLoop]; [done|].
  by rewrite IH, swap_Permutation.
Qed.

Lemma shuffleDeck_Permutation rnd deck : shuffleDeck rnd deck ≡ₚ deck.
Proof. apply shuffleLoop_Permutation. Qed.

Lemma generateDeck_truthy : Forall (fun c => truthy c = true) generateDeck.
Proof. by repeat constructor. Qed.

End CardRules.

(** ** The match state machine: frame lemmas *)

Section Frames.

Lemma forEach_preserves {A B} (proj : t -> B) (f : A -> t -> outcome t) l :
  (forall x s s', f x s = Returned s' -> proj s' = proj s) ->
  forall s s', forEach f l s = Returned s' -> proj s' = proj s.
Proof.
  intros Hf. induction l as [|x l IH]; intros s s' H; cbn in H.
  - by simplify_eq.
  - destruct (f x s) as [s1| |] eqn:E; cbn in H; try done.
    rewrite (IH _ _ H). eauto.
Qed.

Lemma refillOne_frame p s s' :
  refillOne p s = Returned s' -> refillFrame s' = refillFrame s.
Proof.
  unfold refillOne. intros H.
  destruct (hands s !! p); [|done].
  destruct (refillLoop _ _ _). by simplify_eq.
Qed.

Lemma refillHands_frame s s' :
  refillHands s = Returned s' -> refillFrame s' = refillFrame s.
Proof.
  unfold refillHands. intros H.
  destruct (forEach refillOne (refillOrder s) s) as [s1| |] eqn:E; cbn in H; try done.
  apply (forEach_preserves refillFrame) in E; [|apply refillOne_frame].
  rewrite <- E. clear E. by case_match; simplify_eq.
Qed.

Lemma checkPlayer_frame p s s' :
  checkPlayer p s = Returned s' -> winnerFrame s' = winnerFrame s.
Proof. unfold checkPlayer. intros H. split_op H. Qed.

Lemma checkWinner_frame s s' :
  checkWinner s = Returned s' -> winnerFrame s' = winnerFrame s.
Proof.
  unfold checkWinner. intros H. case_match.
  - by apply (forEach_preserves winnerFrame) in H; [|apply checkPlayer_frame].
  - by simplify_eq.
Qed.

(** A move that answers [false] has changed nothing. *)
Lemma move_rejected_unchanged m s s' :
  move m s = Returned (false, s') -> s' = s.
Proof.
  destruct m; cbn [move];
    unfold attack, defend, throwIn, passTurn, takeCards; intros H; split_op H.
Qed.

(** A move never answers outside the phase [playing]. *)
Lemma move_accepted_playing m s s' :
  move m s = Returned (true, s') -> phase s = playing.
Proof.
  destruct m; cbn [move];
    unfold attack, defend, throwIn, passTurn, takeCards; intros H;
    destruct (decide (phase s = playing)) as [|Hn]; try done;
    rewrite (bool_decide_eq_true_2 _ Hn) in H; done.
Qed.

End Frames.

(** ** The match state machine: counting cards *)

Section Counting.

Lemma pop_snoc d c : pop (d ++ [c]) = (Some c, d).
Proof.
  unfold pop. rewrite last_snoc, length_app. cbn [length].
  replace (length d + 1 - 1) with (length d) by lia.
  by rewrite take_app_length.
Qed.

Lemma pop_nil : pop [] = (None, []).
Proof. reflexivity. Qed.

Lemma nonempty_snoc (l : list Card) : 0 < length l -> exists d c, l = d ++ [c].
Proof.
  destruct l as [|x l] using rev_ind; cbn; [lia|]. eauto.
Qed.

(** The refill loop: it draws a block of cards from the end of the deck,
    stops at six cards or at an empty deck, and [length deck] turns are
    enough for that. *)
Lemma refillLoop_done fuel hand deck :
  length deck <= fuel -> Forall cardOk deck ->
  exists drawn rest,
    refillLoop fuel hand deck = (hand ++ drawn, rest)
    /\ length drawn + length rest = length deck
    /\ Forall cardOk drawn /\ Forall cardOk rest
    /\ (rest <> [] -> 6 <= length (hand ++ drawn))
    /\ (6 <= length hand -> drawn = []).
Proof.
  revert hand deck. induction fuel as [|fuel IH]; intros hand deck Hlen Hok.
  - destruct deck; cbn in Hlen; [|lia].
    exists [], []. rewrite app_nil_r. cbn. repeat split; auto; done.
  - cbn [refillLoop].
    destruct (decide (length hand < 6)) as [Hh|Hh];
      [rewrite (bool_decide_eq_true_2 _ Hh)|rewrite (bool_decide_eq_false_2 _ Hh)];
      cbn [andb].
    + destruct (decide (0 < length deck)) as [Hd|Hd];
        [rewrite (bool_decide_eq_true_2 _ Hd)|rewrite (bool_decide_eq_false_2 _ Hd)].
      * destruct (nonempty_snoc _ Hd) as (d & c & ->).
        rewrite pop_snoc. apply Forall_app in Hok as [Hd' Hc].
        apply (proj1 (Forall_singleton _ _)) in Hc. unfold cardOk in Hc. rewrite Hc.
        rewrite length_app in Hlen. cbn in Hlen.
        destruct (IH (hand ++ [c]) d ltac:(lia) Hd')
          as (drawn & rest & -> & Hl & Hdr & Hre & Hsix & _).
        exists (c :: drawn), rest. rewrite <- app_assoc. cbn [app].
        repeat split; auto.
        -- rewrite length_app. cbn. lia.
        -- rewrite <- app_assoc in Hsix. exact Hsix.
        -- lia.
      * exists [], deck. rewrite app_nil_r. repeat split; auto.
        intros Hne. destruct deck; [done|cbn in Hd; lia].
    + exists [], deck. rewrite app_nil_r. repeat split; auto. lia.
Qed.

Lemma length_spliceFirst c h :
  c ∈ h -> S (length (spliceFirst c h)) = length h.
Proof.
  induction h as [|x h IH]; intros Hin; [by apply elem_of_nil in Hin|].
  cbn [spliceFirst]. case_bool_decide; [done|].
  apply elem_of_cons in Hin as [->|Hin]; [done|]. cbn. by rewrite IH.
Qed.

Lemma Forall_spliceFirst (P : Card -> Prop) c h :
  Forall P h -> Forall P (spliceFirst c h).
Proof.
  induction 1 as [|x h Hx Hh IH]; cbn [spliceFirst]; [done|].
  case_bool_decide; [done|]. by constructor.
Qed.

(** On checked cards, the cards collected from the table are as many as
    the table counts. *)
Lemma length_tableCards s :
  Forall pairOk (table s) -> length (tableCards s) = tableCount s.
Proof.
  unfold tableCards, tableCount.
  induction 1 as [|p tbl [Ha Hd] _ IH]; [done|].
  cbn [flat_map sum_list_with]. rewrite length_app, IH. f_equal.
  unfold pairCards, pairCount. destruct (defense_ p) as [d|].
  - rewrite filter_cons_True by exact Ha.
    rewrite filter_cons_True by (by apply Hd). done.
  - by rewrite filter_cons_True by exact Ha.
Qed.

Lemma Forall_tableCards s : Forall cardOk (tableCards s).
Proof.
  unfold tableCards. induction (table s) as [|p tbl IH]; cbn [flat_map]; [done|].
  apply Forall_app. split; [|done].
  unfold pairCards. apply Forall_forall. intros c Hc.
  by apply list_elem_of_filter in Hc as [Hc _].
Qed.

End Counting.

(** ** The match state machine: the invariant *)

Section Invariant.

Lemma handOf_insert s (hs : gmap string (list Card)) p h q :
  hands s = <[p := h]> hs ->
  handOf s q = if decide (p = q) then h else default [] (hs !! q).
Proof.
  unfold handOf. intros ->. case_decide as E.
  - subst. by rewrite lookup_insert_eq.
  - by rewrite lookup_insert_ne.
Qed.

Lemma handOf_Some s p h : hands s !! p = Some h -> handOf s p = h.
Proof. unfold handOf. by intros ->. Qed.

Lemma handOf_None s p : hands s !! p = None -> handOf s p = [].
Proof. unfold handOf. by intros ->. Qed.

Lemma handsTotal_two s a b :
  players s = [a; b] ->
  handsTotal s = length (handOf s a) + length (handOf s b).
Proof. unfold handsTotal. intros ->. cbn. lia. Qed.

(** The roles name the two players, in one order or the other. *)
Lemma Wf_roles a b s :
  Wf a b s ->
  exists x y, attacker s = Some x /\ defender s = Some y /\ x <> y
              /\ truthy x = true /\ truthy y = true
              /\ (x = a /\ y = b \/ x = b /\ y = a).
Proof.
  intros [? Hne Ha Hb [[? ?]|[? ?]] ? ? ? ? ? ? ? ?].
  - exists a, b. repeat split; auto.
  - exists b, a. repeat split; auto.
Qed.

Lemma Wf_hand a b s p :
  Wf a b s -> p = a \/ p = b -> hands s !! p = Some (handOf s p).
Proof.
  intros W [->| ->]; [destruct (wf_hand_a _ _ _ W) as [h E]
                     |destruct (wf_hand_b _ _ _ W) as [h E]];
    by rewrite (handOf_Some _ _ _ E).
Qed.

Lemma or_null_truthy p : truthy p = true -> or_null (Some p) = Some p.
Proof. cbn. by intros ->. Qed.

(** *** Refilling *)

Lemma refillOne_spec p s hand :
  hands s !! p = Some hand -> Forall cardOk (deck s) ->
  exists drawn rest,
    refillOne p s =
      Returned (set_hands (<[p := sortHand (hand ++ drawn) (trumpSuit s)]> (hands s))
                  (set_deck rest s))
    /\ length drawn + length rest = length (deck s)
    /\ Forall cardOk drawn /\ Forall cardOk rest
    /\ (rest <> [] -> 6 <= length (hand ++ drawn))
    /\ (6 <= length hand -> drawn = []).
Proof.
  intros Hh Hok. unfold refillOne. rewrite Hh.
  destruct (refillLoop_done (length (deck s)) hand (deck s) (le_n _) Hok)
    as (drawn & rest & -> & H).
  by exists drawn, rest.
Qed.

Lemma refillOrder_roles s x y :
  attacker s = Some x -> defender s = Some y ->
  truthy x = true -> truthy y = true -> refillOrder s = [x; y].
Proof.
  intros Hx Hy Tx Ty. unfold refillOrder. rewrite Hx, Hy. cbn [app].
  rewrite filter_cons_True by done. by rewrite filter_cons_True by done.
Qed.

(** [refillHands] when the attacker [x] and the defender [y] both hold a
    hand: [x] draws [dx], then [y] draws [dy], and the trump indicator is
    dropped once the deck is empty. *)
Lemma refillHands_roles s x y hx hy :
  attacker s = Some x -> defender s = Some y -> x <> y ->
  truthy x = true -> truthy y = true ->
  hands s !! x = Some hx -> hands s !! y = Some hy ->
  Forall cardOk (deck s) ->
  exists dx dy rest,
    let s2 := set_hands (<[y := sortHand (hy ++ dy) (trumpSuit s)]>
                           (<[x := sortHand (hx ++ dx) (trumpSuit s)]> (hands s)))
                (set_deck rest s) in
    refillHands s =
      Returned (if bool_decide (length rest = 0)
                   && bool_decide (or_null (trumpCard s) <> None)
                then set_trumpCard None s2 else s2)
    /\ length dx + length dy + length rest = length (deck s)
    /\ Forall cardOk dx /\ Forall cardOk dy /\ Forall cardOk rest
    /\ (rest <> [] -> 6 <= length (hx ++ dx) /\ 6 <= length (hy ++ dy))
    /\ (6 <= length hx -> dx = []) /\ (6 <= length hy -> dy = []).
Proof.
  intros Hx Hy Hne Tx Ty Ex Ey Hok.
  unfold refillHands. rewrite (refillOrder_roles s x y) by done.
  cbn [forEach].
  destruct (refillOne_spec x s hx Ex Hok)
    as (dx & r1 & -> & Hl1 & Hdx & Hr1 & Hs1 & Hn1).
  cbn [obind].
  set (s1 := set_hands _ (set_deck r1 s)).
  assert (E1 : hands s1 !! y = Some hy)
    by (subst s1; cbn; by rewrite lookup_insert_ne).
  destruct (refillOne_spec y s1 hy E1 Hr1)
    as (dy & rest & -> & Hl2 & Hdy & Hr2 & Hs2 & Hn2).
  cbn [obind]. exists dx, dy, rest. subst s1. cbn in *.
  split; [by destruct (_ && _)|].
  repeat split; auto; try lia.
  apply Hs1. intros ->. destruct rest; [done|]. cbn in Hl2. lia.
Qed.

(** Re-establishing the shape after a step that keeps the players and
    the set of hand owners. *)
Lemma Wf_update a b s s' :
  Wf a b s ->
  players s' = players s ->
  (attacker s' = attacker s /\ defender s' = defender s
   \/ attacker s' = defender s /\ defender s' = attacker s) ->
  (forall p, is_Some (hands s' !! p) <-> is_Some (hands s !! p)) ->
  Forall cardOk (deck s') ->
  (forall p, p = a \/ p = b -> Forall cardOk (handOf s' p)) ->
  Forall pairOk (table s') ->
  phase s' <> waiting ->
  (phase s' = playing -> winner s' = None) ->
  Wf a b s'.
Proof.
  intros W Hp Hr Hd Hdeck Hc Ht Hph Hw.
  destruct W as [Wp Wne Wa Wb Wr Wha Whb Wdom Wdeck Wc Wt Wph Ww].
  constructor; auto.
  - by rewrite Hp.
  - destruct Hr as [[-> ->]|[-> ->]]; tauto.
  - by apply Hd.
  - by apply Hd.
  - intros p Hs. apply Wdom. by apply Hd.
  - intros p. destruct (decide (p = a \/ p = b)) as [Hab|Hab]; [by apply Hc|].
    rewrite handOf_None; [constructor|].
    apply eq_None_not_Some. intros Hs. apply Hab, Wdom. by apply Hd.
Qed.

Lemma is_Some_insert2 (hs : gmap string (list Card)) x y vx vy p :
  is_Some (hs !! x) -> is_Some (hs !! y) ->
  is_Some (<[y := vy]> (<[x := vx]> hs) !! p) <-> is_Some (hs !! p).
Proof.
  intros Hx Hy. rewrite !lookup_insert_is_Some'. split; [|tauto].
  intros [<-|[<-|?]]; done.
Qed.

Lemma is_Some_insert1 (hs : gmap string (list Card)) x vx p :
  is_Some (hs !! x) ->
  is_Some (<[x := vx]> hs !! p) <-> is_Some (hs !! p).
Proof.
  intros Hx. rewrite !lookup_insert_is_Some'. split; [|tauto].
  intros [<-|?]; done.
Qed.

Lemma trumpPresent_set_None s : trumpPresent (set_trumpCard None s) = 0.
Proof. reflexivity. Qed.

(** [refillHands] on a match of the right shape: it returns, keeps the
    shape, and moves cards from the deck to the hands only. *)
Lemma refillHands_Wf a b s x y :
  Wf a b s -> attacker s = Some x -> defender s = Some y ->
  exists s1,
    refillHands s = Returned s1 /\ Wf a b s1
    /\ refillFrame s1 = refillFrame s
    /\ length (handOf s x) <= length (handOf s1 x)
    /\ length (handOf s y) <= length (handOf s1 y)
    /\ length (handOf s1 x) + length (handOf s1 y) + length (deck s1)
       = length (handOf s x) + length (handOf s y) + length (deck s)
    /\ (deck s1 <> [] -> 6 <= length (handOf s1 x) /\ 6 <= length (handOf s1 y))
    /\ (deck s = [] \/ 6 <= length (handOf s y) ->
        length (handOf s1 y) = length (handOf s y))
    /\ trumpPresent s1 <= trumpPresent s
    /\ (deck s1 = [] -> or_null (trumpCard s1) = None).
Proof.
  intros W Hx Hy.
  destruct (Wf_roles _ _ _ W) as (x' & y' & Hx' & Hy' & Hne & Tx & Ty & Hxy).
  assert (x' = x) as -> by congruence. assert (y' = y) as -> by congruence.
  assert (Hxab : x = a \/ x = b) by tauto.
  assert (Hyab : y = a \/ y = b) by tauto.
  pose proof (Wf_hand _ _ _ _ W Hxab) as Ex.
  pose proof (Wf_hand _ _ _ _ W Hyab) as Ey.
  destruct (refillHands_roles s x y _ _ Hx Hy Hne Tx Ty Ex Ey (wf_deck _ _ _ W))
    as (dx & dy & rest & Hret & Hlen & Hdx & Hdy & Hrest & Hsix & Hnx & Hny).
  cbn zeta in Hret.
  set (s2 := set_hands _ (set_deck rest s)) in Hret.
  assert (Hox : handOf s2 x = sortHand (handOf s x ++ dx) (trumpSuit s)).
  { unfold handOf at 1. subst s2. cbn.
    rewrite lookup_insert_ne by done. by rewrite lookup_insert_eq. }
  assert (Hoy : handOf s2 y = sortHand (handOf s y ++ dy) (trumpSuit s)).
  { unfold handOf at 1. subst s2. cbn. by rewrite lookup_insert_eq. }
  assert (W2 : Wf a b s2).
  { apply (Wf_update a b s); auto; try (by apply W).
    - intros p. apply is_Some_insert2; by eexists.
    - intros p Hp.
      assert (p = x \/ p = y) as [->| ->] by (destruct Hxy, Hp; intuition congruence).
      + rewrite Hox. apply Forall_sortHand, Forall_app. split; [apply W|done].
      + rewrite Hoy. apply Forall_sortHand, Forall_app. split; [apply W|done]. }
  assert (Hnum :
    length (handOf s x) <= length (handOf s2 x)
    /\ length (handOf s y) <= length (handOf s2 y)
    /\ length (handOf s2 x) + length (handOf s2 y) + length (deck s2)
       = length (handOf s x) + length (handOf s y) + length (deck s)
    /\ (deck s2 <> [] -> 6 <= length (handOf s2 x) /\ 6 <= length (handOf s2 y))
    /\ (deck s = [] \/ 6 <= length (handOf s y) ->
        length (handOf s2 y) = length (handOf s y))).
  { rewrite Hox, Hoy, !length_sortHand, !length_app.
    replace (deck s2) with rest by done.
    rewrite !length_app in Hsix.
    repeat split; try lia; try (by apply Hsix).
    intros [Hd|Hs].
    - rewrite Hd in Hlen. cbn in Hlen. lia.
    - rewrite (Hny Hs). cbn. lia. }
  destruct Hnum as (N1 & N2 & N3 & N4 & N5).
  destruct (bool_decide (length rest = 0) && bool_decide (or_null (trumpCard s) <> None))
    eqn:Hc.
  - apply andb_prop in Hc as [Hr0%bool_decide_eq_true _].
    exists (set_trumpCard None s2). split; [done|].
    split; [apply (Wf_update a b s2); cbn; auto; try (by apply W2)|].
    { intros p _. apply (wf_cards _ _ _ W2). }
    split; [done|].
    change (handOf (set_trumpCard None s2)) with (handOf s2).
    split_and!; auto; try done.
    unfold trumpPresent at 1. cbn. lia.
  - exists s2. split; [done|]. split; [done|]. split; [done|].
    split_and!; auto; try done.
    intros Hd. replace (deck s2) with rest in Hd by done. subst rest.
    apply andb_false_iff in Hc as [Hc|Hc].
    + by apply bool_decide_eq_false in Hc.
    + apply bool_decide_eq_false in Hc.
      replace (trumpCard s2) with (trumpCard s) by done.
      by destruct (or_null (trumpCard s)); [exfalso; apply Hc|].
Qed.

(** *** The win check *)

Lemma checkWinner_two s a b ha hb :
  players s = [a; b] -> a <> b -> truthy a = true -> truthy b = true ->
  hands s !! a = Some ha -> hands s !! b = Some hb ->
  checkWinner s =
    Returned
      (if bool_decide (length (deck s) = 0) && bool_decide (or_null (trumpCard s) = None)
       then if bool_decide (length ha = 0) && bool_decide (0 < length hb)
            then declare a s
            else if bool_decide (length hb = 0) && bool_decide (0 < length ha)
                 then declare b s
                 else s
       else s).
Proof.
  intros Hp Hne Ta Tb Ea Eb. unfold checkWinner. rewrite Hp.
  destruct (_ && _); [|done]. cbn [forEach].
  assert (Fa : or_null (head (filter (fun p => p <> a) [a; b])) = Some b).
  { rewrite filter_cons_False by (intros ?; done).
    rewrite filter_cons_True by done. cbn [head]. by apply or_null_truthy. }
  assert (Fb : or_null (head (filter (fun p => p <> b) [a; b])) = Some a).
  { rewrite filter_cons_True by done. cbn [head]. by apply or_null_truthy. }
  unfold checkPlayer at 1. rewrite Ea, Hp, Fa, Eb.
  destruct ha as [|c ha], hb as [|d hb]; cbn [length];
    repeat (rewrite bool_decide_eq_true_2 by lia);
    repeat (rewrite bool_decide_eq_false_2 by lia);
    cbn [andb obind]; unfold checkPlayer, declare; cbn; rewrite ?Eb, ?Hp, ?Fb, ?Ea; cbn;
    reflexivity.
Qed.

(** The win check on a match of the right shape in phase [playing]: it
    returns, keeps the shape, and touches winner, phase and text only. *)
Lemma checkWinner_Wf a b s :
  Wf a b s -> phase s = playing ->
  exists s',
    checkWinner s = Returned s' /\ Wf a b s'
    /\ winnerFrame s' = winnerFrame s
    /\ s' =
         (if bool_decide (length (deck s) = 0) && bool_decide (or_null (trumpCard s) = None)
          then if bool_decide (length (handOf s a) = 0) && bool_decide (0 < length (handOf s b))
               then declare a s
               else if bool_decide (length (handOf s b) = 0)
                       && bool_decide (0 < length (handOf s a))
                    then declare b s
                    else s
          else s).
Proof.
  intros W Hph.
  pose proof (Wf_hand a b s a W (or_introl eq_refl)) as Ea.
  pose proof (Wf_hand a b s b W (or_intror eq_refl)) as Eb.
  rewrite (checkWinner_two s a b _ _ (wf_players _ _ _ W) (wf_ne _ _ _ W)
             (wf_a _ _ _ W) (wf_b _ _ _ W) Ea Eb).
  eexists. split; [reflexivity|].
  assert (Hd : forall p, Wf a b (declare p s)).
  { intros p. apply (Wf_update a b s); cbn; auto; try (by apply W); try done.
    intros q _. apply (wf_cards _ _ _ W). }
  repeat (destruct (_ && _)); auto.
Qed.

(** *** Moves that put a card on the table *)

Lemma attack_ok p c s s' :
  attack p c s = Returned (true, s') ->
  exists hand,
    phase s = playing /\ attacker s = Some p /\ hands s !! p = Some hand
    /\ c ∈ hand /\ table s = []
    /\ s' = played (p +:+ " атакует картой " +:+ c) p c hand s.
Proof.
  unfold attack, removeCardFromHand, includes. intros H. split_op H.
  repeat match goal with
         | E : bool_decide _ = false |- _ => apply bool_decide_eq_false in E
         | E : bool_decide _ = true |- _ => apply bool_decide_eq_true in E
         | E : negb _ = false |- _ => apply negb_false_iff in E
         end.
  eexists. split_and!; try done.
  - by apply dec_stable.
  - symmetry. by apply dec_stable.
  - by destruct (table s).
Qed.

Lemma throwIn_ok p c s s' :
  throwIn p c s = Returned (true, s') ->
  exists hand,
    phase s = playing /\ canThrow s = true /\ hands s !! p = Some hand
    /\ c ∈ hand
    /\ s' = played (p +:+ " подкидывает карту " +:+ c) p c hand s.
Proof.
  unfold throwIn, removeCardFromHand, includes. intros H. split_op H.
  repeat match goal with
         | E : bool_decide _ = false |- _ => apply bool_decide_eq_false in E
         | E : bool_decide _ = true |- _ => apply bool_decide_eq_true in E
         | E : negb _ = false |- _ => apply negb_false_iff in E
         end.
  eexists. split_and!; try done.
  by apply dec_stable.
Qed.

Lemma defend_ok p a d s s' :
  defend p a d s = Returned (true, s') ->
  exists hand i found,
    phase s = playing /\ defender s = Some p /\ hands s !! p = Some hand
    /\ d ∈ hand /\ table s !! i = Some found /\ defense_ found = None
    /\ s' = defended p d hand i found s.
Proof.
  unfold defend, removeCardFromHand, includes, findPair. intros H. split_op H.
  repeat match goal with
         | E : bool_decide _ = false |- _ => apply bool_decide_eq_false in E
         | E : bool_decide _ = true |- _ => apply bool_decide_eq_true in E
         | E : negb _ = false |- _ => apply negb_false_iff in E
         | E : list_find _ _ = Some _ |- _ => apply list_find_Some in E as (? & [? ?] & _)
         end.
  do 3 eexists. split_and!; try done.
  - by apply dec_stable.
  - symmetry. by apply dec_stable.
Qed.

Lemma sum_list_with_insert {A} (f : A -> nat) (l : list A) i x y :
  l !! i = Some x ->
  sum_list_with f (<[i := y]> l) + f x = sum_list_with f l + f y.
Proof.
  revert i. induction l as [|z l IH]; intros [|i] E; simplify_eq/=; [lia|].
  specialize (IH _ E). lia.
Qed.

(** A card of a player's hand goes to the table: the invariant and the
    count are kept. *)
Lemma Inv_card_to_table a b s s' p c hand :
  Inv a b s -> p = a \/ p = b ->
  hands s !! p = Some hand -> c ∈ hand ->
  hands s' = <[p := spliceFirst c hand]> (hands s) ->
  players s' = players s -> deck s' = deck s -> trumpCard s' = trumpCard s ->
  attacker s' = attacker s -> defender s' = defender s ->
  phase s' = phase s -> winner s' = winner s ->
  Forall pairOk (table s') -> tableCount s' = S (tableCount s) ->
  Inv a b s' /\ cardCount s' = cardCount s.
Proof.
  intros [W Six Cnt] Hp Eh Hin Hh Hpl Hd Htr Hat Hde Hph Hwi Htb Htc.
  assert (Hother : forall q, q <> p -> handOf s' q = handOf s q).
  { intros q Hq. rewrite (handOf_insert _ _ _ _ q Hh).
    by rewrite decide_False by done. }
  assert (Hself : S (length (handOf s' p)) = length (handOf s p)).
  { rewrite (handOf_insert _ _ _ _ p Hh), decide_True by done.
    rewrite (handOf_Some _ _ _ Eh). by apply length_spliceFirst. }
  assert (Hcards : forall q, Forall cardOk (handOf s' q)).
  { intros q. destruct (decide (q = p)) as [->|Hq].
    - rewrite (handOf_insert _ _ _ _ p Hh), decide_True by done.
      apply Forall_spliceFirst. rewrite <- (handOf_Some _ _ _ Eh). apply W.
    - rewrite Hother by done. apply W. }
  assert (W' : Wf a b s').
  { apply (Wf_update a b s); auto; try congruence.
    - intros q. rewrite Hh. apply is_Some_insert1. by eexists.
    - by rewrite Hd; apply W.
    - rewrite Hph. apply W.
    - rewrite Hph, Hwi. apply W. }
  assert (Hcount : cardCount s' = cardCount s).
  { unfold cardCount, trumpPresent. rewrite Hd, Htr, Htc.
    rewrite (handsTotal_two s' a b) by (rewrite Hpl; apply W).
    rewrite (handsTotal_two s a b) by apply W.
    destruct Hp as [->| ->].
    - rewrite (Hother b) by (intros ->; by apply (wf_ne _ _ _ W)). lia.
    - rewrite (Hother a) by (apply W). lia. }
  split; [|done]. constructor; [done| |lia].
  rewrite Hd, Htc. intros Hne q Hq. specialize (Six Hne q Hq).
  destruct (decide (q = p)) as [->|Hqp]; [lia|]. rewrite Hother by done. lia.
Qed.

Lemma Inv_played a b s text p c hand :
  Inv a b s -> p = a \/ p = b ->
  hands s !! p = Some hand -> c ∈ hand ->
  Inv a b (played text p c hand s)
  /\ cardCount (played text p c hand s) = cardCount s.
Proof.
  intros I Hp Eh Hin.
  apply (Inv_card_to_table a b s _ p c hand); auto.
  - cbn. apply Forall_app. split; [apply I|].
    apply Forall_singleton. split; cbn; [|done].
    pose proof (wf_cards _ _ _ (inv_wf _ _ _ I) p) as Hc.
    rewrite (handOf_Some _ _ _ Eh) in Hc.
    by eapply Forall_forall in Hc.
  - unfold tableCount. cbn. rewrite sum_list_with_app. cbn. lia.
Qed.

Lemma Inv_defended a b s p d hand i found :
  Inv a b s -> p = a \/ p = b ->
  hands s !! p = Some hand -> d ∈ hand ->
  table s !! i = Some found -> defense_ found = None ->
  Inv a b (defended p d hand i found s)
  /\ cardCount (defended p d hand i found s) = cardCount s.
Proof.
  intros I Hp Eh Hin Ei Hnone.
  pose proof (wf_table _ _ _ (inv_wf _ _ _ I)) as Ht.
  apply (Inv_card_to_table a b s _ p d hand); auto.
  - cbn. apply Forall_insert; [done|]. split; cbn.
    + eapply Forall_lookup in Ht; [|exact Ei]. by destruct Ht.
    + intros d' [= <-].
      pose proof (wf_cards _ _ _ (inv_wf _ _ _ I) p) as Hc.
      rewrite (handOf_Some _ _ _ Eh) in Hc.
      by eapply Forall_forall in Hc.
  - unfold tableCount. cbn.
    pose proof (sum_list_with_insert pairCount (table s) i found
                  (mkPair (attack_ found) (Some d)) Ei) as Hs.
    unfold pairCount at 2 4 in Hs. rewrite Hnone in Hs. cbn in Hs. lia.
Qed.

(** *** Pass and take *)

Lemma refillFrame_fields s1 s0 :
  refillFrame s1 = refillFrame s0 ->
  players s1 = players s0 /\ table s1 = table s0
  /\ attacker s1 = attacker s0 /\ defender s1 = defender s0
  /\ phase s1 = phase s0 /\ winner s1 = winner s0.
Proof. unfold refillFrame. intros [= ? ? ? ? ? ? ? ? ? ?]. by split_and!. Qed.

Lemma winnerFrame_fields s' s :
  winnerFrame s' = winnerFrame s ->
  players s' = players s /\ deck s' = deck s /\ table s' = table s
  /\ attacker s' = attacker s /\ defender s' = defender s
  /\ trumpCard s' = trumpCard s
  /\ (forall p, handOf s' p = handOf s p)
  /\ tableCount s' = tableCount s /\ trumpPresent s' = trumpPresent s
  /\ cardCount s' = cardCount s.
Proof.
  unfold winnerFrame. intros [= Hr Hp Hh Hd Htc Hts Ht Ha Hde Hc].
  unfold cardCount, handsTotal, tableCount, trumpPresent, handOf.
  rewrite Hp, Hh, Hd, Htc, Ht. by split_and!.
Qed.

Lemma length_zero_nil (l : list Card) : length l = 0 <-> l = [].
Proof. destruct l; cbn; split; intros; done. Qed.

Lemma checkWinner_decides a b s s' :
  Wf a b s -> phase s = playing ->
  checkWinner s = Returned s' -> winChecked a b s'.
Proof.
  intros W Hph Hc.
  destruct (checkWinner_Wf a b s W Hph) as (s'' & Hc' & _ & Hfr & Hs').
  assert (s'' = s') as -> by congruence. clear Hc Hc'.
  apply winnerFrame_fields in Hfr as (_ & Hd & _ & _ & _ & Htc & Hh & _).
  intros Hd' Htc'. rewrite !Hh.
  rewrite Hd in Hd'. rewrite Htc in Htc'.
  rewrite Hd', Htc' in Hs'. cbn [length or_null] in Hs'.
  rewrite !bool_decide_eq_true_2 in Hs' by done. cbn [andb] in Hs'.
  pose proof (wf_winner _ _ _ W Hph) as Hw.
  destruct (handOf s a) as [|ca ha], (handOf s b) as [|cb hb];
    cbn in Hs'; subst s'; cbn; split_and!; intros; try done.
Qed.

Lemma passTurn_Inv a b s p :
  Inv a b s -> phase s = playing -> attacker s = Some p ->
  allDefended (table s) = true ->
  exists s1 s',
    refillHands (set_canThrow false (set_table [] s)) = Returned s1
    /\ checkWinner (set_lastAction "Бито! Раунд завершён"
                      (set_defender (attacker s1) (set_attacker (defender s1) s1)))
       = Returned s'
    /\ passTurn p s = Returned (true, s')
    /\ Inv a b s'
    /\ cardCount s' + tableCount s + (trumpPresent s - trumpPresent s') = cardCount s
    /\ winChecked a b s'
    /\ attacker s' = defender s /\ defender s' = attacker s.
Proof.
  intros [W Six Cnt] Hph Hat Hall.
  destruct (Wf_roles _ _ _ W) as (x & y & Hx & Hy & Hne & Tx & Ty & Hxy).
  assert (x = p) as -> by congruence.
  set (s0 := set_canThrow false (set_table [] s)).
  assert (W0 : Wf a b s0).
  { apply (Wf_update a b s); auto; try (by apply W); try (by constructor).
    intros q _. apply (wf_cards _ _ _ W). }
  destruct (refillHands_Wf a b s0 p y W0 Hx Hy)
    as (s1 & Hre & W1 & Hfr & Lx & Ly & Lsum & L6 & _ & Ltp & _).
  apply refillFrame_fields in Hfr as (Fp & Ft & Fa & Fd & Fph & Fw).
  unfold s0 in Fp, Ft, Fa, Fd, Fph, Fw. cbn in Fp, Ft, Fa, Fd, Fph, Fw.
  set (s2 := set_lastAction "Бито! Раунд завершён"
               (set_defender (attacker s1) (set_attacker (defender s1) s1))).
  assert (W2 : Wf a b s2).
  { apply (Wf_update a b s1); auto; try (by apply W1).
    intros q _. apply (wf_cards _ _ _ W1). }
  assert (Hph2 : phase s2 = playing) by (cbn; congruence).
  destruct (checkWinner_Wf a b s2 W2 Hph2) as (s' & Hcw & W' & Hfr' & _).
  pose proof (checkWinner_decides a b s2 s' W2 Hph2 Hcw) as Hdec.
  apply winnerFrame_fields in Hfr' as (Gp & Gd & Gt & Ga & Gde & Gtc & Gh & Gtn & Gtp & Gc).
  exists s1, s'. split; [done|]. split; [done|].
  split.
  { unfold passTurn. rewrite Hph, Hat, Hall.
    rewrite !bool_decide_eq_false_2 by (intros ?; done). cbn [negb].
    fold s0. rewrite Hre. cbn [obind]. fold s2. by rewrite Hcw. }
  assert (Ht1 : tableCount s1 = 0) by (unfold tableCount; by rewrite Ft).
  assert (Hc1 : cardCount s1 + tableCount s + (trumpPresent s - trumpPresent s1)
                = cardCount s).
  { unfold cardCount. rewrite Ht1.
    rewrite (handsTotal_two s1 a b) by apply W1.
    rewrite (handsTotal_two s a b) by apply W.
    change (trumpPresent s0) with (trumpPresent s) in Ltp.
    change (handOf s0) with (handOf s) in *.
    change (deck s0) with (deck s) in *.
    destruct Hxy as [[-> ->]|[-> ->]]; lia. }
  unfold s2 in Ga, Gde. cbn in Ga, Gde.
  split; [|split; [|split; [done|split; congruence]]].
  - constructor; [done| |].
    + rewrite Gd. intros Hd q Hq. rewrite Gh.
      change (handOf s2) with (handOf s1).
      destruct (L6 Hd) as [L6x L6y].
      assert (q = p \/ q = y) as [->| ->]
          by (destruct Hxy, Hq; intuition congruence); lia.
    + rewrite Gc. change (cardCount s2) with (cardCount s1). lia.
  - rewrite Gc, Gtp.
    change (cardCount s2) with (cardCount s1).
    change (trumpPresent s2) with (trumpPresent s1). done.
Qed.

Lemma takeCards_Inv a b s p :
  Inv a b s -> phase s = playing -> defender s = Some p -> table s <> [] ->
  exists s',
    takeCards p s = Returned (true, s')
    /\ Inv a b s'
    /\ cardCount s' + (trumpPresent s - trumpPresent s') = cardCount s
    /\ winChecked a b s'
    /\ table s' = [] /\ attacker s' = attacker s /\ defender s' = defender s
    /\ length (handOf s' p) = length (handOf s p) + tableCount s.
Proof.
  intros [W Six Cnt] Hph Hde Htb.
  destruct (Wf_roles _ _ _ W) as (x & y & Hx & Hy & Hne & Tx & Ty & Hxy).
  assert (y = p) as -> by congruence.
  assert (Hpab : p = a \/ p = b) by tauto.
  pose proof (Wf_hand _ _ _ _ W Hpab) as Ep.
  set (s0 := set_canThrow false
               (set_table []
                  (set_hands
                     (<[p := sortHand (handOf s p ++ tableCards s) (trumpSuit s)]>
                        (hands s)) s))).
  assert (Hself : handOf s0 p = sortHand (handOf s p ++ tableCards s) (trumpSuit s)).
  { unfold handOf at 1, s0. cbn. by rewrite lookup_insert_eq. }
  assert (Hother : handOf s0 x = handOf s x).
  { unfold handOf, s0. cbn. by rewrite lookup_insert_ne. }
  assert (W0 : Wf a b s0).
  { apply (Wf_update a b s); auto; try (by apply W); try (by constructor).
    - intros q. unfold s0. cbn. apply is_Some_insert1. by eexists.
    - intros q Hq.
      assert (q = x \/ q = p) as [->| ->] by (destruct Hxy, Hq; intuition congruence).
      + rewrite Hother. apply W.
      + rewrite Hself. apply Forall_sortHand, Forall_app.
        split; [apply W|apply Forall_tableCards]. }
  assert (Hlen0 : length (handOf s0 p) = length (handOf s p) + tableCount s).
  { rewrite Hself, length_sortHand, length_app, length_tableCards; [done|apply W]. }
  destruct (refillHands_Wf a b s0 x p W0 Hx Hy)
    as (s1 & Hre & W1 & Hfr & Lx & Ly & Lsum & L6 & Lkeep & Ltp & _).
  apply refillFrame_fields in Hfr as (Fp & Ft & Fa & Fd & Fph & Fw).
  unfold s0 in Fp, Ft, Fa, Fd, Fph, Fw. cbn in Fp, Ft, Fa, Fd, Fph, Fw.
  set (s2 := set_lastAction (p +:+ " взял карты") s1).
  assert (W2 : Wf a b s2).
  { apply (Wf_update a b s1); auto; try (by apply W1).
    intros q _. apply (wf_cards _ _ _ W1). }
  assert (Hph2 : phase s2 = playing) by (cbn; congruence).
  destruct (checkWinner_Wf a b s2 W2 Hph2) as (s' & Hcw & W' & Hfr' & _).
  pose proof (checkWinner_decides a b s2 s' W2 Hph2 Hcw) as Hdec.
  apply winnerFrame_fields in Hfr' as (Gp & Gd & Gt & Ga & Gde & Gtc & Gh & Gtn & Gtp & Gc).
  exists s'. split.
  { unfold takeCards. rewrite Hph, Hde.
    rewrite !bool_decide_eq_false_2 by (intros ?; done).
    assert (Hlt : length (table s) <> 0) by (by destruct (table s)).
    rewrite (bool_decide_eq_false_2 _ Hlt).
    rewrite (or_null_truthy _ Ty), Ep. cbn [obind].
    fold s0. rewrite Hre. cbn [obind]. fold s2. by rewrite Hcw. }
  change (trumpPresent s0) with (trumpPresent s) in Ltp.
  change (deck s0) with (deck s) in *.
  change (cardCount s2) with (cardCount s1) in Gc.
  change (trumpPresent s2) with (trumpPresent s1) in Gtp.
  change (handOf s2) with (handOf s1) in Gh.
  change (deck s2) with (deck s1) in Gd.
  unfold s2 in Ga, Gde, Gt. cbn in Ga, Gde, Gt.
  assert (Ht1 : tableCount s1 = 0) by (unfold tableCount; by rewrite Ft).
  assert (Hkeep : length (handOf s1 p) = length (handOf s p) + tableCount s).
  { rewrite Lkeep; [done|].
    destruct (deck s) as [|c d] eqn:Ed; [by left|right].
    rewrite Hlen0. apply Six; [done|tauto]. }
  assert (Hc1 : cardCount s1 + (trumpPresent s - trumpPresent s1) = cardCount s).
  { unfold cardCount. rewrite Ht1. rewrite Hother, Hlen0 in Lsum.
    rewrite (handsTotal_two s1 a b) by apply W1.
    rewrite (handsTotal_two s a b) by apply W.
    destruct Hxy as [[-> ->]|[-> ->]]; lia. }
  split_and!; try done.
  - constructor; [done| |lia].
    rewrite Gd. intros Hd q Hq. rewrite Gh.
    destruct (L6 Hd) as [L6x L6y].
    assert (q = x \/ q = p) as [->| ->]
        by (destruct Hxy, Hq; intuition congruence); lia.
  - lia.
  - congruence.
  - congruence.
  - congruence.
  - by rewrite Gh.
Qed.

(** *** The deal *)

Lemma forEach_app {A} (f : A -> t -> outcome t) l1 l2 s :
  forEach f (l1 ++ l2) s = obind (forEach f l1 s) (forEach f l2).
Proof.
  revert s. induction l1 as [|x l1 IH]; intros s; cbn; [done|].
  destruct (f x s); cbn; auto.
Qed.

Lemma dealTo_spec a b s p :
  Dealing a b s -> p = a \/ p = b -> 0 < length (deck s) ->
  exists s',
    dealTo p s = Returned s' /\ Dealing a b s'
    /\ dealFrame s' = dealFrame s
    /\ S (length (deck s')) = length (deck s)
    /\ length (handOf s' p) = S (length (handOf s p))
    /\ (forall q, q <> p -> handOf s' q = handOf s q).
Proof.
  intros [Hne Ha Hb Hdom Hdeck Hcards] Hp Hlen.
  destruct (nonempty_snoc _ Hlen) as (d & c & Ed).
  assert (Hh : hands s !! p = Some (handOf s p)).
  { destruct Hp as [->| ->]; [destruct Ha as [h E]|destruct Hb as [h E]];
      by rewrite (handOf_Some _ _ _ E). }
  rewrite Ed in Hdeck. apply Forall_app in Hdeck as [Hd Hc].
  apply (proj1 (Forall_singleton _ _)) in Hc.
  unfold dealTo. rewrite Ed, pop_snoc. cbn.
  unfold cardOk in Hc. rewrite Hc, Hh.
  eexists. split; [reflexivity|].
  assert (Hs : forall q, handOf (set_hands (<[p:=handOf s p ++ [c]]> (hands s))
                                   (set_deck d s)) q
                         = if decide (p = q) then handOf s p ++ [c] else handOf s q).
  { intros q. by apply handOf_insert. }
  split_and!.
  - constructor; cbn; auto.
    + apply is_Some_insert1; [by eexists|done].
    + apply is_Some_insert1; [by eexists|done].
    + intros q Hq. apply Hdom. revert Hq. apply is_Some_insert1. by eexists.
    + intros q. rewrite Hs. case_decide; [|done].
      apply Forall_app. split; [done|]. by apply Forall_singleton.
  - done.
  - cbn. rewrite length_app. cbn. lia.
  - rewrite Hs, decide_True by done. rewrite length_app. cbn. lia.
  - intros q Hq. rewrite Hs. by rewrite decide_False by done.
Qed.

Lemma deal_rounds a b n : forall s,
  Dealing a b s -> 2 * n <= length (deck s) ->
  exists s',
    forEach dealTo (concat (replicate n [a; b])) s = Returned s'
    /\ Dealing a b s' /\ dealFrame s' = dealFrame s
    /\ length (deck s') + 2 * n = length (deck s)
    /\ length (handOf s' a) = length (handOf s a) + n
    /\ length (handOf s' b) = length (handOf s b) + n.
Proof.
  induction n as [|n IH]; intros s D Hlen.
  - exists s. cbn. split_and!; auto; lia.
  - cbn [replicate concat app forEach].
    destruct (dealTo_spec a b s a D (or_introl eq_refl) ltac:(lia))
      as (s1 & -> & D1 & F1 & L1 & Ha1 & Ho1).
    cbn [obind].
    destruct (dealTo_spec a b s1 b D1 (or_intror eq_refl) ltac:(lia))
      as (s2 & -> & D2 & F2 & L2 & Hb2 & Ho2).
    cbn [obind].
    destruct (IH s2 D2 ltac:(lia)) as (s' & -> & D' & F' & L' & Ha' & Hb').
    exists s'. split; [done|]. split; [done|].
    pose proof (dl_ne _ _ _ D) as Hne.
    rewrite (Ho2 a) in Ha' by done.
    rewrite (Ho1 b) in Hb2 by (intros ->; done).
    split_and!; try lia. congruence.
Qed.

Lemma scanCard_owner trump p acc hand :
  snd (fold_left (scanCard trump p) hand acc) = snd acc
  \/ snd (fold_left (scanCard trump p) hand acc) = Some p.
Proof.
  revert acc. induction hand as [|c hand IH]; intros acc; cbn [fold_left]; [by left|].
  destruct (IH (scanCard trump p acc c)) as [E|E]; [|by right].
  rewrite E. unfold scanCard. repeat case_match; cbn; auto.
Qed.

Lemma determineFirstAttacker_spec rnd a b s :
  players s = [a; b] -> is_Some (hands s !! a) -> is_Some (hands s !! b) ->
  truthy a = true -> truthy b = true ->
  exists x, (x = a \/ x = b)
            /\ determineFirstAttacker rnd s = Returned (set_attacker (Some x) s).
Proof.
  intros Hp [ha Ea] [hb Eb] Ta Tb. unfold determineFirstAttacker.
  rewrite Hp. cbn [scanPlayers]. rewrite Ea, Eb. cbn [obind].
  set (acc1 := fold_left (scanCard (trumpSuit s) a) ha (None, None)).
  set (acc2 := fold_left (scanCard (trumpSuit s) b) hb acc1).
  assert (Hown : snd acc2 = None \/ snd acc2 = Some a \/ snd acc2 = Some b).
  { destruct (scanCard_owner (trumpSuit s) b acc1 hb) as [E|E]; fold acc2 in E;
      [|tauto].
    destruct (scanCard_owner (trumpSuit s) a (None, None) ha) as [E'|E'];
      fold acc1 in E'; rewrite E, E'; tauto. }
  destruct Hown as [E|[E|E]]; rewrite E.
  - cbn [or_null].
    destruct (Nat.mod_bound_pos (rnd 35) 2 ltac:(lia) ltac:(lia)) as [_ Hlt].
    destruct (rnd 35 mod 2) as [|[|n]] eqn:Em; [| |lia].
    + exists a. split; [tauto|done].
    + exists b. split; [tauto|done].
  - rewrite (or_null_truthy _ Ta). exists a. split; [tauto|done].
  - rewrite (or_null_truthy _ Tb). exists b. split; [tauto|done].
Qed.

Lemma dealFrame_fields s' s :
  dealFrame s' = dealFrame s ->
  players s' = players s /\ table s' = table s /\ winner s' = winner s
  /\ trumpCard s' = trumpCard s.
Proof. unfold dealFrame. intros [= ? ? ? ? ? ? ? ? ? ? ?]. by split_and!. Qed.

Lemma sortHands_two a b s ha hb :
  a <> b -> hands s !! a = Some ha -> hands s !! b = Some hb ->
  forEach sortHandOf [a; b] s =
    Returned (set_hands (<[b := sortHand hb (trumpSuit s)]>
                           (<[a := sortHand ha (trumpSuit s)]> (hands s))) s).
Proof.
  intros Hne Ea Eb. cbn [forEach]. unfold sortHandOf at 1. rewrite Ea. cbn [obind].
  unfold sortHandOf. cbn. rewrite lookup_insert_ne by done. by rewrite Eb.
Qed.

(** The deal: on a fresh session that two players have joined,
    [startGame] returns a match that satisfies the invariant with all 36
    cards in play. *)
Lemma startGame_Inv rnd a b s :
  players s = [a; b] -> truthy a = true -> truthy b = true ->
  Dealing a b s -> handOf s a = [] -> handOf s b = [] ->
  table s = [] -> winner s = None ->
  exists s',
    startGame rnd s = Returned s' /\ Inv a b s' /\ cardCount s' = 36
    /\ phase s' = playing.
Proof.
  intros Hp Ta Tb D Ha0 Hb0 Ht Hw. unfold startGame.
  set (sa := set_deck (shuffleDeck rnd generateDeck) s).
  assert (Hlen : length (deck sa) = 36).
  { change (deck sa) with (shuffleDeck rnd generateDeck).
    by rewrite shuffleDeck_Permutation. }
  assert (Da : Dealing a b sa).
  { destruct D. constructor; auto.
    change (deck sa) with (shuffleDeck rnd generateDeck).
    rewrite shuffleDeck_Permutation. apply generateDeck_truthy. }
  replace (players sa) with [a; b] by done.
  destruct (deal_rounds a b 6 sa Da ltac:(lia))
    as (s1 & -> & D1 & F1 & L1 & Ha1 & Hb1).
  cbn [obind].
  apply dealFrame_fields in F1 as (Fp & Ft & Fw & Ftc).
  unfold sa in Fp, Ft, Fw, Ftc. cbn in Fp, Ft, Fw, Ftc.
  change (handOf sa) with (handOf s) in *. rewrite Ha0 in Ha1. rewrite Hb0 in Hb1.
  cbn in Ha1, Hb1.
  rewrite Hlen in L1.
  destruct (deck s1) as [|c rest] eqn:Ed; cbn [length] in L1; [lia|]. cbn [shift].
  pose proof (dl_deck _ _ _ D1) as Hdk. rewrite Ed in Hdk.
  apply Forall_cons in Hdk as [Hc Hrest].
  cbn [or_null]. unfold cardOk in Hc. rewrite Hc. cbn [trumpCard set_trumpCard].
  set (s3 := set_trumpSuit _ _).
  pose proof (dl_hand_a _ _ _ D1) as Eha. pose proof (dl_hand_b _ _ _ D1) as Ehb.
  destruct (determineFirstAttacker_spec rnd a b s3) as (x & Hx & ->); auto.
  { unfold s3. cbn. congruence. }
  cbn [obind].
  set (y := or_null (head (filter (fun p => Some p <> attacker (set_attacker (Some x) s3))
                                  (players (set_attacker (Some x) s3))))).
  assert (Hy : (x = a /\ y = Some b) \/ (x = b /\ y = Some a)).
  { unfold y, s3. cbn. rewrite Fp, Hp. pose proof (dl_ne _ _ _ D) as Hne.
    destruct Hx as [->| ->].
    - left. split; [done|].
      rewrite filter_cons_False by (intros ?; done).
      rewrite filter_cons_True by congruence. by apply or_null_truthy.
    - right. split; [done|].
      rewrite filter_cons_True by congruence. by apply or_null_truthy. }
  clearbody y.
  set (s5 := set_defender y _).
  replace (players s5) with [a; b] by (unfold s5, s3; cbn; congruence).
  destruct Eha as [ha Eha], Ehb as [hb Ehb].
  rewrite (sortHands_two a b s5 ha hb (dl_ne _ _ _ D)) by done.
  cbn [obind]. eexists. split; [reflexivity|].
  set (s' := set_lastAction _ _).
  assert (Hsa : handOf s' a = sortHand ha (trumpSuit s5)).
  { unfold handOf, s'. cbn.
    rewrite lookup_insert_ne by (intros ->; by apply (dl_ne _ _ _ D)).
    by rewrite lookup_insert_eq. }
  assert (Hsb : handOf s' b = sortHand hb (trumpSuit s5)).
  { unfold handOf, s'. cbn. by rewrite lookup_insert_eq. }
  rewrite (handOf_Some _ _ _ Eha) in Ha1. rewrite (handOf_Some _ _ _ Ehb) in Hb1.
  assert (Hcnt : cardCount s' = 36).
  { unfold cardCount. rewrite (handsTotal_two s' a b) by (cbn; congruence).
    rewrite Hsa, Hsb, !length_sortHand.
    unfold tableCount, trumpPresent. cbn. rewrite Ft, Ht. cbn. lia. }
  split_and!; [|done|done].
  constructor; [|intros _ q Hq|lia].
  - constructor; cbn; auto; try (apply D); try congruence.
    + destruct Hy as [[-> ->]|[-> ->]]; tauto.
    + apply is_Some_insert2; by eexists.
    + apply is_Some_insert2; by eexists.
    + intros q Hq. apply (dl_dom _ _ _ D1). revert Hq.
      apply is_Some_insert2; by eexists.
    + intros q. destruct (decide (q = b)) as [->|Hqb]; [|destruct (decide (q = a)) as [->|Hqa]].
      * fold s'. rewrite Hsb. apply Forall_sortHand.
        rewrite <- (handOf_Some _ _ _ Ehb). apply D1.
      * fold s'. rewrite Hsa. apply Forall_sortHand.
        rewrite <- (handOf_Some _ _ _ Eha). apply D1.
      * unfold handOf. cbn. rewrite !lookup_insert_ne by done. apply D1.
    + rewrite Ft, Ht. constructor.
  - unfold tableCount. replace (table s') with (table s1) by done.
    rewrite Ft, Ht. cbn.
    destruct Hq as [->| ->]; rewrite ?Hsa, ?Hsb, length_sortHand; lia.
Qed.

Lemma addPlayer_first rnd a roomId :
  addPlayer rnd a (new roomId) =
    Returned (true, set_hands (<[a := []]> ∅) (set_players [a] (new roomId))).
Proof.
  unfold addPlayer. cbn.
  rewrite bool_decide_eq_false_2 by lia.
  rewrite bool_decide_eq_false_2 by apply not_elem_of_nil.
  by rewrite bool_decide_eq_false_2 by lia.
Qed.

Lemma deal_Inv roomId a b rndA rndB sA sB :
  truthy a = true -> truthy b = true ->
  addPlayer rndA a (new roomId) = Returned (true, sA) ->
  addPlayer rndB b sA = Returned (true, sB) ->
  Inv a b sB /\ cardCount sB = 36 /\ phase sB = playing.
Proof.
  intros Ta Tb HA HB.
  rewrite addPlayer_first in HA. injection HA as <-.
  unfold addPlayer in HB. cbn in HB.
  rewrite bool_decide_eq_false_2 in HB by lia.
  case_bool_decide as Hin; [done|].
  assert (Hne : a <> b).
  { intros E. apply Hin. rewrite E. by apply list_elem_of_singleton. }
  rewrite bool_decide_eq_true_2 in HB by done.
  set (s := set_hands _ _) in HB.
  destruct (startGame_Inv rndB a b s) as (s' & Hs & I & Hc & Hph); auto.
  - constructor; auto; unfold s; cbn.
    + rewrite lookup_insert_ne by done. rewrite lookup_insert_eq. by eexists.
    + rewrite lookup_insert_eq. by eexists.
    + intros p. rewrite !lookup_insert_is_Some', lookup_empty.
      intros [<-|[<-|[? ?]]]; auto; done.
    + intros p. unfold handOf. cbn.
      destruct (decide (b = p)) as [->|?];
        [by rewrite lookup_insert_eq|rewrite lookup_insert_ne by done].
      destruct (decide (a = p)) as [->|?];
        [by rewrite lookup_insert_eq|rewrite lookup_insert_ne by done].
      by rewrite lookup_empty.
  - unfold handOf, s. cbn. rewrite lookup_insert_ne by done.
    by rewrite lookup_insert_eq.
  - unfold handOf, s. cbn. by rewrite lookup_insert_eq.
  - rewrite Hs in HB. cbn in HB. by simplify_eq.
Qed.

Lemma passTurn_guards p s s' :
  passTurn p s = Returned (true, s') ->
  phase s = playing /\ attacker s = Some p /\ allDefended (table s) = true.
Proof.
  unfold passTurn. intros H.
  destruct (decide (phase s = playing)) as [Hph|Hn];
    [|by rewrite (bool_decide_eq_true_2 _ Hn) in H].
  rewrite bool_decide_eq_false_2 in H by (intros ?; done).
  destruct (decide (Some p = attacker s)) as [Hat|Hn];
    [|by rewrite (bool_decide_eq_true_2 _ Hn) in H].
  rewrite bool_decide_eq_false_2 in H by (intros ?; done).
  destruct (allDefended (table s)); cbn [negb] in H; [done|discriminate H].
Qed.

Lemma takeCards_guards p s s' :
  takeCards p s = Returned (true, s') ->
  phase s = playing /\ defender s = Some p /\ table s <> [].
Proof.
  unfold takeCards. intros H.
  destruct (decide (phase s = playing)) as [Hph|Hn];
    [|by rewrite (bool_decide_eq_true_2 _ Hn) in H].
  rewrite bool_decide_eq_false_2 in H by (intros ?; done).
  destruct (decide (Some p = defender s)) as [Hd|Hn];
    [|by rewrite (bool_decide_eq_true_2 _ Hn) in H].
  rewrite bool_decide_eq_false_2 in H by (intros ?; done).
  split_and!; [done|done|].
  intros E. rewrite E in H. by rewrite bool_decide_eq_true_2 in H.
Qed.

(** Every successful move keeps the invariant, and the count drops by
    the table of a pass and by the trump indicator when it goes. *)
Lemma move_Inv a b s m s' :
  Inv a b s -> move m s = Returned (true, s') ->
  Inv a b s'
  /\ cardCount s' + (match m with PassTurn _ => tableCount s | _ => 0 end
                     + (trumpPresent s - trumpPresent s')) = cardCount s.
Proof.
  intros I H. pose proof (inv_wf _ _ _ I) as W.
  destruct m as [p c|p atk d|p c|p|p]; cbn [move] in H.
  - apply attack_ok in H as (hand & _ & Hat & Eh & Hin & _ & ->).
    assert (Hp : p = a \/ p = b)
      by (destruct (wf_roles _ _ _ W) as [[? ?]|[? ?]]; [left|right]; congruence).
    destruct (Inv_played a b s (p +:+ " атакует картой " +:+ c) p c hand I Hp Eh Hin)
      as [I' Hc].
    split; [done|]. rewrite Hc. unfold trumpPresent. cbn. lia.
  - apply defend_ok in H as (hand & i & found & _ & Hde & Eh & Hin & Ei & Hn & ->).
    assert (Hp : p = a \/ p = b)
      by (destruct (wf_roles _ _ _ W) as [[? ?]|[? ?]]; [right|left]; congruence).
    destruct (Inv_defended a b s p d hand i found I Hp Eh Hin Ei Hn) as [I' Hc].
    split; [done|]. rewrite Hc. unfold trumpPresent. cbn. lia.
  - apply throwIn_ok in H as (hand & _ & _ & Eh & Hin & ->).
    assert (Hp : p = a \/ p = b) by (apply (wf_dom _ _ _ W); by eexists).
    destruct (Inv_played a b s (p +:+ " подкидывает карту " +:+ c) p c hand I Hp Eh Hin)
      as [I' Hc].
    split; [done|]. rewrite Hc. unfold trumpPresent. cbn. lia.
  - pose proof (passTurn_guards _ _ _ H) as (Hph & Hat & Hall).
    destruct (passTurn_Inv a b s p I Hph Hat Hall)
      as (s1 & s'' & _ & _ & Hpass & I' & Hc & _).
    assert (s'' = s') as -> by congruence. split; [done|lia].
  - pose proof (takeCards_guards _ _ _ H) as (Hph & Hde & Htb).
    destruct (takeCards_Inv a b s p I Hph Hde Htb) as (s'' & Htake & I' & Hc & _).
    assert (s'' = s') as -> by congruence. split; [done|lia].
Qed.

(** Every match reached from a deal satisfies the invariant. *)
Lemma reachable_Inv s : reachable s -> exists a b, Inv a b s.
Proof.
  induction 1 as [roomId a b rndA rndB sA sB Ta Tb HA HB|s m r s' _ (a & b & I) Hm].
  - exists a, b.
    by destruct (deal_Inv roomId a b rndA rndB sA sB Ta Tb HA HB) as (I & _).
  - exists a, b. destruct r.
    + by eapply move_Inv.
    + by rewrite (move_rejected_unchanged _ _ _ Hm).
Qed.

End Invariant.

(** ** The match state machine: a sample match *)

Section SampleMatch.

Lemma reachable_run ms : forall s s',
  reachable s -> runMoves ms s = Returned s' -> reachable s'.
Proof.
  induction ms as [|m ms IH]; intros s s' R H; cbn in H.
  - by simplify_eq.
  - destruct (move m s) as [[r s1]| |] eqn:E; cbn in H; try done.
    eapply IH; [|exact H]. by eapply reach_move.
Qed.

Lemma sampleDeal_reachable : reachable sampleDeal.
Proof.
  apply (reach_deal "ROOM01" "alice" "bob" sampleRnd sampleRnd sampleLobby sampleDeal);
    vm_compute; reflexivity.
Qed.

Lemma sampleAfter_reachable n : reachable (sampleAfter n).
Proof.
  unfold sampleAfter.
  destruct (runMoves (take n sampleMoves) sampleDeal) as [s| |] eqn:E;
    try apply sampleDeal_reachable.
  eapply reachable_run; [apply sampleDeal_reachable|exact E].
Qed.

Example sampleDeal_count : cardCount sampleDeal = 36.
Proof. vm_compute. reflexivity. Qed.

Example sample_end :
  let s := sampleAfter 69 in
  phase s = finished /\ winner s = Some "alice"
  /\ handOf s "alice" = [] /\ handOf s "bob" = ["9h"] /\ deck s = [].
Proof. vm_compute. repeat split; reflexivity. Qed.

End SampleMatch.

(** ** The match state machine: the specified properties *)

Section SessionClaims.

(** Right after the deal all 36 cards are in play. *)
Lemma card_count_after_deal roomId a b rndA rndB sA sB :
  truthy a = true -> truthy b = true ->
  addPlayer rndA a (new roomId) = Returned (true, sA) ->
  addPlayer rndB b sA = Returned (true, sB) ->
  cardCount sB = 36.
Proof.
  intros Ta Tb HA HB.
  by destruct (deal_Inv roomId a b rndA rndB sA sB Ta Tb HA HB) as (_ & Hc & _).
Qed.

(** C1, as the specification states it, fails: the pass that ends the
    first defended round of the sample match discards the two cards on
    the table, and 34 cards remain in play. *)
Lemma card_count_not_conserved :
  ~ (forall s m s',
        reachable s -> phase s = playing ->
        move m s = Returned (true, s') -> cardCount s' = 36).
Proof.
  intros H.
  specialize (H (sampleAfter 4) (PassTurn "alice") (sampleAfter 5)
                (sampleAfter_reachable 4)).
  assert (E : cardCount (sampleAfter 5) = 34) by (vm_compute; reflexivity).
  rewrite H in E; [discriminate| |]; vm_compute; reflexivity.
Qed.

(** [throwIn] reads the caller's hand before any check of the caller:
    without a hand, in phase [playing] with throw-ins allowed, it
    throws. *)
Lemma throwIn_without_hand_raises p c s :
  phase s = playing -> canThrow s = true -> hands s !! p = None ->
  throwIn p c s = Raised.
Proof.
  intros Hph Hct Hh. unfold throwIn. rewrite Hph, Hct, Hh.
  by rewrite bool_decide_eq_false_2 by (intros ?; done).
Qed.

(** C3, at the failing input. After the fourth move of the sample match
    the table is fully defended, so throw-ins are allowed; a [throwIn]
    in the name of "mallory", who is not a player of the match, throws
    instead of answering [false]. *)
Theorem throwIn_by_stranger_raises :
  reachable (sampleAfter 4)
  /\ phase (sampleAfter 4) = playing
  /\ canThrow (sampleAfter 4) = true
  /\ players (sampleAfter 4) = ["alice"; "bob"]
  /\ throwIn "mallory" "Qd" (sampleAfter 4) = Raised.
Proof.
  split; [apply sampleAfter_reachable|].
  vm_compute. repeat split; reflexivity.
Qed.

(** What does hold of C3: a move that answers [false] has changed
    nothing, and in a match reached from a deal no move made in the name
    of one of its two players throws. *)
Lemma move_by_player_returns s m :
  reachable s ->
  (forall p c, m = ThrowIn p c -> p ∈ players s) ->
  exists r s', move m s = Returned (r, s') /\ (r = false -> s' = s).
Proof.
  intros R Hp. destruct (reachable_Inv s R) as (a & b & I).
  pose proof (inv_wf _ _ _ I) as W.
  assert (Hret : exists r s', move m s = Returned (r, s')).
  { destruct (Wf_roles _ _ _ W) as (x & y & Hx & Hy & Hne & Tx & Ty & Hxy).
    assert (Hhx : hands s !! x = Some (handOf s x)) by (apply (Wf_hand a b); tauto).
    assert (Hhy : hands s !! y = Some (handOf s y)) by (apply (Wf_hand a b); tauto).
    destruct m as [p c|p atk d|p c|p|p]; cbn [move].
    - unfold attack, removeCardFromHand.
      repeat (case_bool_decide; [by eauto|]).
      assert (p = x) as -> by congruence.
      rewrite Hhx. destruct (includes _ _); cbn; [|by eauto].
      case_bool_decide; [|by eauto]. cbn. by eauto.
    - unfold defend, removeCardFromHand.
      repeat (case_bool_decide; [by eauto|]).
      assert (p = y) as -> by congruence.
      rewrite Hhy. destruct (includes _ _); cbn; [|by eauto].
      destruct (or_null (trumpSuit s)); [|by eauto].
      destruct (findPair atk (table s)) as [[i found]|]; [|by eauto].
      destruct (canBeat _ _ _); cbn; [|by eauto]. by eauto.
    - unfold throwIn, removeCardFromHand, defenderHandSize.
      case_bool_decide; [by eauto|].
      destruct (canThrow s); cbn; [|by eauto].
      assert (Hpab : p = a \/ p = b).
      { specialize (Hp p c eq_refl). rewrite (wf_players _ _ _ W) in Hp.
        apply elem_of_cons in Hp as [->|Hp]; [by left|].
        apply list_elem_of_singleton in Hp as ->. by right. }
      rewrite (Wf_hand a b s p W Hpab).
      destruct (includes _ _); cbn; [|by eauto].
      destruct (canThrowIn _ _); cbn; [|by eauto].
      rewrite Hy, (or_null_truthy _ Ty), Hhy. cbn.
      case_bool_decide; [by eauto|]. cbn. by eauto.
    - destruct (decide (phase s = playing)) as [Hph|Hn].
      2: { unfold passTurn. rewrite (bool_decide_eq_true_2 _ Hn). by eauto. }
      destruct (decide (Some p = attacker s)) as [Hat|Hn].
      2: { unfold passTurn. rewrite bool_decide_eq_false_2 by (intros ?; done).
           rewrite (bool_decide_eq_true_2 _ Hn). by eauto. }
      destruct (allDefended (table s)) eqn:Hall.
      + destruct (passTurn_Inv a b s p I Hph (eq_sym Hat) Hall)
          as (s1 & s' & _ & _ & Hpass & _).
        rewrite Hpass. by eauto.
      + unfold passTurn. rewrite Hall.
        rewrite !bool_decide_eq_false_2 by (intros ?; done). cbn. by eauto.
    - destruct (decide (phase s = playing)) as [Hph|Hn].
      2: { unfold takeCards. rewrite (bool_decide_eq_true_2 _ Hn). by eauto. }
      destruct (decide (Some p = defender s)) as [Hde|Hn].
      2: { unfold takeCards. rewrite bool_decide_eq_false_2 by (intros ?; done).
           rewrite (bool_decide_eq_true_2 _ Hn). by eauto. }
      destruct (decide (table s = [])) as [Ht|Ht].
      + unfold takeCards. rewrite Ht. cbn [length].
        rewrite !bool_decide_eq_false_2 by (intros ?; done).
        rewrite bool_decide_eq_true_2 by done. by eauto.
      + destruct (takeCards_Inv a b s p I Hph (eq_sym Hde) Ht) as (s' & Htake & _).
        rewrite Htake. by eauto. }
  destruct Hret as (r & s' & E). exists r, s'. split; [done|].
  intros ->. by apply (move_rejected_unchanged m).
Qed.

(** A successful pass or take ends with the win check, run on a state
    that has the players, the phase and the winner of the state before
    the move. *)
Lemma round_end_win_check m s s' :
  (exists p, m = PassTurn p \/ m = TakeCards p) ->
  move m s = Returned (true, s') ->
  exists s2,
    checkWinner s2 = Returned s'
    /\ players s2 = players s /\ phase s2 = playing /\ winner s2 = winner s.
Proof.
  intros (p & [-> | ->]) H; cbn [move] in H.
  - pose proof (passTurn_guards _ _ _ H) as (Hph & Hat & Hall).
    unfold passTurn in H. rewrite Hph, Hat, Hall in H.
    rewrite !bool_decide_eq_false_2 in H by (intros ?; done). cbn [negb] in H.
    destruct (refillHands _) as [s1| |] eqn:Hr; cbn [obind] in H; try done.
    destruct (checkWinner _) as [s2| |] eqn:Hw; cbn [obind] in H; try done.
    simplify_eq. eexists. split; [exact Hw|].
    apply refillHands_frame, refillFrame_fields in Hr as (Fp & _ & _ & _ & Fph & Fw).
    cbn in *. split_and!; congruence.
  - pose proof (takeCards_guards _ _ _ H) as (Hph & Hde & Htb).
    unfold takeCards in H. rewrite Hph, Hde in H.
    rewrite !bool_decide_eq_false_2 in H by (intros ?; done).
    assert (Hlt : length (table s) <> 0) by (by destruct (table s)).
    rewrite (bool_decide_eq_false_2 _ Hlt) in H.
    destruct (match or_null (Some p) with Some _ => _ | None => _ end)
      as [s0| |] eqn:E0; cbn [obind] in H; try done.
    assert (F0 : players s0 = players s /\ phase s0 = phase s /\ winner s0 = winner s).
    { destruct (or_null (Some p)); [|by simplify_eq].
      destruct (hands s !! _); [|done]. by simplify_eq. }
    destruct F0 as (F0p & F0ph & F0w).
    destruct (refillHands _) as [s1| |] eqn:Hr; cbn [obind] in H; try done.
    destruct (checkWinner _) as [s2| |] eqn:Hw; cbn [obind] in H; try done.
    simplify_eq. eexists. split; [exact Hw|].
    apply refillHands_frame, refillFrame_fields in Hr as (Fp & _ & _ & _ & Fph & Fw).
    cbn in *. split_and!; congruence.
Qed.

(** The win check that has returned with the deck empty and no trump
    indicator left, in a session of the two players [a] and [b]: a
    player with an empty hand facing a non-empty hand is the winner and
    the match is finished; with both hands empty winner and phase are as
    they were. *)
Lemma checkWinner_outcome a b s s' :
  players s = [a; b] -> a <> b -> truthy a = true -> truthy b = true ->
  checkWinner s = Returned s' ->
  deck s' = [] -> trumpCard s' = None ->
  (handOf s' a = [] -> handOf s' b <> [] -> winner s' = Some a /\ phase s' = finished)
  /\ (handOf s' b = [] -> handOf s' a <> [] -> winner s' = Some b /\ phase s' = finished)
  /\ (handOf s' a = [] -> handOf s' b = [] -> winner s' = winner s /\ phase s' = phase s).
Proof.
  intros Hp Hne Ta Tb H Hd Htc.
  pose proof (checkWinner_frame _ _ H) as Hfr.
  apply winnerFrame_fields in Hfr as (_ & Gd & _ & _ & _ & Gtc & Gh & _).
  rewrite Gd in Hd. rewrite Gtc in Htc. rewrite !Gh.
  assert (Fa : or_null (head (filter (fun p => p <> a) [a; b])) = Some b).
  { rewrite filter_cons_False by (intros ?; done).
    rewrite filter_cons_True by done. cbn [head]. by apply or_null_truthy. }
  assert (Hh : exists ha hb, hands s !! a = Some ha /\ hands s !! b = Some hb).
  { unfold checkWinner in H. rewrite Hd, Htc, Hp in H. cbn [length or_null] in H.
    rewrite !bool_decide_eq_true_2 in H by done. cbn [andb forEach] in H.
    destruct (hands s !! a) as [ha|] eqn:Ea;
      [|unfold checkPlayer in H; by rewrite Ea in H].
    destruct (hands s !! b) as [hb|] eqn:Eb; [by eauto|]. exfalso.
    unfold checkPlayer at 1 in H. rewrite Ea, Hp, Fa, Eb in H.
    destruct (bool_decide (length ha = 0)); [done|]. cbn [obind] in H.
    unfold checkPlayer in H. by rewrite Eb in H. }
  destruct Hh as (ha & hb & Ea & Eb).
  rewrite (checkWinner_two s a b ha hb Hp Hne Ta Tb Ea Eb) in H.
  rewrite Hd, Htc in H. cbn [length or_null] in H.
  rewrite !bool_decide_eq_true_2 in H by done. cbn [andb] in H.
  rewrite (handOf_Some _ _ _ Ea), (handOf_Some _ _ _ Eb).
  destruct ha as [|ca ha], hb as [|cb hb]; cbn in H; simplify_eq; cbn;
    split_and!; intros; done.
Qed.

(** Every match reached from a deal is a session of two players with
    different, non-empty ids. *)
Lemma reachable_two_players s :
  reachable s ->
  exists a b, players s = [a; b] /\ a <> b /\ truthy a = true /\ truthy b = true.
Proof.
  intros R. destruct (reachable_Inv s R) as (a & b & [W _ _]).
  exists a, b. split_and!; apply W.
Qed.

(** C4. After a successful [passTurn] or [takeCards] in a session of two
    players with different, non-empty ids, whatever its state (every
    match reached from a deal is one), if the deck is empty and no trump
    indicator is left, then a player whose hand is empty while the
    opponent's is not has been declared the winner and the phase is
    [finished]; and if both hands are empty, no winner has been declared:
    the winner is what it was before the move and the phase is still
    [playing]. *)
Theorem win_check_after_pass_and_take (a b : string) (s s' : t) (m : Move) :
  players s = [a; b] -> a <> b -> truthy a = true -> truthy b = true ->
  (exists p, m = PassTurn p \/ m = TakeCards p) ->
  move m s = Returned (true, s') ->
  deck s' = [] -> trumpCard s' = None ->
  (forall p q, p ∈ players s' -> q ∈ players s' -> p <> q ->
               handOf s' p = [] -> handOf s' q <> [] ->
               winner s' = Some p /\ phase s' = finished)
  /\ ((forall p, p ∈ players s' -> handOf s' p = []) ->
      winner s' = winner s /\ phase s' = playing).
Proof.
  intros Hp Hne Ta Tb Hm H Hd Htc.
  destruct (round_end_win_check m s s' Hm H) as (s2 & Hcw & Fp & Fph & Fw).
  rewrite Hp in Fp.
  destruct (checkWinner_outcome a b s2 s' Fp Hne Ta Tb Hcw Hd Htc) as (Wa & Wb & Wn).
  pose proof (checkWinner_frame _ _ Hcw) as Hfr.
  apply winnerFrame_fields in Hfr as (Gp & _).
  rewrite Gp, Fp. split.
  - intros x y Hx Hy Hxy Ex Ey.
    apply elem_of_cons in Hx as [->|Hx]; apply elem_of_cons in Hy as [->|Hy];
      try apply list_elem_of_singleton in Hx as ->;
      try apply list_elem_of_singleton in Hy as ->; try done; auto.
  - intros Hall. rewrite <- Fw, <- Fph. apply Wn; apply Hall.
    + apply elem_of_cons. by left.
    + apply elem_of_cons. right. by apply list_elem_of_singleton.
Qed.

Lemma win_check_after_pass_and_take_witness :
  (winner (sampleAfter 69) = Some "alice" /\ phase (sampleAfter 69) = finished)
  /\ (winner bothOutAfterPass = None /\ phase bothOutAfterPass = playing).
Proof.
  split.
  - refine (proj1 (win_check_after_pass_and_take "alice" "bob" (sampleAfter 68)
                     (sampleAfter 69) (PassTurn "alice") _ _ _ _ _ _ _ _)
                  "alice" "bob" _ _ _ _ _).
    + vm_compute. reflexivity.
    + discriminate.
    + reflexivity.
    + reflexivity.
    + exists "alice". by left.
    + vm_compute. reflexivity.
    + vm_compute. reflexivity.
    + vm_compute. reflexivity.
    + vm_compute. apply elem_of_cons. by left.
    + vm_compute. apply elem_of_cons. right. apply elem_of_cons. by left.
    + discriminate.
    + vm_compute. reflexivity.
    + vm_compute. discriminate.
  - refine (proj2 (win_check_after_pass_and_take "alice" "bob" bothOutState
                     bothOutAfterPass (PassTurn "alice") _ _ _ _ _ _ _ _) _).
    + reflexivity.
    + discriminate.
    + reflexivity.
    + reflexivity.
    + exists "alice". by left.
    + vm_compute. reflexivity.
    + vm_compute. reflexivity.
    + vm_compute. reflexivity.
    + intros p Hin.
      apply elem_of_cons in Hin as [->|Hin]; [vm_compute; reflexivity|].
      apply list_elem_of_singleton in Hin as ->. vm_compute. reflexivity.
Defined.

Example pass_with_both_hands_empty :
  passTurn "alice" bothOutState = Returned (true, bothOutAfterPass)
  /\ handOf bothOutAfterPass "alice" = [] /\ handOf bothOutAfterPass "bob" = []
  /\ deck bothOutAfterPass = [] /\ trumpCard bothOutAfterPass = None
  /\ winner bothOutAfterPass = None /\ phase bothOutAfterPass = playing.
Proof. vm_compute. split_and!; reflexivity. Qed.

(** C5. [passTurn] answers [true] only when the caller is the current
    attacker, the phase is [playing] and every pair on the table is
    defended; afterwards the table is empty and the roles are swapped:
    the former defender attacks, the former attacker defends. *)
Theorem passTurn_swaps_roles (playerId : string) (s s' : t) :
  passTurn playerId s = Returned (true, s') ->
  (phase s = playing /\ attacker s = Some playerId /\ allDefended (table s) = true)
  /\ table s' = []
  /\ attacker s' = defender s
  /\ defender s' = attacker s.
Proof.
  unfold passTurn. intros H.
  destruct (decide (phase s = playing)) as [Hph|Hn];
    [|by rewrite (bool_decide_eq_true_2 _ Hn) in H].
  rewrite bool_decide_eq_false_2 in H by (intros ?; done).
  destruct (decide (Some playerId = attacker s)) as [Hat|Hn];
    [|by rewrite (bool_decide_eq_true_2 _ Hn) in H].
  rewrite bool_decide_eq_false_2 in H by (intros ?; done).
  destruct (allDefended (table s)) eqn:Hall; cbn [negb] in H; [|done].
  destruct (refillHands _) as [s1| |] eqn:Hr; cbn [obind] in H; try done.
  destruct (checkWinner _) as [s2| |] eqn:Hw; cbn [obind] in H; try done.
  simplify_eq.
  apply refillHands_frame in Hr. apply checkWinner_frame in Hw.
  unfold refillFrame, winnerFrame in *. simplify_eq/=.
  repeat split; congruence.
Qed.

Lemma passTurn_swaps_roles_witness :
  (phase (sampleAfter 4) = playing /\ attacker (sampleAfter 4) = Some "alice"
   /\ allDefended (table (sampleAfter 4)) = true)
  /\ table (sampleAfter 5) = []
  /\ attacker (sampleAfter 5) = defender (sampleAfter 4)
  /\ defender (sampleAfter 5) = attacker (sampleAfter 4).
Proof.
  apply (passTurn_swaps_roles "alice" (sampleAfter 4) (sampleAfter 5)).
  vm_compute. reflexivity.
Defined.

(** C6. After a successful [takeCards] in a match reached from a deal,
    the caller is the defender, attacker and defender are who they were,
    the table is empty, and the defender's hand has grown by exactly the
    number of cards, attacks and defenses together, that lay on the
    table. *)
Theorem takeCards_keeps_roles (s s' : t) (playerId : string) :
  reachable s ->
  takeCards playerId s = Returned (true, s') ->
  defender s = Some playerId
  /\ attacker s' = attacker s /\ defender s' = defender s
  /\ table s' = []
  /\ length (handOf s' playerId) = length (handOf s playerId) + tableCount s.
Proof.
  intros R H. destruct (reachable_Inv s R) as (a & b & I).
  pose proof (takeCards_guards _ _ _ H) as (Hph & Hde & Htb).
  destruct (takeCards_Inv a b s playerId I Hph Hde Htb)
    as (s'' & Htake & _ & _ & _ & Ht & Ha & Hd & Hl).
  assert (s'' = s') as -> by congruence. by split_and!.
Qed.

Lemma takeCards_keeps_roles_witness :
  defender (sampleAfter 1) = Some "bob"
  /\ attacker (sampleAfter 2) = attacker (sampleAfter 1)
  /\ defender (sampleAfter 2) = defender (sampleAfter 1)
  /\ table (sampleAfter 2) = []
  /\ length (handOf (sampleAfter 2) "bob")
     = length (handOf (sampleAfter 1) "bob") + tableCount (sampleAfter 1).
Proof.
  apply (takeCards_keeps_roles (sampleAfter 1) (sampleAfter 2) "bob").
  - apply sampleAfter_reachable.
  - vm_compute. reflexivity.
Defined.



(** In [capacityState] it is the capacity rule that rejects: with a
    second card in the defender's hand the same throw-in is accepted. *)
Example capacity_rule_is_the_reason :
  exists s',
    throwIn "alice" "7d"
      (set_hands (<["bob" := ["8s"; "9s"]]> (hands capacityState)) capacityState)
    = Returned (true, s').
Proof. eexists. vm_compute. reflexivity. Qed.

(** C10. On an empty table, [passTurn] by the current attacker of a
    match in phase [playing] succeeds: the hands are refilled, the roles
    are swapped and the win check is run. *)
Theorem passTurn_on_empty_table (s : t) (playerId : string) :
  reachable s ->
  phase s = playing -> attacker s = Some playerId -> table s = [] ->
  exists s1 s',
    refillHands (set_canThrow false (set_table [] s)) = Returned s1
    /\ checkWinner (set_lastAction "Бито! Раунд завершён"
                      (set_defender (attacker s1) (set_attacker (defender s1) s1)))
       = Returned s'
    /\ passTurn playerId s = Returned (true, s')
    /\ attacker s' = defender s /\ defender s' = attacker s.
Proof.
  intros R Hph Hat Ht. destruct (reachable_Inv s R) as (a & b & I).
  assert (Hall : allDefended (table s) = true) by (by rewrite Ht).
  destruct (passTurn_Inv a b s playerId I Hph Hat Hall)
    as (s1 & s' & Hre & Hcw & Hpass & _ & _ & _ & Ha & Hd).
  exists s1, s'. by split_and!.
Qed.

Lemma passTurn_on_empty_table_witness :
  exists s1 s',
    refillHands (set_canThrow false (set_table [] sampleDeal)) = Returned s1
    /\ checkWinner (set_lastAction "Бито! Раунд завершён"
                      (set_defender (attacker s1) (set_attacker (defender s1) s1)))
       = Returned s'
    /\ passTurn "alice" sampleDeal = Returned (true, s')
    /\ attacker s' = defender sampleDeal /\ defender s' = attacker sampleDeal.
Proof.
  apply (passTurn_on_empty_table sampleDeal "alice").
  - apply sampleDeal_reachable.
  - vm_compute. reflexivity.
  - vm_compute. reflexivity.
  - vm_compute. reflexivity.
Defined.

(** *** The per-player view *)

Lemma hideHands_agree p s1 s2 ps : forall acc,
  hands s1 !! p = hands s2 !! p ->
  (forall q, q <> p -> length <$> (hands s1 !! q) = length <$> (hands s2 !! q)) ->
  hideHands p s1 ps acc = hideHands p s2 ps acc.
Proof.
  induction ps as [|pid ps IH]; intros acc Hown Hoth; cbn [hideHands]; [done|].
  case_bool_decide as Hp.
  - subst pid. rewrite Hown. by apply IH.
  - pose proof (Hoth pid Hp) as Hl.
    destruct (hands s1 !! pid) as [h1|], (hands s2 !! pid) as [h2|];
      cbn in Hl; try done.
    injection Hl as ->. by apply IH.
Qed.

Lemma hideHands_lookup p s ps : forall acc h,
  hideHands p s ps acc = Returned h ->
  forall q, q <> p ->
    (q ∈ ps -> h !! q = Some (replicate (length (handOf s q)) "back"))
    /\ (q ∉ ps -> h !! q = acc !! q).
Proof.
  induction ps as [|pid ps IH]; intros acc h H q Hq; cbn [hideHands] in H.
  - simplify_eq. split; [by intros ?%elem_of_nil|done].
  - case_bool_decide as Hp.
    + subst pid. destruct (IH _ _ H q Hq) as [Hin Hout]. split.
      * intros [?|?]%elem_of_cons; [done|auto].
      * intros Hn%not_elem_of_cons. etrans; [apply Hout; tauto|].
        destruct (hands s !! p);
          [by rewrite lookup_insert_ne by done|by rewrite lookup_delete_ne by done].
    + destruct (hands s !! pid) as [hand|] eqn:Eh; [|done].
      destruct (IH _ _ H q Hq) as [Hin Hout].
      destruct (decide (q ∈ ps)) as [Hqs|Hqs].
      * split; [auto|]. intros Hn%not_elem_of_cons. tauto.
      * split.
        -- intros [E|?]%elem_of_cons; [subst pid|done].
           etrans; [by apply Hout|]. rewrite lookup_insert_eq.
           by rewrite (handOf_Some _ _ _ Eh).
        -- intros [? ?]%not_elem_of_cons. etrans; [by apply Hout|].
           by rewrite lookup_insert_ne by done.
Qed.

Lemma hideHands_own p s ps : forall acc h,
  hideHands p s ps acc = Returned h ->
  h !! p = if decide (p ∈ ps) then hands s !! p else acc !! p.
Proof.
  induction ps as [|pid ps IH]; intros acc h H; cbn [hideHands] in H.
  - simplify_eq. by rewrite decide_False by apply not_elem_of_nil.
  - case_bool_decide as Hp.
    + subst pid. rewrite (IH _ _ H).
      rewrite (decide_True (P := p ∈ p :: ps)) by (apply elem_of_cons; by left).
      case_decide; [done|].
      destruct (hands s !! p); [by rewrite lookup_insert_eq|by rewrite lookup_delete_eq].
    + destruct (hands s !! pid) as [hand|] eqn:Eh; [|done].
      rewrite (IH _ _ H). rewrite lookup_insert_ne by done.
      destruct (decide (p ∈ ps)) as [Hin|Hin].
      * by rewrite decide_True by (apply elem_of_cons; by right).
      * rewrite decide_False; [done|]. intros [?|?]%elem_of_cons; done.
Qed.

Lemma hideHands_returns p s ps : forall acc,
  (forall q, q ∈ ps -> is_Some (hands s !! q)) ->
  exists h, hideHands p s ps acc = Returned h.
Proof.
  induction ps as [|pid ps IH]; intros acc Hall; cbn [hideHands]; [by eexists|].
  assert (Hrest : forall q, q ∈ ps -> is_Some (hands s !! q))
    by (intros q Hq; apply Hall, elem_of_cons; by right).
  case_bool_decide; [by apply IH|].
  destruct (Hall pid) as [hand ->]; [apply elem_of_cons; by left|]. by apply IH.
Qed.

(** What the view does hide: the [hands] field. The view of [p] shows the
    hand of every other player as one placeholder ["back"] per card and
    [p]'s own hand as it is, every other field, the deck with its cards
    included, is the state's own, and two states that differ only in the
    [hands] of the other players, in equal numbers, give [p] the same
    view. *)
Lemma view_hides_opponent_hand (p : string) (s1 s2 : t) (v : GameState) :
  sameExceptOtherHands p s1 s2 ->
  getStateForPlayer p s1 = Returned v ->
  getStateForPlayer p s2 = Returned v
  /\ viewFrame v = viewFrame s1
  /\ (p ∈ players s1 -> hands v !! p = hands s1 !! p)
  /\ (forall q, q ∈ players s1 -> q <> p ->
                hands v !! q = Some (replicate (length (handOf s1 q)) "back")).
Proof.
  intros (Hfr & Hown & Hoth) H. unfold getStateForPlayer, getState in *.
  assert (Hpl : players s2 = players s1)
    by (unfold viewFrame in Hfr; by simplify_eq).
  rewrite Hpl, <- (hideHands_agree p s1 s2 (players s1) ∅ Hown Hoth).
  destruct (hideHands p s1 (players s1) ∅) as [h| |] eqn:Eh; cbn [obind] in *;
    try done.
  injection H as <-. split_and!.
  - f_equal. unfold viewFrame in Hfr. destruct s1, s2. cbn in *. by simplify_eq.
  - done.
  - intros Hin. cbn. rewrite (hideHands_own _ _ _ _ _ Eh). by rewrite decide_True.
  - intros q Hin Hq. cbn. by apply (hideHands_lookup _ _ _ _ _ Eh q Hq).
Qed.

End SessionClaims.

(** ** The match registry *)

Section Registry.
Import GameManager.

(** *** What the session methods do to the list of players *)

Lemma dealTo_players p s s' : dealTo p s = Returned s' -> players s' = players s.
Proof. unfold dealTo. intros H. split_op H. Qed.

Lemma sortHandOf_players p s s' :
  sortHandOf p s = Returned s' -> players s' = players s.
Proof. unfold sortHandOf. intros H. split_op H. Qed.

Lemma startGame_players rnd s s' :
  startGame rnd s = Returned s' -> players s' = players s.
Proof.
  unfold startGame, determineFirstAttacker. intros H.
  destruct (forEach dealTo _ _) as [s1| |] eqn:E1; cbn [obind] in H; try done.
  apply (forEach_preserves players) in E1; [|apply dealTo_players].
  destruct (shift (deck s1)) as [first deck'].
  destruct (scanPlayers _ _ _) as [acc| |]; cbn [obind] in H; try done.
  destruct (forEach sortHandOf _ _) as [s2| |] eqn:E2; cbn [obind] in H; try done.
  apply (forEach_preserves players) in E2; [|apply sortHandOf_players].
  simplify_eq. cbn. rewrite E2. cbn in *.
  by destruct (or_null first).
Qed.

Lemma addPlayer_players rnd p s r s' :
  addPlayer rnd p s = Returned (r, s') ->
  length (players s) < 2 ->
  p ∈ players s' /\ (forall q, q ∈ players s' <-> q = p \/ q ∈ players s).
Proof.
  unfold addPlayer. intros H Hlen.
  rewrite bool_decide_eq_false_2 in H by lia.
  case_bool_decide as Hin.
  - simplify_eq. split; [done|]. intros q. split; [tauto|]. by intros [->|?].
  - assert (Hpl : players s' = players s ++ [p]).
    { case_bool_decide.
      - destruct (startGame _ _) as [s1| |] eqn:E; cbn [obind] in H; try done.
        simplify_eq. by apply startGame_players in E.
      - by simplify_eq. }
    rewrite Hpl. split.
    + apply elem_of_app. right. by apply list_elem_of_singleton.
    + intros q. rewrite elem_of_app, list_elem_of_singleton. tauto.
Qed.

Lemma move_players mv s r s' :
  move mv s = Returned (r, s') -> players s' = players s.
Proof.
  intros H. destruct r; [|by rewrite (move_rejected_unchanged _ _ _ H)].
  destruct mv as [p c|p a d|p c|p|p]; cbn [move] in H.
  - by apply attack_ok in H as (hand & _ & _ & _ & _ & _ & ->).
  - by apply defend_ok in H as (hand & i & found & _ & _ & _ & _ & _ & _ & ->).
  - by apply throwIn_ok in H as (hand & _ & _ & _ & _ & ->).
  - unfold passTurn in H. split_op H.
    match goal with
    | E1 : refillHands _ = Returned _, E2 : checkWinner _ = Returned _ |- _ =>
        apply refillHands_frame, refillFrame_fields in E1 as (E1 & _);
        apply checkWinner_frame, winnerFrame_fields in E2 as (E2 & _)
    end.
    cbn in *. etrans; eassumption.
  - unfold takeCards in H. split_op H.
    match goal with
    | E0 : _ = Returned ?a, E1 : refillHands _ = Returned _,
      E2 : checkWinner _ = Returned _ |- _ =>
        apply refillHands_frame, refillFrame_fields in E1 as (E1 & _);
        apply checkWinner_frame, winnerFrame_fields in E2 as (E2 & _);
        assert (Ha : players a = players s)
          by (clear -E0; repeat case_match; by simplify_eq);
        cbn in *; rewrite E2, E1; exact Ha
    end.
Qed.

Lemma removePlayer_players p s q :
  q ∈ players (removePlayer p s) <-> q <> p /\ q ∈ players s.
Proof.
  unfold removePlayer. destruct (_ && _); cbn; rewrite list_elem_of_filter; tauto.
Qed.

(** *** The invariant, operation by operation *)

Lemma RegInv_empty : RegInv empty.
Proof. constructor; cbn; intros *; by rewrite lookup_empty. Qed.

Lemma generateRoomId_fresh fuel rnd : forall k live r,
  generateRoomId fuel rnd k live = Returned r -> live !! r = None.
Proof.
  induction fuel as [|fuel IH]; intros k live r H; cbn [generateRoomId] in H; [done|].
  case_bool_decide as Hl; [by eapply IH|].
  simplify_eq. by apply eq_None_not_Some.
Qed.

(** The generator returns as soon as one of the codes it draws within
    its fuel is free. *)
Lemma generateRoomId_returns fuel rnd live : forall k n,
  n < fuel -> live !! randomCode rnd (k + 6 * n) 6 = None ->
  exists r, generateRoomId fuel rnd k live = Returned r.
Proof.
  induction fuel as [|fuel IH]; intros k n Hn Hfree; [lia|].
  cbn [generateRoomId]. case_bool_decide as Hl; [|by eauto].
  destruct n as [|n].
  - replace (k + 6 * 0) with k in Hfree by lia. rewrite Hfree in Hl.
    by destruct Hl.
  - apply (IH (k + 6) n); [lia|].
    by replace (k + 6 + 6 * n) with (k + 6 * S n) by lia.
Qed.

Lemma createRoom_RegInv fuel rnd p m res m' :
  RegInv m -> createRoom fuel rnd p m = Returned (res, m') -> RegInv m'.
Proof.
  intros [Hlive Hback] H. unfold createRoom in H.
  case_bool_decide as Hreg; [by simplify_eq|].
  apply eq_None_not_Some in Hreg.
  destruct (generateRoomId _ _ _ _) as [roomId| |] eqn:Eg; cbn [obind] in H; try done.
  apply generateRoomId_fresh in Eg.
  rewrite addPlayer_first in H. cbn in H. simplify_eq.
  constructor; cbn.
  - intros q r. destruct (decide (p = q)) as [->|Hq].
    + rewrite lookup_insert_eq. intros [= <-]. rewrite lookup_insert_eq.
      eexists. split; [done|]. cbn. by apply list_elem_of_singleton.
    + rewrite lookup_insert_ne by done. intros Hr.
      destruct (Hlive _ _ Hr) as (s & Hs & Hin).
      exists s. split; [|done]. rewrite lookup_insert_ne; [done|]. congruence.
  - intros r s q. destruct (decide (roomId = r)) as [->|Hr].
    + rewrite lookup_insert_eq. intros [= <-]. cbn.
      intros ->%list_elem_of_singleton. by rewrite lookup_insert_eq.
    + rewrite lookup_insert_ne by done. intros Hs Hin.
      pose proof (Hback _ _ _ Hs Hin) as Hq.
      rewrite lookup_insert_ne; [done|]. congruence.
Qed.

Lemma joinRoom_RegInv rnd p roomId m res m' :
  RegInv m -> joinRoom rnd p roomId m = Returned (res, m') -> RegInv m'.
Proof.
  intros [Hlive Hback] H. unfold joinRoom in H.
  case_bool_decide as Hreg; [by simplify_eq|].
  apply eq_None_not_Some in Hreg.
  destruct (sessions m !! roomId) as [session|] eqn:Es; [|by simplify_eq].
  case_bool_decide as Hfull; [by simplify_eq|].
  case_bool_decide as Hph; [by simplify_eq|].
  destruct (addPlayer rnd p session) as [[r s']| |] eqn:Ea; cbn [obind] in H; try done.
  apply addPlayer_players in Ea as [Hp Hpl]; [|lia].
  simplify_eq. constructor; cbn.
  - intros q r'. destruct (decide (p = q)) as [->|Hq].
    + rewrite lookup_insert_eq. intros [= <-]. rewrite lookup_insert_eq. by eauto.
    + rewrite lookup_insert_ne by done. intros Hr.
      destruct (Hlive _ _ Hr) as (s & Hs & Hin).
      destruct (decide (roomId = r')) as [->|Hne].
      * rewrite lookup_insert_eq. eexists. split; [done|].
        apply Hpl. right. congruence.
      * rewrite lookup_insert_ne by done. by eauto.
  - intros r' s q. destruct (decide (roomId = r')) as [->|Hne].
    + rewrite lookup_insert_eq. intros [= <-]. intros [->|Hin]%Hpl.
      * by rewrite lookup_insert_eq.
      * pose proof (Hback _ _ _ Es Hin) as Hq.
        rewrite lookup_insert_ne; [done|]. congruence.
    + rewrite lookup_insert_ne by done. intros Hs Hin.
      pose proof (Hback _ _ _ Hs Hin) as Hq.
      rewrite lookup_insert_ne; [done|]. congruence.
Qed.

Lemma or_null_Some o r : or_null o = Some r -> o = Some r.
Proof. destruct o as [x|]; cbn; [|done]. by destruct (truthy x); intros [= ->]. Qed.

Lemma leaveRoom_RegInv p m : RegInv m -> RegInv (snd (leaveRoom p m)).
Proof.
  intros [Hlive Hback]. unfold leaveRoom.
  destruct (or_null (playerRooms m !! p)) as [roomId|] eqn:Er; [|done].
  apply or_null_Some in Er.
  destruct (sessions m !! roomId) as [session|] eqn:Es; [|done].
  cbn [snd]. set (session' := removePlayer p session).
  constructor; cbn.
  - intros q r. rewrite lookup_delete_Some. intros [Hq Hr].
    destruct (Hlive _ _ Hr) as (s & Hs & Hin).
    destruct (decide (roomId = r)) as [->|Hne].
    + assert (s = session) as -> by congruence.
      assert (Hin' : q ∈ players session') by (apply removePlayer_players; split; done).
      rewrite bool_decide_eq_false_2.
      * rewrite lookup_insert_eq. by eauto.
      * intros Hz. destruct (players session'); [by apply elem_of_nil in Hin'|done].
    + exists s. split; [|done].
      case_bool_decide; [rewrite lookup_delete_ne by done|];
        by rewrite lookup_insert_ne by done.
  - intros r s q Hs Hin.
    assert (Hcase : r = roomId /\ s = session' \/ r <> roomId /\ sessions m !! r = Some s).
    { destruct (decide (r = roomId)) as [->|Hne].
      - left. split; [done|]. case_bool_decide.
        + by rewrite lookup_delete_eq in Hs.
        + rewrite lookup_insert_eq in Hs. congruence.
      - right. split; [done|]. case_bool_decide.
        + rewrite lookup_delete_ne, lookup_insert_ne in Hs by done. done.
        + by rewrite lookup_insert_ne in Hs by done. }
    destruct Hcase as [[-> ->]|[Hne Hs']].
    + apply removePlayer_players in Hin as [Hq Hin].
      rewrite lookup_delete_ne by done. by eapply Hback.
    + pose proof (Hback _ _ _ Hs' Hin) as Hq.
      rewrite lookup_delete_ne; [done|]. congruence.
Qed.

(** A loop over the entries of [sessions] whose turns delete at most the
    entry they visit keeps the invariant when each turn does. *)
Lemma cleanup_fold (f : string * GameSession.t -> nat * t -> nat * t) :
  (forall r s n m, RegInv m -> sessions m !! r = Some s ->
                   RegInv (snd (f (r, s) (n, m)))) ->
  (forall r s n m r', r' <> r ->
                      sessions (snd (f (r, s) (n, m))) !! r' = sessions m !! r') ->
  forall l m,
    NoDup l.*1 -> (forall r s, (r, s) ∈ l -> sessions m !! r = Some s) ->
    RegInv m ->
    RegInv (snd (foldr f (0, m) l))
    /\ (forall r, r ∉ l.*1 -> sessions (snd (foldr f (0, m) l)) !! r = sessions m !! r).
Proof.
  intros Hstep Hkeep l m. induction l as [|[r s] l IH]; intros Hnd Hl I; cbn.
  - by split.
  - cbn in Hnd. apply NoDup_cons in Hnd as [Hr Hnd].
    destruct IH as [Il Hun]; [done| |done|].
    { intros r' s' Hin. apply Hl. by right. }
    destruct (foldr f (0, m) l) as [n ml] eqn:Ef. cbn in Il, Hun.
    assert (Hs : sessions ml !! r = Some s).
    { rewrite Hun by done. apply Hl. by left. }
    split; [by apply Hstep|].
    intros r' [Hne Hr']%not_elem_of_cons.
    rewrite Hkeep by done. by apply Hun.
Qed.

Lemma cleanupEmptyRooms_RegInv m : RegInv m -> RegInv (snd (cleanupEmptyRooms m)).
Proof.
  intros I. unfold cleanupEmptyRooms.
  apply cleanup_fold; [| |apply NoDup_fst_map_to_list| |done].
  - intros r s n m0 [Hlive Hback] Hs. case_bool_decide as He; [|done].
    constructor; cbn.
    + intros p r' Hr'. destruct (Hlive _ _ Hr') as (s' & Hs' & Hin).
      exists s'. split; [|done]. rewrite lookup_delete_ne; [done|].
      intros ->. assert (s' = s) as -> by congruence.
      destruct (players s); [by apply elem_of_nil in Hin|done].
    + intros r' s' p [_ Hs']%lookup_delete_Some Hin. by eapply Hback.
  - intros r s n m0 r' Hne. case_bool_decide; [|done]. cbn.
    by rewrite lookup_delete_ne by done.
  - intros r s. apply elem_of_map_to_list.
Qed.

Lemma cleanupFinishedGames_RegInv m :
  RegInv m -> RegInv (snd (cleanupFinishedGames m)).
Proof.
  intros I. unfold cleanupFinishedGames.
  apply cleanup_fold; [| |apply NoDup_fst_map_to_list| |done].
  - intros r s n m0 [Hlive Hback] Hs. case_bool_decide as He; [|done].
    constructor; cbn.
    + intros p r' [Hp Hr']%lookup_foldr_delete_Some.
      destruct (Hlive _ _ Hr') as (s' & Hs' & Hin).
      exists s'. split; [|done]. rewrite lookup_delete_ne; [done|].
      intros ->. assert (s' = s) as -> by congruence. done.
    + intros r' s' p [Hne Hs']%lookup_delete_Some Hin.
      apply lookup_foldr_delete_Some. split; [|by eapply Hback].
      intros Hin'. pose proof (Hback _ _ _ Hs Hin') as E1.
      pose proof (Hback _ _ _ Hs' Hin) as E2. congruence.
  - intros r s n m0 r' Hne. case_bool_decide; [|done]. cbn.
    by rewrite lookup_delete_ne by done.
  - intros r s. apply elem_of_map_to_list.
Qed.

Lemma play_RegInv mv m res m' :
  RegInv m -> play mv m = Returned (res, m') -> RegInv m'.
Proof.
  intros [Hlive Hback] H. unfold play in H.
  destruct (or_null _) as [roomId|]; [|by simplify_eq].
  destruct (sessions m !! roomId) as [session|] eqn:Es; [|by simplify_eq].
  destruct (move mv session) as [[r s']| |] eqn:Em; cbn [obind] in H; try done.
  apply move_players in Em. simplify_eq. constructor; cbn.
  - intros p r' Hr'. destruct (Hlive _ _ Hr') as (s & Hs & Hin).
    destruct (decide (roomId = r')) as [->|Hne].
    + rewrite lookup_insert_eq. eexists. split; [done|]. rewrite Em. congruence.
    + rewrite lookup_insert_ne by done. by eauto.
  - intros r' s p. destruct (decide (roomId = r')) as [->|Hne].
    + rewrite lookup_insert_eq. intros [= <-]. rewrite Em. by apply Hback.
    + rewrite lookup_insert_ne by done. by apply Hback.
Qed.

Lemma step_RegInv op m m' : RegInv m -> step op m = Returned m' -> RegInv m'.
Proof.
  intros I H. destruct op; cbn [step] in H.
  - destruct (createRoom _ _ _ _) as [[res m1]| |] eqn:E; cbn in H; try done.
    simplify_eq. by eapply createRoom_RegInv.
  - destruct (joinRoom _ _ _ _) as [[res m1]| |] eqn:E; cbn in H; try done.
    simplify_eq. by eapply joinRoom_RegInv.
  - simplify_eq. by apply leaveRoom_RegInv.
  - simplify_eq. by apply cleanupEmptyRooms_RegInv.
  - simplify_eq. by apply cleanupFinishedGames_RegInv.
  - destruct (play _ _) as [[res m1]| |] eqn:E; cbn in H; try done.
    simplify_eq. by eapply play_RegInv.
Qed.

Lemma run_RegInv ops : forall m m', RegInv m -> run ops m = Returned m' -> RegInv m'.
Proof.
  induction ops as [|op ops IH]; intros m m' I H; cbn [run] in H.
  - by simplify_eq.
  - destruct (step op m) as [m1| |] eqn:E; cbn [obind] in H; try done.
    eapply IH; [|exact H]. by eapply step_RegInv.
Qed.

(** C8. In every registry reached from the empty one by creating,
    joining and leaving rooms, cleaning up and playing: an entry of the
    player-to-match map names a live match that lists the player; a
    player is listed by at most one live match and has at most one
    entry; and for a player who has an entry, [createRoom] and
    [joinRoom] answer a failure with its reason and leave the registry
    as it was. *)
Theorem one_match_per_player (ops : list Op) (m : GameManager.t) :
  run ops empty = Returned m ->
  (forall p r, playerRooms m !! p = Some r ->
               exists s, sessions m !! r = Some s /\ p ∈ players s)
  /\ (forall p r1 s1 r2 s2,
         sessions m !! r1 = Some s1 -> p ∈ players s1 ->
         sessions m !! r2 = Some s2 -> p ∈ players s2 -> r1 = r2)
  /\ (forall p r1 r2,
         playerRooms m !! p = Some r1 -> playerRooms m !! p = Some r2 -> r1 = r2)
  /\ (forall p fuel rnd roomId,
         is_Some (playerRooms m !! p) ->
         (exists e, createRoom fuel rnd p m = Returned (NotCreated e, m))
         /\ (exists e, joinRoom rnd p roomId m = Returned (Failure e, m))).
Proof.
  intros H. destruct (run_RegInv ops empty m RegInv_empty H) as [Hlive Hback].
  split_and!.
  - exact Hlive.
  - intros p r1 s1 r2 s2 H1 P1 H2 P2.
    pose proof (Hback _ _ _ H1 P1). pose proof (Hback _ _ _ H2 P2). congruence.
  - intros p r1 r2 H1 H2. congruence.
  - intros p fuel rnd roomId Hreg. unfold createRoom, joinRoom.
    rewrite !bool_decide_eq_true_2 by done. by eauto.
Qed.

Lemma one_match_per_player_witness :
  (forall p r, playerRooms sampleRegistry !! p = Some r ->
               exists s, sessions sampleRegistry !! r = Some s /\ p ∈ players s)
  /\ (forall p r1 s1 r2 s2,
         sessions sampleRegistry !! r1 = Some s1 -> p ∈ players s1 ->
         sessions sampleRegistry !! r2 = Some s2 -> p ∈ players s2 -> r1 = r2)
  /\ (forall p r1 r2,
         playerRooms sampleRegistry !! p = Some r1 ->
         playerRooms sampleRegistry !! p = Some r2 -> r1 = r2)
  /\ (forall p fuel rnd roomId,
         is_Some (playerRooms sampleRegistry !! p) ->
         (exists e, createRoom fuel rnd p sampleRegistry
                    = Returned (NotCreated e, sampleRegistry))
         /\ (exists e, joinRoom rnd p roomId sampleRegistry
                       = Returned (Failure e, sampleRegistry))).
Proof.
  apply (one_match_per_player sampleOps sampleRegistry).
  vm_compute. reflexivity.
Defined.

Example sampleRegistry_players :
  playerRooms sampleRegistry !! "alice" = Some "AAAAAA"
  /\ playerRooms sampleRegistry !! "bob" = None
  /\ playerRooms sampleRegistry !! "carol" = Some "BAAAAA"
  /\ (phase <$> sessions sampleRegistry !! "AAAAAA") = Some finished.
Proof. vm_compute. repeat split; reflexivity. Qed.

End Registry.

(* ===================================================================== *)
(** * Further properties                                                 *)
(* ===================================================================== *)

(** ** More on the card rules *)

Section MoreCardRules.

Lemma substring_last (r : string) (c : Ascii.ascii) :
  String.substring (String.length r) 1 (r +:+ String c EmptyString)
  = String c EmptyString.
Proof. induction r as [|a r IH]; [reflexivity|exact IH]. Qed.

Lemma substring_init (r : string) (c : Ascii.ascii) :
  String.substring 0 (String.length r) (r +:+ String c EmptyString) = r.
Proof. induction r as [|a r IH]; [reflexivity|]. simpl. f_equal. exact IH. Qed.

Lemma length_snoc_string (r : string) (c : Ascii.ascii) :
  String.length (r +:+ String c EmptyString) = S (String.length r).
Proof. induction r as [|a r IH]; [reflexivity|]. simpl. f_equal. exact IH. Qed.

(** X1. [parseCard] undoes the card encoding for every rank text and
    every one-character suit: it splits [rank ++ suit] back into the two. *)
Theorem parseCard_roundtrip (r : string) (c : Ascii.ascii) :
  parseCard (r +:+ String c EmptyString)
  = {| rank := r; suit := String c EmptyString |}.
Proof.
  unfold parseCard, slice_init, slice_last.
  rewrite length_snoc_string.
  replace (S (String.length r) - 1) with (String.length r) by lia.
  by rewrite substring_init, substring_last.
Qed.

Lemma elem_of_generateDeck c :
  c ∈ generateDeck <-> exists r s, c = mkCard r s.
Proof.
  unfold generateDeck. rewrite list_elem_of_In, in_flat_map. split.
  - intros (s & _ & Hin). apply in_map_iff in Hin as (r & <- & _). by eauto.
  - intros (r & s & ->). exists s. split.
    + destruct s; cbn; tauto.
    + apply in_map_iff. exists r. split; [done|]. destruct r; cbn; tauto.
Qed.

Lemma NoDup_generateDeck : NoDup generateDeck.
Proof. apply (bool_decide_unpack _). vm_compute. exact I. Qed.

(** X2. Whatever the random draws, the shuffled deck consists of the 36
    cards of the game: 36 entries, no card twice, and exactly the cards
    [rank ++ suit] of the nine ranks and four suits. *)
Theorem shuffled_deck_is_full_deck (rnd : nat -> nat) :
  length (shuffleDeck rnd generateDeck) = 36
  /\ NoDup (shuffleDeck rnd generateDeck)
  /\ (forall c, c ∈ shuffleDeck rnd generateDeck <-> exists r s, c = mkCard r s).
Proof.
  split_and!.
  - by rewrite shuffleDeck_Permutation.
  - rewrite shuffleDeck_Permutation. apply NoDup_generateDeck.
  - intros c. rewrite shuffleDeck_Permutation. apply elem_of_generateDeck.
Qed.

(** X3. [canThrowIn] answers [true] exactly when some card of the table
    has the rank of the card; in particular never on an empty table, and
    for well-formed cards whatever the suit of the card. *)
Theorem canThrowIn_same_rank (card : Card) (tableCards : list Card)
    (r : Rank) (s1 s2 : SuitName) :
  (canThrowIn card tableCards = true
   <-> exists c, c ∈ tableCards /\ rank (parseCard c) = rank (parseCard card))
  /\ canThrowIn card [] = false
  /\ canThrowIn (mkCard r s1) tableCards = canThrowIn (mkCard r s2) tableCards.
Proof.
  split_and!.
  - unfold canThrowIn. case_bool_decide as Hl.
    + destruct tableCards; [|done]. split; [done|].
      by intros (c & Hc%elem_of_nil & _).
    + rewrite existsb_exists. split.
      * intros (c & Hin%list_elem_of_In & Hc%bool_decide_eq_true). by eauto.
      * intros (c & Hin & Hc). exists c.
        split; [by apply list_elem_of_In|by apply bool_decide_eq_true].
  - reflexivity.
  - unfold canThrowIn. by rewrite !parseCard_mkCard.
Qed.

(** X4. On well-formed cards "is beaten by" is a strict order: no card
    beats itself, two cards never beat each other, and a card that beats
    a card beating a third one beats the third one. *)
Theorem canBeat_strict_order (ra rb rc : Rank) (sa sb sc t : SuitName) :
  canBeat (mkCard ra sa) (mkCard ra sa) (suitStr t) = false
  /\ canBeat (mkCard ra sa) (mkCard rb sb) (suitStr t)
     && canBeat (mkCard rb sb) (mkCard ra sa) (suitStr t) = false
  /\ implb (canBeat (mkCard ra sa) (mkCard rb sb) (suitStr t)
            && canBeat (mkCard rb sb) (mkCard rc sc) (suitStr t))
           (canBeat (mkCard ra sa) (mkCard rc sc) (suitStr t)) = true.
Proof.
  rewrite !canBeat_mkCard.
  split_and!;
    repeat case_bool_decide; subst; cbn [andb negb implb]; try done;
    repeat match goal with
           | |- context [(?x <? ?y)%Z] => destruct (Z.ltb_spec x y)
           end; cbn [andb negb implb]; try done; lia.
Qed.

Lemma localeCompare_antisym a b : localeCompare b a = (- localeCompare a b)%Z.
Proof.
  unfold localeCompare. rewrite (String.compare_antisym a b).
  by destruct (String.compare b a).
Qed.

(** The comparator of [sortHand] never puts two cards both ways round. *)
Lemma cardLe_total trump : Total (cardLe trump).
Proof.
  intros a b. unfold cardLe, compareFn.
  set (ta := match trump with Some t => truthy t && bool_decide (suit (parseCard a) = t)
                         | None => false end).
  set (tb := match trump with Some t => truthy t && bool_decide (suit (parseCard b) = t)
                         | None => false end).
  rewrite (localeCompare_antisym (suit (parseCard a)) (suit (parseCard b))).
  destruct ta, tb; cbn [andb negb]; try lia;
    repeat case_bool_decide; try congruence; cbn [negb];
    try (destruct (localeCompare _ _); lia);
    destruct (RANK_VALUES (rank (parseCard a))),
             (RANK_VALUES (rank (parseCard b))); lia.
Qed.

#[local] Existing Instance cardLe_total.

Lemma localeCompare_suitStr s1 s2 :
  localeCompare (suitStr s1) (suitStr s2) = Z.sgn (suitOrd s1 - suitOrd s2).
Proof. by destruct s1, s2. Qed.

Lemma SUIT_ORDER_suitStr s : SUIT_ORDER (suitStr s) = Some (suitOrd s).
Proof. by destruct s. Qed.

Lemma cardLe_mkCard t c1 c2 :
  cardLe (Some (suitStr t)) (mkCard (fst c1) (snd c1)) (mkCard (fst c2) (snd c2))
  <-> sortKeyLe t c1 c2.
Proof.
  destruct c1 as [r1 s1], c2 as [r2 s2]. unfold cardLe, compareFn, sortKeyLe, sortKey.
  rewrite !parseCard_mkCard. cbn [rank suit fst snd].
  rewrite !RANK_VALUES_rankStr, !suitStr_eq_decide, localeCompare_suitStr.
  replace (truthy (suitStr t)) with true by (by destruct t).
  cbn [andb].
  assert (Hr1 : (6 <= rankValue r1 <= 14)%Z) by (destruct r1; cbn; lia).
  assert (Hr2 : (6 <= rankValue r2 <= 14)%Z) by (destruct r2; cbn; lia).
  assert (Hs1 : (1 <= suitOrd s1 <= 4)%Z) by (destruct s1; cbn; lia).
  assert (Hs2 : (1 <= suitOrd s2 <= 4)%Z) by (destruct s2; cbn; lia).
  assert (Hinj : suitOrd s1 = suitOrd s2 -> s1 = s2) by (by destruct s1, s2).
  repeat case_bool_decide; subst; cbn [andb negb]; try lia; try done.
  all: assert (suitOrd s1 <> suitOrd s2) by (intros ?; auto); lia.
Qed.

Lemma Sorted_mkCards t hand :
  Sorted (cardLe (Some (suitStr t))) (mkCards hand) -> Sorted (sortKeyLe t) hand.
Proof.
  induction hand as [|c hand IH]; cbn; [constructor|].
  intros [Hs Hh]%Sorted_inv. constructor; [by apply IH|].
  destruct hand as [|c' hand]; cbn in *; [constructor|].
  apply HdRel_inv in Hh. constructor. by apply cardLe_mkCard.
Qed.

Lemma sortKeyLe_trans t : Transitive (sortKeyLe t).
Proof. intros x y z. unfold sortKeyLe. lia. Qed.

(** X5. [sortHand] orders a hand of well-formed cards: the result holds
    the same cards, and in it the trumps come after all other cards, the
    other cards are grouped by suit in the alphabetical order of
    [localeCompare], which is the order of [SUIT_ORDER] (clubs, diamonds,
    hearts, spades), and each suit is in ascending rank. *)
Theorem sortHand_orders_hand (hand : list (Rank * SuitName)) (t : SuitName) :
  (exists sorted,
     sortHand (mkCards hand) (Some (suitStr t)) = mkCards sorted
     /\ sorted ≡ₚ hand
     /\ StronglySorted (sortKeyLe t) sorted)
  /\ (forall u, SUIT_ORDER (suitStr u) = Some (suitOrd u)).
Proof.
  split; [|apply SUIT_ORDER_suitStr].
  pose proof (sortHand_Permutation (mkCards hand) (Some (suitStr t))) as Hp.
  unfold mkCards in Hp at 2.
  apply Permutation_map_inv in Hp as (sorted & Heq & Hperm).
  exists sorted. split; [exact Heq|]. split; [by symmetry|].
  apply Sorted_StronglySorted; [apply sortKeyLe_trans|].
  apply Sorted_mkCards. unfold mkCards. rewrite <- Heq.
  apply (Sorted_merge_sort (cardLe (Some (suitStr t)))).
Qed.

Example sortHand_sample :
  sortHand ["Ah"; "6s"; "10d"; "7c"; "6h"; "Kd"] (Some "d")
  = ["7c"; "6h"; "Ah"; "6s"; "10d"; "Kd"].
Proof. vm_compute. reflexivity. Qed.

End MoreCardRules.

(** ** The cards of a match *)

Section Cards.

Lemma spliceFirst_perm c (h : list Card) : c ∈ h -> h ≡ₚ c :: spliceFirst c h.
Proof.
  induction h as [|x h IH]; [by intros ?%elem_of_nil|].
  intros Hin. cbn [spliceFirst]. case_bool_decide as E; [by subst|].
  apply elem_of_cons in Hin as [->|Hin]; [done|].
  rewrite (IH Hin) at 1. apply Permutation_swap.
Qed.

Lemma pairCards_pairList p : pairOk p -> pairCards p = pairList p.
Proof.
  intros [Ha Hd]. unfold pairCards, pairList.
  rewrite filter_cons_True by done. f_equal.
  destruct (defense_ p) as [d|]; [|done].
  rewrite filter_cons_True; [done|]. by apply Hd.
Qed.

Lemma tableCards_tableList s : Forall pairOk (table s) -> tableCards s = tableList s.
Proof.
  unfold tableCards, tableList. induction 1 as [|p l Hp _ IH]; [done|].
  cbn [flat_map]. by rewrite IH, pairCards_pairList.
Qed.

(** The loop of [refillHands] in closed form: it draws
    [min (6 - |hand|) |deck|] cards from the end of the deck, the last
    card first. *)
Lemma refillLoop_closed fuel : forall hand deck,
  length deck <= fuel -> Forall cardOk deck ->
  let n := length deck - Nat.min (6 - length hand) (length deck) in
  refillLoop fuel hand deck = (hand ++ reverse (drop n deck), take n deck).
Proof.
  induction fuel as [|fuel IH]; intros hand deck Hf Hok n.
  - destruct deck; [|cbn in Hf; lia]. cbn. by rewrite app_nil_r.
  - cbn [refillLoop].
    case_bool_decide as H6; cbn [andb]; [case_bool_decide as Hd; cbn [andb]|].
    + destruct (nonempty_snoc _ Hd) as (d & c & ->).
      rewrite pop_snoc.
      apply Forall_app in Hok as [Hokd Hc].
      apply (proj1 (Forall_singleton _ _)) in Hc. unfold cardOk in Hc. rewrite Hc.
      rewrite length_app in Hf. cbn in Hf.
      rewrite (IH (hand ++ [c]) d) by (done || lia).
      subst n. rewrite !length_app. cbn [length].
      set (k := Nat.min (6 - (length hand + 1)) (length d)).
      replace (length d + 1 - Nat.min (6 - length hand) (length d + 1))
        with (length d - k) by lia.
      rewrite drop_app_le by lia. rewrite take_app_le by lia.
      rewrite reverse_app. cbn. by rewrite <- app_assoc.
    + assert (length deck = 0) as E by lia.
      destruct deck; [|done]. cbn. by rewrite app_nil_r.
    + subst n. replace (6 - length hand) with 0 by lia.
      rewrite Nat.min_0_l, Nat.sub_0_r, drop_all, take_ge by lia.
      cbn. by rewrite app_nil_r.
Qed.

Lemma refillOne_closed p s hand :
  hands s !! p = Some hand -> Forall cardOk (deck s) ->
  let n := length (deck s) - Nat.min (6 - length hand) (length (deck s)) in
  refillOne p s =
    Returned (set_hands (<[p := sortHand (hand ++ reverse (drop n (deck s))) (trumpSuit s)]>
                           (hands s))
                (set_deck (take n (deck s)) s)).
Proof.
  intros Eh Hok n. unfold refillOne. rewrite Eh.
  by rewrite (refillLoop_closed _ hand (deck s)) by done.
Qed.

(** [refillHands] in closed form: the attacker [x] draws first, from the
    end of the deck, then the defender [y] from what is left; the trump
    indicator is dropped once the deck is empty. *)
Lemma refillHands_closed s x y hx hy :
  attacker s = Some x -> defender s = Some y -> x <> y ->
  truthy x = true -> truthy y = true ->
  hands s !! x = Some hx -> hands s !! y = Some hy ->
  Forall cardOk (deck s) ->
  let nx := length (deck s) - Nat.min (6 - length hx) (length (deck s)) in
  let rest := take nx (deck s) in
  let ny := length rest - Nat.min (6 - length hy) (length rest) in
  let s2 := set_hands (<[y := sortHand (hy ++ reverse (drop ny rest)) (trumpSuit s)]>
                         (<[x := sortHand (hx ++ reverse (drop nx (deck s))) (trumpSuit s)]>
                            (hands s)))
              (set_deck (take ny rest) s) in
  refillHands s =
    Returned (if bool_decide (length (take ny rest) = 0)
                 && bool_decide (or_null (trumpCard s) <> None)
              then set_trumpCard None s2 else s2).
Proof.
  intros Hx Hy Hne Tx Ty Ex Ey Hok nx rest ny s2.
  unfold refillHands. rewrite (refillOrder_roles s x y) by done.
  cbn [forEach].
  rewrite (refillOne_closed x s hx Ex Hok). cbn [obind]. fold nx. fold rest.
  set (s1 := set_hands _ (set_deck rest s)).
  assert (E1 : hands s1 !! y = Some hy)
    by (subst s1; cbn; by rewrite lookup_insert_ne).
  assert (Hok1 : Forall cardOk (deck s1)) by (by apply Forall_take).
  rewrite (refillOne_closed y s1 hy E1 Hok1). cbn [obind].
  subst s1. cbn. fold ny. by destruct (_ && _).
Qed.

Lemma allCards_two s a b :
  players s = [a; b] ->
  allCards s = deck s ++ trumpList s ++ (handOf s a ++ handOf s b) ++ tableList s.
Proof. intros E. unfold allCards. rewrite E. cbn. by rewrite app_nil_r. Qed.

(** What a refill does to the cards: hands and deck are rearranged, the
    trump indicator stays or goes. *)
Lemma refillHands_cards a b s s1 :
  Wf a b s -> refillHands s = Returned s1 ->
  handOf s1 a ++ handOf s1 b ++ deck s1 ≡ₚ handOf s a ++ handOf s b ++ deck s
  /\ (trumpCard s1 = trumpCard s
      \/ trumpCard s1 = None /\ deck s1 = [] /\ or_null (trumpCard s) <> None)
  /\ (deck s1 = [] -> or_null (trumpCard s1) = None)
  /\ trumpSuit s1 = trumpSuit s.
Proof.
  intros W Hre.
  destruct (Wf_roles _ _ _ W) as (x & y & Hx & Hy & Hne & Tx & Ty & Hxy).
  assert (Ex : hands s !! x = Some (handOf s x))
    by (apply (Wf_hand a b); [done|tauto]).
  assert (Ey : hands s !! y = Some (handOf s y))
    by (apply (Wf_hand a b); [done|tauto]).
  pose proof (refillHands_closed s x y _ _ Hx Hy Hne Tx Ty Ex Ey (wf_deck _ _ _ W)) as Hc.
  cbn zeta in Hc. rewrite Hc in Hre. clear Hc.
  set (nx := length (deck s) - Nat.min (6 - length (handOf s x)) (length (deck s))) in *.
  set (rest := take nx (deck s)) in *.
  set (ny := length rest - Nat.min (6 - length (handOf s y)) (length rest)) in *.
  set (s2 := set_hands _ (set_deck (take ny rest) s)) in *.
  assert (Hx2 : handOf s2 x ≡ₚ handOf s x ++ drop nx (deck s)).
  { unfold handOf at 1, s2. cbn. rewrite lookup_insert_ne by done.
    rewrite lookup_insert_eq. cbn.
    by rewrite sortHand_Permutation, reverse_Permutation. }
  assert (Hy2 : handOf s2 y ≡ₚ handOf s y ++ drop ny rest).
  { unfold handOf at 1, s2. cbn. rewrite lookup_insert_eq. cbn.
    by rewrite sortHand_Permutation, reverse_Permutation. }
  assert (Hd : deck s = take ny rest ++ drop ny rest ++ drop nx (deck s)).
  { rewrite app_assoc, take_drop. unfold rest. by rewrite take_drop. }
  assert (Hperm : handOf s2 a ++ handOf s2 b ++ deck s2
                  ≡ₚ handOf s a ++ handOf s b ++ deck s).
  { change (deck s2) with (take ny rest).
    rewrite Hd.
    destruct Hxy as [[<- <-]|[<- <-]]; rewrite Hx2, Hy2; solve_Permutation. }
  case_bool_decide as Hl; cbn [andb] in Hre; [case_bool_decide as Ht|];
    injection Hre as <-.
  - split_and!; [done| |done|done].
    right. split_and!; [done| |done].
    change (take ny rest = []). by apply length_zero_nil.
  - split_and!; [done|by left| |done].
    intros _. change (or_null (trumpCard s) = None).
    by destruct (or_null (trumpCard s)) eqn:E; [destruct Ht|].
  - split_and!; [done|by left| |done].
    intros E. destruct Hl. change (take ny rest = []) in E. by rewrite E.
Qed.

(** A card that goes from a hand to the table stays in play. *)
Lemma card_to_table_cards a b s s' p c hand :
  Wf a b s -> p = a \/ p = b ->
  hands s !! p = Some hand -> c ∈ hand ->
  hands s' = <[p := spliceFirst c hand]> (hands s) ->
  players s' = players s -> deck s' = deck s -> trumpCard s' = trumpCard s ->
  tableList s' ≡ₚ c :: tableList s ->
  allCards s' ≡ₚ allCards s.
Proof.
  intros W Hp Eh Hin Hh Hpl Hd Htr Htb.
  assert (Hother : forall q, q <> p -> handOf s' q = handOf s q).
  { intros q Hq. rewrite (handOf_insert _ _ _ _ q Hh).
    by rewrite decide_False by done. }
  assert (Hself : handOf s p ≡ₚ c :: handOf s' p).
  { rewrite (handOf_insert _ _ _ _ p Hh), decide_True by done.
    rewrite (handOf_Some _ _ _ Eh). by apply spliceFirst_perm. }
  rewrite (allCards_two s' a b) by (rewrite Hpl; apply W).
  rewrite (allCards_two s a b) by apply W.
  unfold trumpList. rewrite Hd, Htr, Htb.
  destruct Hp as [->| ->].
  - rewrite (Hother b) by (intros ->; by apply (wf_ne _ _ _ W)).
    rewrite Hself. solve_Permutation.
  - rewrite (Hother a) by (apply W).
    rewrite Hself. solve_Permutation.
Qed.

(** *** The deal *)

Lemma dealTo_cards a b s p s' :
  Dealing a b s -> p = a \/ p = b -> 0 < length (deck s) ->
  dealTo p s = Returned s' ->
  handOf s' a ++ handOf s' b ++ deck s' ≡ₚ handOf s a ++ handOf s b ++ deck s.
Proof.
  intros [Hne Ha Hb Hdom Hdeck Hcards] Hp Hlen.
  destruct (nonempty_snoc _ Hlen) as (d & c & Ed).
  assert (Hh : hands s !! p = Some (handOf s p)).
  { destruct Hp as [->| ->]; [destruct Ha as [h E]|destruct Hb as [h E]];
      by rewrite (handOf_Some _ _ _ E). }
  rewrite Ed in Hdeck. apply Forall_app in Hdeck as [Hd Hc].
  apply (proj1 (Forall_singleton _ _)) in Hc.
  unfold dealTo. rewrite Ed, pop_snoc. cbn.
  unfold cardOk in Hc. rewrite Hc, Hh. intros [= <-].
  assert (Hs : forall q, handOf (set_hands (<[p:=handOf s p ++ [c]]> (hands s))
                                   (set_deck d s)) q
                         = if decide (p = q) then handOf s p ++ [c] else handOf s q).
  { intros q. by apply handOf_insert. }
  rewrite !Hs. cbn [deck set_hands set_deck].
  destruct Hp as [->| ->].
  - rewrite decide_True by done. rewrite decide_False by done. solve_Permutation.
  - rewrite decide_False by done. rewrite decide_True by done. solve_Permutation.
Qed.

Lemma deal_rounds_cards a b n : forall s s',
  Dealing a b s -> 2 * n <= length (deck s) ->
  forEach dealTo (concat (replicate n [a; b])) s = Returned s' ->
  handOf s' a ++ handOf s' b ++ deck s' ≡ₚ handOf s a ++ handOf s b ++ deck s.
Proof.
  induction n as [|n IH]; intros s s' D Hlen.
  - cbn. by intros [= <-].
  - cbn [replicate concat app forEach].
    destruct (dealTo_spec a b s a D (or_introl eq_refl) ltac:(lia))
      as (s1 & E1 & D1 & F1 & L1 & _).
    pose proof (dealTo_cards a b s a s1 D (or_introl eq_refl) ltac:(lia) E1) as P1.
    rewrite E1. cbn [obind].
    destruct (dealTo_spec a b s1 b D1 (or_intror eq_refl) ltac:(lia))
      as (s2 & E2 & D2 & F2 & L2 & _).
    pose proof (dealTo_cards a b s1 b s2 D1 (or_intror eq_refl) ltac:(lia) E2) as P2.
    rewrite E2. cbn [obind]. intros H.
    rewrite (IH s2 s' D2 ltac:(lia) H). by rewrite P2.
Qed.

(** The match right after the deal. *)
Lemma startGame_shape rnd a b s :
  players s = [a; b] -> truthy a = true -> truthy b = true ->
  Dealing a b s -> handOf s a = [] -> handOf s b = [] -> table s = [] ->
  exists s' c,
    startGame rnd s = Returned s'
    /\ players s' = [a; b]
    /\ length (handOf s' a) = 6 /\ length (handOf s' b) = 6
    /\ length (deck s') = 23
    /\ trumpCard s' = Some c /\ trumpSuit s' = Some (suit (parseCard c))
    /\ table s' = [] /\ canThrow s' = canThrow s
    /\ phase s' = playing
    /\ allCards s' ≡ₚ generateDeck.
Proof.
  intros Hp Ta Tb D Ha0 Hb0 Ht. unfold startGame.
  set (sa := set_deck (shuffleDeck rnd generateDeck) s).
  assert (Hlen : length (deck sa) = 36).
  { change (deck sa) with (shuffleDeck rnd generateDeck).
    by rewrite shuffleDeck_Permutation. }
  assert (Da : Dealing a b sa).
  { destruct D. constructor; auto.
    change (deck sa) with (shuffleDeck rnd generateDeck).
    rewrite shuffleDeck_Permutation. apply generateDeck_truthy. }
  replace (players sa) with [a; b] by done.
  destruct (deal_rounds a b 6 sa Da ltac:(lia))
    as (s1 & E1 & D1 & F1 & L1 & Ha1 & Hb1).
  assert (P1 : handOf s1 a ++ handOf s1 b ++ deck s1 ≡ₚ generateDeck).
  { etrans; [exact (deal_rounds_cards a b 6 sa s1 Da ltac:(lia) E1)|].
    change (handOf s a ++ handOf s b ++ shuffleDeck rnd generateDeck ≡ₚ generateDeck).
    rewrite Ha0, Hb0. exact (shuffleDeck_Permutation rnd generateDeck). }
  rewrite E1. cbn [obind].
  assert (Fc : canThrow s1 = canThrow sa) by (unfold dealFrame in F1; congruence).
  apply dealFrame_fields in F1 as (Fp & Ft & Fw & Ftc).
  unfold sa in Fp, Ft, Fw, Ftc. cbn in Fp, Ft, Fw, Ftc.
  change (handOf sa) with (handOf s) in *. rewrite Ha0 in Ha1. rewrite Hb0 in Hb1.
  cbn in Ha1, Hb1.
  rewrite Hlen in L1.
  destruct (deck s1) as [|c rest] eqn:Ed; cbn [length] in L1; [lia|]. cbn [shift].
  pose proof (dl_deck _ _ _ D1) as Hdk. rewrite Ed in Hdk.
  apply Forall_cons in Hdk as [Hc Hrest].
  cbn [or_null]. unfold cardOk in Hc. rewrite Hc. cbn [trumpCard set_trumpCard].
  set (s3 := set_trumpSuit _ _).
  pose proof (dl_hand_a _ _ _ D1) as Eha. pose proof (dl_hand_b _ _ _ D1) as Ehb.
  destruct (determineFirstAttacker_spec rnd a b s3) as (x & Hx & ->); auto.
  { unfold s3. cbn. congruence. }
  cbn [obind].
  set (y := or_null _).
  set (s5 := set_defender y _).
  replace (players s5) with [a; b] by (unfold s5, s3; cbn; congruence).
  destruct Eha as [ha Eha], Ehb as [hb Ehb].
  rewrite (sortHands_two a b s5 ha hb (dl_ne _ _ _ D)) by done.
  cbn [obind]. eexists. exists c. split; [reflexivity|].
  set (s' := set_lastAction _ _).
  assert (Hsa : handOf s' a = sortHand ha (trumpSuit s5)).
  { unfold handOf, s'. cbn.
    rewrite lookup_insert_ne by (intros ->; by apply (dl_ne _ _ _ D)).
    by rewrite lookup_insert_eq. }
  assert (Hsb : handOf s' b = sortHand hb (trumpSuit s5)).
  { unfold handOf, s'. cbn. by rewrite lookup_insert_eq. }
  rewrite (handOf_Some _ _ _ Eha) in Ha1, P1. rewrite (handOf_Some _ _ _ Ehb) in Hb1, P1.
  assert (Hpl : players s' = [a; b]) by (cbn; congruence).
  split; [done|]. split; [by rewrite Hsa, length_sortHand|].
  split; [by rewrite Hsb, length_sortHand|]. split; [cbn; lia|].
  split; [done|]. split; [done|]. split; [cbn; congruence|].
  split; [exact Fc|]. split; [done|].
  rewrite (allCards_two s' a b Hpl), Hsa, Hsb, !sortHand_Permutation.
  unfold tableList, trumpList. replace (table s') with (table s1) by done.
  rewrite Ft, Ht. cbn [flat_map]. etrans; [|exact P1].
  change (deck s') with rest. change (trumpCard s') with (Some c).
  solve_Permutation.
Qed.

(** The state in which a second player joins: the lobby of the first. *)
Lemma deal_shape roomId a b rndA rndB sA sB :
  truthy a = true -> truthy b = true ->
  addPlayer rndA a (new roomId) = Returned (true, sA) ->
  addPlayer rndB b sA = Returned (true, sB) ->
  exists c,
    players sB = [a; b] /\ a <> b
    /\ length (handOf sB a) = 6 /\ length (handOf sB b) = 6
    /\ length (deck sB) = 23
    /\ trumpCard sB = Some c /\ trumpSuit sB = Some (suit (parseCard c))
    /\ table sB = [] /\ canThrow sB = false
    /\ phase sB = playing
    /\ allCards sB ≡ₚ generateDeck.
Proof.
  intros Ta Tb HA HB.
  rewrite addPlayer_first in HA. injection HA as <-.
  unfold addPlayer in HB. cbn in HB.
  rewrite bool_decide_eq_false_2 in HB by lia.
  case_bool_decide as Hin; [done|].
  assert (Hne : a <> b).
  { intros E. apply Hin. rewrite E. by apply list_elem_of_singleton. }
  rewrite bool_decide_eq_true_2 in HB by done.
  set (s := set_hands _ _) in HB.
  destruct (startGame_shape rndB a b s) as (s' & c & Hs & H); auto.
  - constructor; auto; unfold s; cbn.
    + rewrite lookup_insert_ne by done. rewrite lookup_insert_eq. by eexists.
    + rewrite lookup_insert_eq. by eexists.
    + intros p. rewrite !lookup_insert_is_Some', lookup_empty.
      intros [<-|[<-|[? ?]]]; auto; done.
    + intros p. unfold handOf. cbn.
      destruct (decide (b = p)) as [->|?];
        [by rewrite lookup_insert_eq|rewrite lookup_insert_ne by done].
      destruct (decide (a = p)) as [->|?];
        [by rewrite lookup_insert_eq|rewrite lookup_insert_ne by done].
      by rewrite lookup_empty.
  - unfold handOf, s. cbn. rewrite lookup_insert_ne by done.
    by rewrite lookup_insert_eq.
  - unfold handOf, s. cbn. by rewrite lookup_insert_eq.
  - rewrite Hs in HB. cbn in HB. simplify_eq. exists c.
    destruct H as (? & ? & ? & ? & ? & ? & ? & ? & ? & ?).
    repeat (split; [assumption|]). assumption.
Qed.

End Cards.

(** ** The rules a match keeps *)

Section RulesKept.

Lemma tableList_insert (tbl : list CardPair) i found d :
  tbl !! i = Some found -> defense_ found = None ->
  flat_map pairList (<[i := mkPair (attack_ found) (Some d)]> tbl)
  ≡ₚ d :: flat_map pairList tbl.
Proof.
  revert i. induction tbl as [|q tbl IH]; intros [|i] Ei Hn; try done.
  - cbn in Ei. injection Ei as ->. cbn. unfold pairList at 2. rewrite Hn. cbn.
    solve_Permutation.
  - cbn in Ei. cbn. rewrite (IH i Ei Hn). solve_Permutation.
Qed.

Lemma undefendedCount_app tbl c :
  undefendedCount (tbl ++ [mkPair c None]) = S (undefendedCount tbl).
Proof.
  unfold undefendedCount. rewrite filter_app, length_app.
  rewrite filter_cons_True by done. cbn. lia.
Qed.

Lemma undefendedCount_insert (tbl : list CardPair) i found d :
  tbl !! i = Some found -> defense_ found = None ->
  S (undefendedCount (<[i := mkPair (attack_ found) (Some d)]> tbl))
  = undefendedCount tbl.
Proof.
  unfold undefendedCount.
  revert i. induction tbl as [|q tbl IH]; intros [|i] Ei Hn; try done.
  - cbn in Ei. injection Ei as ->. cbn [insert list_insert].
    rewrite filter_cons_False by done. by rewrite filter_cons_True by done.
  - cbn in Ei. cbn [insert list_insert].
    destruct (decide (defense_ q = None)) as [E|E].
    + rewrite !filter_cons_True by done. cbn. f_equal. by apply IH.
    + rewrite !filter_cons_False by done. by apply IH.
Qed.

Lemma allDefended_count tbl : allDefended tbl = true <-> undefendedCount tbl = 0.
Proof.
  unfold allDefended, undefendedCount. induction tbl as [|q tbl IH]; [done|].
  cbn [forallb]. rewrite andb_true_iff, IH, bool_decide_eq_true.
  destruct (decide (defense_ q = None)) as [E|E].
  - rewrite filter_cons_True by done. cbn. split; [tauto|lia].
  - rewrite filter_cons_False by done. tauto.
Qed.

Lemma allDefended_app tbl c : allDefended (tbl ++ [mkPair c None]) = false.
Proof.
  unfold allDefended. rewrite forallb_app. apply andb_false_iff. right.
  cbn [forallb defense_]. rewrite bool_decide_eq_false_2 by (intros E; by apply E).
  done.
Qed.

Lemma inPlay_eq s s' :
  cardCount s' = cardCount s -> trumpCard s' = trumpCard s -> inPlay s' = inPlay s.
Proof. unfold cardCount, inPlay, trumpPresent. intros Hc Ht. rewrite Ht in Hc. lia. Qed.

Lemma allDefended_tableCount tbl :
  allDefended tbl = true -> sum_list_with pairCount tbl = 2 * length tbl.
Proof.
  unfold allDefended. induction tbl as [|q tbl IH]; [done|].
  cbn [forallb sum_list_with length]. intros [Hq Hall]%andb_true_iff.
  apply bool_decide_eq_true in Hq. rewrite (IH Hall). unfold pairCount.
  destruct (defense_ q); [lia|done].
Qed.

(** A card played as a new attack, by [attack] or [throwIn]. *)
Lemma Sound_played a b s text p c hand :
  Inv a b s -> Sound a b s -> p = a \/ p = b ->
  hands s !! p = Some hand -> c ∈ hand -> phase s = playing ->
  table s = [] \/ canThrow s = true ->
  Sound a b (played text p c hand s).
Proof.
  intros I [Hc Hodd Ht Has Hsu Hb Ho Hth Hd] Hp Eh Hin Hph Hopen.
  pose proof (inv_wf _ _ _ I) as W.
  constructor.
  - rewrite (card_to_table_cards a b s _ p c hand); try done.
    unfold tableList. cbn. rewrite flat_map_app. cbn. solve_Permutation.
  - destruct (Inv_played a b s text p c hand I Hp Eh Hin) as [_ Hcc].
    by rewrite (inPlay_eq s _ Hcc).
  - done.
  - done.
  - done.
  - intros q d tr Hq Hdq. cbn in Hq.
    apply elem_of_app in Hq as [Hq|Hq]; [by apply Hb|].
    apply list_elem_of_singleton in Hq as ->. done.
  - cbn [played table set_lastAction set_canThrow set_table].
    rewrite undefendedCount_app.
    destruct Hopen as [E|E]; [by rewrite E|].
    rewrite E in Hth. symmetry in Hth. apply andb_true_iff in Hth as [Hall _].
    apply allDefended_count in Hall. lia.
  - cbn [played table canThrow set_lastAction set_canThrow set_table].
    by rewrite allDefended_app.
  - cbn. by rewrite Hph.
Qed.

(** An attack covered by [defend]. *)
Lemma Sound_defended a b s p d hand i found tr :
  Inv a b s -> Sound a b s -> p = a \/ p = b ->
  hands s !! p = Some hand -> d ∈ hand -> phase s = playing ->
  table s !! i = Some found -> defense_ found = None ->
  trumpSuit s = Some tr -> canBeat (attack_ found) d tr = true ->
  Sound a b (defended p d hand i found s).
Proof.
  intros I [Hc Hodd Ht Has Hsu Hb Ho Hth Hd] Hp Eh Hin Hph Ei Hn Etr Hbeat.
  pose proof (inv_wf _ _ _ I) as W.
  constructor.
  - rewrite (card_to_table_cards a b s _ p d hand); try done.
    unfold tableList. cbn. by apply tableList_insert.
  - destruct (Inv_defended a b s p d hand i found I Hp Eh Hin Ei Hn) as [_ Hcc].
    by rewrite (inPlay_eq s _ Hcc).
  - done.
  - done.
  - done.
  - intros q d' tr' Hq Hdq Etr'. cbn in Hq, Etr'.
    apply list_elem_of_lookup in Hq as [j Hj].
    destruct (decide (i = j)) as [<-|Hij].
    + rewrite list_lookup_insert_eq in Hj by (by eapply lookup_lt_Some).
      injection Hj as <-. cbn in *. congruence.
    + rewrite list_lookup_insert_ne in Hj by done.
      apply (Hb q d' tr'); [|done|done]. by eapply list_elem_of_lookup_2.
  - cbn [defended table set_lastAction set_canThrow set_table].
    pose proof (undefendedCount_insert (table s) i found d Ei Hn). lia.
  - cbn [defended table canThrow set_lastAction set_canThrow set_table].
    rewrite bool_decide_eq_true_2; [by rewrite andb_true_r|].
    intros E. apply (f_equal length) in E. rewrite length_insert in E.
    apply lookup_lt_Some in Ei. cbn in E. lia.
  - cbn. by rewrite Hph.
Qed.

(** The end of a round: refill, then the win check, on an empty table. *)
Lemma Sound_round_end a b s0 s1 s2 s' :
  Wf a b s0 -> allCards s0 ⊆+ generateDeck ->
  Nat.odd (inPlay s0) = true ->
  (exists tr, trumpSuit s0 = Some (suitStr tr)) ->
  (trumpCard s0 = None <-> deck s0 = []) ->
  (forall c, trumpCard s0 = Some c -> trumpSuit s0 = Some (suit (parseCard c))) ->
  phase s0 = playing -> table s0 = [] -> canThrow s0 = false ->
  refillHands s0 = Returned s1 ->
  players s2 = players s1 -> hands s2 = hands s1 -> deck s2 = deck s1 ->
  trumpCard s2 = trumpCard s1 -> trumpSuit s2 = trumpSuit s1 ->
  table s2 = table s1 -> canThrow s2 = canThrow s1 ->
  phase s2 = phase s1 ->
  checkWinner s2 = Returned s' ->
  Sound a b s'.
Proof.
  intros W0 Hc0 Hodd0 Ht0 Has0 Hsu0 Hph0 Htb0 Hcan0 Hre Ep Eh Ed Etc Ets Etb Ecan
    Eph Hcw.
  destruct (refillHands_cards a b s0 s1 W0 Hre) as (P & Htr & Hnone & Hts).
  destruct (Wf_roles _ _ _ W0) as (x & y & Hx & Hy & _).
  destruct (refillHands_Wf a b s0 x y W0 Hx Hy)
    as (s1' & Hre' & W1 & Hfr & Lx & Ly & Lsum & _).
  assert (s1' = s1) as -> by congruence.
  assert (Fcan : canThrow s1 = canThrow s0) by (unfold refillFrame in Hfr; congruence).
  apply refillFrame_fields in Hfr as (Fp & Ft & Fa & Fd & Fph & Fw).
  pose proof (checkWinner_frame _ _ Hcw) as Hwf.
  assert (Gcan : canThrow s' = canThrow s2) by (unfold winnerFrame in Hwf; congruence).
  assert (Gts : trumpSuit s' = trumpSuit s2) by (unfold winnerFrame in Hwf; congruence).
  apply winnerFrame_fields in Hwf as (Gp & Gd & Gt & Ga & Gde & Gtc & Gh & _).
  assert (Hh2 : forall q, handOf s2 q = handOf s1 q)
    by (intros q; unfold handOf; by rewrite Eh).
  assert (Hpl : players s' = [a; b]) by (rewrite Gp, Ep; apply W1).
  assert (Htl : tableList s' = []).
  { unfold tableList. by rewrite Gt, Etb, Ft, Htb0. }
  assert (Hcards : allCards s' ⊆+ generateDeck).
  { etrans; [|exact Hc0].
    rewrite (allCards_two s' a b Hpl), (allCards_two s0 a b) by apply W0.
    rewrite Htl, !Gh, !Hh2, Gd, Ed.
    assert (Hsub : trumpList s' ⊆+ trumpList s0).
    { unfold trumpList. rewrite Gtc, Etc.
      destruct Htr as [->|(-> & _)]; [done|]. apply submseteq_nil_l. }
    trans (trumpList s' ++ handOf s1 a ++ handOf s1 b ++ deck s1);
      [apply Permutation_submseteq; solve_Permutation|].
    rewrite P.
    trans (trumpList s0 ++ handOf s0 a ++ handOf s0 b ++ deck s0);
      [by apply submseteq_app|].
    apply Permutation_submseteq. unfold tableList. rewrite Htb0. cbn.
    solve_Permutation. }
  assert (Hno : forall c, trumpCard s' = Some c -> or_null (trumpCard s') = Some c).
  { intros c Ec. rewrite Ec. apply or_null_truthy.
    assert (Hin : c ∈ allCards s').
    { unfold allCards, trumpList. rewrite Ec, !elem_of_app.
      right. left. by apply list_elem_of_singleton. }
    eapply elem_of_submseteq in Hin; [|exact Hcards].
    eapply Forall_forall in Hin; [|apply generateDeck_truthy]. done. }
  constructor.
  - done.
  - replace (inPlay s') with (inPlay s0); [done|].
    unfold inPlay, tableCount.
    rewrite (handsTotal_two s' a b Hpl), (handsTotal_two s0 a b) by apply W0.
    rewrite Gt, Etb, Ft, Htb0, !Gh, !Hh2, Gd, Ed. cbn [sum_list_with].
    apply Permutation_length in P. rewrite !length_app in P. lia.
  - by rewrite Gts, Ets, Hts.
  - rewrite Gtc, Gd, Etc, Ed. split.
    + intros En. destruct Htr as [E|(_ & E & _)]; [|done].
      rewrite E in En. apply Has0 in En. apply length_zero_nil.
      rewrite En in Lsum. cbn in Lsum. lia.
    + intros En. specialize (Hnone En).
      destruct (trumpCard s1) as [c|] eqn:Ec; [|done].
      assert (Ec' : trumpCard s' = Some c) by congruence.
      specialize (Hno c Ec'). congruence.
  - intros c Ec. rewrite Gts, Ets, Hts. apply Hsu0.
    destruct Htr as [E|(E & _)]; congruence.
  - intros q d tr Hq. rewrite Gt, Etb, Ft, Htb0 in Hq. by apply elem_of_nil in Hq.
  - rewrite Gt, Etb, Ft, Htb0. cbn. lia.
  - by rewrite Gcan, Ecan, Fcan, Hcan0, Gt, Etb, Ft, Htb0.
  - intros Hfin.
    assert (Ea : hands s2 !! a = Some (handOf s1 a))
      by (rewrite Eh; apply (Wf_hand a b); [done|tauto]).
    assert (Eb : hands s2 !! b = Some (handOf s1 b))
      by (rewrite Eh; apply (Wf_hand a b); [done|tauto]).
    rewrite (checkWinner_two s2 a b (handOf s1 a) (handOf s1 b)) in Hcw;
      [|by rewrite Ep; apply W1|by apply W1|by apply W1|by apply W1|exact Ea|exact Eb].
    assert (Hph2 : phase s2 = playing) by congruence.
    injection Hcw as Hs'.
    destruct (bool_decide (length (deck s2) = 0)) eqn:B1; cbn [andb] in Hs';
      [|subst s'; congruence].
    destruct (bool_decide (or_null (trumpCard s2) = None)) eqn:B2; cbn [andb] in Hs';
      [|subst s'; congruence].
    apply bool_decide_eq_true in B1, B2.
    assert (Hdeck : deck s' = []) by (rewrite Gd; by apply length_zero_nil).
    assert (Htc : trumpCard s' = None).
    { destruct (trumpCard s') as [c|] eqn:Ec; [|done].
      specialize (Hno c eq_refl). rewrite Gtc in Hno. congruence. }
    assert (Htab : table s' = []) by (by rewrite Gt, Etb, Ft, Htb0).
    split; [done|]. split; [done|]. split; [done|].
    rewrite !Gh, !Hh2.
    destruct (bool_decide (length (handOf s1 a) = 0)) eqn:A1; cbn [andb] in Hs'.
    + destruct (bool_decide (0 < length (handOf s1 b))) eqn:A2.
      * apply bool_decide_eq_true in A1, A2. left. subst s'. cbn.
        split; [done|]. split; [by apply length_zero_nil|].
        intros E. rewrite E in A2. cbn in A2. lia.
      * apply bool_decide_eq_true in A1. apply bool_decide_eq_false in A2.
        destruct (bool_decide (length (handOf s1 b) = 0)) eqn:A3; cbn [andb] in Hs'.
        -- destruct (bool_decide (0 < length (handOf s1 a))) eqn:A4.
           ++ apply bool_decide_eq_true in A4. lia.
           ++ subst s'. congruence.
        -- subst s'. congruence.
    + apply bool_decide_eq_false in A1.
      destruct (bool_decide (length (handOf s1 b) = 0)) eqn:A3; cbn [andb] in Hs'.
      * destruct (bool_decide (0 < length (handOf s1 a))) eqn:A4.
        -- apply bool_decide_eq_true in A3, A4. right. subst s'. cbn.
           split; [done|]. split; [by apply length_zero_nil|].
           intros E. rewrite E in A4. cbn in A4. lia.
        -- subst s'. congruence.
      * subst s'. congruence.
Qed.

Lemma defend_beats p a d s s' :
  defend p a d s = Returned (true, s') ->
  exists hand i found tr,
    hands s !! p = Some hand /\ table s !! i = Some found
    /\ trumpSuit s = Some tr /\ canBeat (attack_ found) d tr = true
    /\ s' = defended p d hand i found s.
Proof.
  unfold defend, removeCardFromHand, includes, findPair. intros H. split_op H.
  repeat match goal with
         | E : negb _ = false |- _ => apply negb_false_iff in E
         | E : list_find _ _ = Some _ |- _ => apply list_find_Some in E as (? & [? ?] & _)
         | E : or_null _ = Some _ |- _ => apply or_null_Some in E
         end.
  do 4 eexists. split_and!; try done. congruence.
Qed.

Lemma takeCards_steps a b s p s' :
  Wf a b s -> takeCards p s = Returned (true, s') ->
  let s0 := set_canThrow false
              (set_table []
                 (set_hands
                    (<[p := sortHand (handOf s p ++ tableCards s) (trumpSuit s)]>
                       (hands s)) s)) in
  exists s1,
    Wf a b s0
    /\ refillHands s0 = Returned s1
    /\ checkWinner (set_lastAction (p +:+ " взял карты") s1) = Returned s'.
Proof.
  intros W H s0.
  pose proof (takeCards_guards _ _ _ H) as (Hph & Hde & Htb).
  destruct (Wf_roles _ _ _ W) as (x & y & Hx & Hy & Hne & Tx & Ty & Hxy).
  assert (y = p) as -> by congruence.
  assert (Hpab : p = a \/ p = b) by tauto.
  pose proof (Wf_hand _ _ _ _ W Hpab) as Ep.
  assert (Hself : handOf s0 p = sortHand (handOf s p ++ tableCards s) (trumpSuit s)).
  { unfold handOf at 1, s0. cbn. by rewrite lookup_insert_eq. }
  assert (Hother : handOf s0 x = handOf s x).
  { unfold handOf, s0. cbn. by rewrite lookup_insert_ne. }
  assert (W0 : Wf a b s0).
  { apply (Wf_update a b s); auto; try (by apply W); try (by constructor).
    - intros q. unfold s0. cbn. apply is_Some_insert1. by eexists.
    - intros q Hq.
      assert (q = x \/ q = p) as [->| ->] by (destruct Hxy, Hq; intuition congruence).
      + rewrite Hother. apply W.
      + rewrite Hself. apply Forall_sortHand, Forall_app.
        split; [apply W|apply Forall_tableCards]. }
  unfold takeCards in H. rewrite Hph, Hde in H.
  rewrite !bool_decide_eq_false_2 in H by (intros ?; done).
  assert (Hlt : length (table s) <> 0) by (by destruct (table s)).
  rewrite (bool_decide_eq_false_2 _ Hlt) in H.
  rewrite (or_null_truthy _ Ty), Ep in H. cbn [obind] in H. fold s0 in H.
  destruct (refillHands s0) as [s1| |] eqn:Hre; cbn [obind] in H; try done.
  destruct (checkWinner _) as [s2| |] eqn:Hcw; cbn [obind] in H; try done.
  exists s1. by simplify_eq.
Qed.

Lemma deal_Sound roomId a b rndA rndB sA sB :
  truthy a = true -> truthy b = true ->
  addPlayer rndA a (new roomId) = Returned (true, sA) ->
  addPlayer rndB b sA = Returned (true, sB) ->
  Sound a b sB.
Proof.
  intros Ta Tb HA HB.
  destruct (deal_shape roomId a b rndA rndB sA sB Ta Tb HA HB)
    as (c & Hp & Hne & La & Lb & Hdk & Htc & Hts & Htb & Hcan & Hph & P).
  constructor.
  - by rewrite P.
  - unfold inPlay, tableCount. rewrite (handsTotal_two sB a b Hp), La, Lb, Hdk, Htb.
    reflexivity.
  - assert (Hin : c ∈ generateDeck).
    { rewrite <- P. unfold allCards, trumpList. rewrite Htc, !elem_of_app.
      right. left. by apply list_elem_of_singleton. }
    apply elem_of_generateDeck in Hin as (r & t & ->).
    exists t. by rewrite Hts, parseCard_mkCard.
  - rewrite Htc. split; [done|]. intros E. by rewrite E in Hdk.
  - intros c' Ec. congruence.
  - intros q d tr Hq. rewrite Htb in Hq. by apply elem_of_nil in Hq.
  - rewrite Htb. cbn. lia.
  - by rewrite Hcan, Htb.
  - by rewrite Hph.
Qed.

(** Every successful move keeps the rules. *)
Lemma move_Sound a b s m s' :
  Inv a b s -> Sound a b s -> move m s = Returned (true, s') -> Sound a b s'.
Proof.
  intros I S H. pose proof (inv_wf _ _ _ I) as W.
  destruct m as [p c|p atk d|p c|p|p]; cbn [move] in H.
  - apply attack_ok in H as (hand & Hph & Hat & Eh & Hin & Htb & ->).
    assert (Hp : p = a \/ p = b)
      by (destruct (wf_roles _ _ _ W) as [[? ?]|[? ?]]; [left|right]; congruence).
    apply Sound_played; auto.
  - pose proof (defend_ok _ _ _ _ _ H) as (hand & i & found & Hph & Hde & Eh & Hin & Ei & Hn & E).
    apply defend_beats in H as (hand' & i' & found' & tr & Eh' & Ei' & Etr & Hbeat & ->).
    assert (Hp : p = a \/ p = b)
      by (destruct (wf_roles _ _ _ W) as [[? ?]|[? ?]]; [right|left]; congruence).
    assert (hand' = hand) as -> by congruence.
    rewrite E. eapply Sound_defended; eauto.
    assert (Hi : i = i').
    { unfold defended in E. apply (f_equal table) in E. cbn in E.
      destruct (decide (i = i')) as [|Hii]; [done|exfalso].
      apply (f_equal (fun l => l !! i)) in E.
      rewrite list_lookup_insert_ne in E by done.
      rewrite list_lookup_insert_eq in E by (by eapply lookup_lt_Some).
      rewrite Ei in E. injection E as E. rewrite E in Hn. done. }
    subst i'. congruence.
  - apply throwIn_ok in H as (hand & Hph & Hcan & Eh & Hin & ->).
    assert (Hp : p = a \/ p = b) by (apply (wf_dom _ _ _ W); by eexists).
    apply Sound_played; auto.
  - pose proof (passTurn_guards _ _ _ H) as (Hph & Hat & Hall).
    destruct (passTurn_Inv a b s p I Hph Hat Hall)
      as (s1 & s'' & Hre & Hcw & Hpass & _).
    assert (s'' = s') as -> by congruence.
    set (s0 := set_canThrow false (set_table [] s)) in *.
    assert (W0 : Wf a b s0).
    { apply (Wf_update a b s); auto; try (by apply W); try (by constructor).
      intros q _. apply (wf_cards _ _ _ W). }
    eapply (Sound_round_end a b s0 s1 _ s' W0); try exact Hcw; try done.
    + etrans; [|apply S].
      rewrite (allCards_two s0 a b), (allCards_two s a b) by apply W.
      apply submseteq_app; [done|]. apply submseteq_app; [done|].
      apply submseteq_app; [done|]. apply submseteq_nil_l.
    + pose proof (snd_odd _ _ _ S) as Hodd. unfold inPlay, tableCount in *.
      change (deck s0) with (deck s). change (handsTotal s0) with (handsTotal s).
      change (table s0) with (@nil CardPair). cbn [sum_list_with].
      rewrite (allDefended_tableCount _ Hall), Nat.odd_add_mul_2 in Hodd.
      by rewrite Nat.add_0_r.
    + apply S.
    + apply S.
    + apply S.
  - destruct (takeCards_steps a b s p s' W H) as (s1 & W0 & Hre & Hcw).
    pose proof (takeCards_guards _ _ _ H) as (Hph & Hde & Htb).
    set (s0 := set_canThrow false _) in *.
    assert (Hpab : p = a \/ p = b).
    { destruct (wf_roles _ _ _ W) as [[? ?]|[? ?]]; [right|left]; congruence. }
    eapply (Sound_round_end a b s0 s1 _ s' W0); try exact Hcw; try done.
    + etrans; [|apply S]. apply Permutation_submseteq.
      rewrite (allCards_two s0 a b), (allCards_two s a b) by apply W.
      assert (Hself : handOf s0 p ≡ₚ handOf s p ++ tableList s).
      { unfold handOf at 1, s0. cbn. rewrite lookup_insert_eq. cbn.
        rewrite sortHand_Permutation. by rewrite tableCards_tableList by apply W. }
      assert (Hother : forall q, q <> p -> handOf s0 q = handOf s q).
      { intros q Hq. unfold handOf, s0. cbn. by rewrite lookup_insert_ne. }
      change (deck s0) with (deck s). change (trumpList s0) with (trumpList s).
      change (tableList s0) with (@nil Card).
      pose proof (wf_ne _ _ _ W) as Hne.
      destruct Hpab as [->| ->].
      * rewrite Hself, (Hother b) by done. solve_Permutation.
      * rewrite Hself, (Hother a) by done. solve_Permutation.
    + pose proof (snd_odd _ _ _ S) as Hodd. unfold inPlay, tableCount in *.
      rewrite (handsTotal_two s0 a b), (handsTotal_two s a b) in * by apply W.
      assert (Hself : length (handOf s0 p) = length (handOf s p) + tableCount s).
      { unfold handOf at 1, s0. cbn. rewrite lookup_insert_eq. cbn.
        rewrite length_sortHand, length_app, length_tableCards; [done|apply W]. }
      assert (Hother : forall q, q <> p -> handOf s0 q = handOf s q).
      { intros q Hq. unfold handOf, s0. cbn. by rewrite lookup_insert_ne. }
      change (deck s0) with (deck s). change (table s0) with (@nil CardPair).
      cbn [sum_list_with]. unfold tableCount in Hself.
      pose proof (wf_ne _ _ _ W) as Hne.
      replace (length (deck s) + (length (handOf s0 a) + length (handOf s0 b)) + 0)
        with (length (deck s) + (length (handOf s a) + length (handOf s b))
              + sum_list_with pairCount (table s)); [done|].
      destruct Hpab as [->| ->].
      * rewrite Hself, (Hother b) by done. lia.
      * rewrite Hself, (Hother a) by done. lia.
    + apply S.
    + apply S.
    + apply S.
Qed.

(** Every match reached from a deal satisfies the invariant and keeps
    the rules. *)
Lemma reachable_Sound s : reachable s -> exists a b, Inv a b s /\ Sound a b s.
Proof.
  induction 1 as [roomId a b rndA rndB sA sB Ta Tb HA HB|s m r s' _ (a & b & I & S) Hm].
  - exists a, b. split.
    + by destruct (deal_Inv roomId a b rndA rndB sA sB Ta Tb HA HB) as (I & _).
    + by eapply deal_Sound.
  - exists a, b. destruct r.
    + split; [by eapply move_Inv|by eapply move_Sound].
    + by rewrite (move_rejected_unchanged _ _ _ Hm).
Qed.

End RulesKept.

(** ** The match state machine: cards leaving the game, and the view *)

Section CardsLeavingPlay.

Lemma refillOne_trumpCard p s s' :
  refillOne p s = Returned s' -> trumpCard s' = trumpCard s.
Proof.
  unfold refillOne. intros H.
  destruct (hands s !! p); [|done].
  destruct (refillLoop _ _ _). by simplify_eq.
Qed.

(** The refill keeps the trump indicator or drops it. *)
Lemma refillHands_trumpCard s s' :
  refillHands s = Returned s' -> trumpCard s' = trumpCard s \/ trumpCard s' = None.
Proof.
  unfold refillHands. intros H.
  destruct (forEach refillOne (refillOrder s) s) as [s1| |] eqn:E; cbn in H; try done.
  apply (forEach_preserves trumpCard) in E; [|apply refillOne_trumpCard].
  rewrite <- E. case_match; simplify_eq; cbn; auto.
Qed.

(** What a successful move does to the deck and to the trump indicator:
    [attack], [defend] and [throwIn] leave both alone, [passTurn] and
    [takeCards] keep the indicator or drop it. *)
Lemma move_trumpCard m s s' :
  move m s = Returned (true, s') ->
  match m with
  | PassTurn _ | TakeCards _ => trumpCard s' = trumpCard s \/ trumpCard s' = None
  | _ => deck s' = deck s /\ trumpCard s' = trumpCard s
  end.
Proof.
  intros H. destruct m as [p c|p atk d|p c|p|p].
  - cbn [move] in H. by apply attack_ok in H as (hand & _ & _ & _ & _ & _ & ->).
  - cbn [move] in H.
    by apply defend_ok in H as (hand & i & found & _ & _ & _ & _ & _ & _ & ->).
  - cbn [move] in H. by apply throwIn_ok in H as (hand & _ & _ & _ & _ & ->).
  - pose proof (passTurn_guards _ _ _ H) as (Hph & Hat & Hall).
    cbn [move] in H. unfold passTurn in H. rewrite Hph, Hat, Hall in H.
    rewrite !bool_decide_eq_false_2 in H by (intros ?; done). cbn [negb] in H.
    destruct (refillHands _) as [s1| |] eqn:Hr; cbn [obind] in H; try done.
    destruct (checkWinner _) as [s2| |] eqn:Hw; cbn [obind] in H; try done.
    simplify_eq.
    apply checkWinner_frame, winnerFrame_fields in Hw as (_ & _ & _ & _ & _ & Gtc & _).
    rewrite Gtc. exact (refillHands_trumpCard _ _ Hr).
  - pose proof (takeCards_guards _ _ _ H) as (Hph & Hde & Htb).
    cbn [move] in H. unfold takeCards in H. rewrite Hph, Hde in H.
    rewrite !bool_decide_eq_false_2 in H by (intros ?; done).
    assert (Hlt : length (table s) <> 0) by (by destruct (table s)).
    rewrite (bool_decide_eq_false_2 _ Hlt) in H.
    destruct (match or_null (Some p) with Some _ => _ | None => _ end)
      as [s0| |] eqn:E0; cbn [obind] in H; try done.
    assert (F0 : trumpCard s0 = trumpCard s).
    { destruct (or_null (Some p)); [|by simplify_eq].
      destruct (hands s !! _); [|done]. by simplify_eq. }
    destruct (refillHands _) as [s1| |] eqn:Hr; cbn [obind] in H; try done.
    destruct (checkWinner _) as [s2| |] eqn:Hw; cbn [obind] in H; try done.
    simplify_eq.
    apply checkWinner_frame, winnerFrame_fields in Hw as (_ & _ & _ & _ & _ & Gtc & _).
    rewrite Gtc. cbn. rewrite <- F0. exact (refillHands_trumpCard _ _ Hr).
Qed.

(** One successful move of a match reached from a deal: the count of cards
    in play drops by what the move discards and stays within 36;
    [attack], [defend] and [throwIn] leave the deck and the trump
    indicator alone, and after [passTurn] and [takeCards] the indicator
    is gone exactly when the deck is empty. *)
Lemma card_count_step (s s' : t) (m : Move) :
  reachable s ->
  move m s = Returned (true, s') ->
  cardCount s' + discarded m s s' = cardCount s
  /\ cardCount s' <= 36
  /\ match m with
     | PassTurn _ | TakeCards _ =>
         trumpCard s' = (if bool_decide (deck s' = []) then None else trumpCard s)
     | _ => deck s' = deck s /\ trumpCard s' = trumpCard s
     end.
Proof.
  intros R H. destruct (reachable_Inv s R) as (a & b & I).
  destruct (move_Inv a b s m s' I H) as [I' Hc].
  destruct (reachable_Sound s' (reach_move s m true s' R H)) as (a' & b' & _ & S').
  pose proof (snd_aside _ _ _ S') as Has.
  pose proof (move_trumpCard m s s' H) as Htc.
  assert (Hround : trumpCard s' = trumpCard s \/ trumpCard s' = None ->
            trumpCard s' = (if bool_decide (deck s' = []) then None else trumpCard s)
            /\ trumpPresent s - trumpPresent s' = indicatorDropped s s').
  { intros Hk. unfold indicatorDropped, trumpPresent. case_bool_decide as Hd.
    - rewrite (proj2 Has Hd). split; [done|lia].
    - destruct Hk as [Hk|Hk]; [|by apply Has in Hk].
      rewrite Hk. split; [done|lia]. }
  split; [|split; [apply I'|]].
  - destruct m as [p c|p atk d|p c|p|p]; cbn [discarded].
    + destruct Htc as [_ Htc]. unfold trumpPresent in Hc. rewrite Htc in Hc. lia.
    + destruct Htc as [_ Htc]. unfold trumpPresent in Hc. rewrite Htc in Hc. lia.
    + destruct Htc as [_ Htc]. unfold trumpPresent in Hc. rewrite Htc in Hc. lia.
    + destruct (Hround Htc) as [_ <-]. lia.
    + destruct (Hround Htc) as [_ <-]. lia.
  - destruct m as [p c|p atk d|p c|p|p]; try done; by apply Hround.
Qed.

Lemma card_count_run ms : forall s0 s,
  reachable s0 -> runMoves ms s0 = Returned s ->
  cardCount s + discardedAlong ms s0 = cardCount s0.
Proof.
  induction ms as [|m ms IH]; intros s0 s R H; cbn [runMoves discardedAlong] in *.
  - simplify_eq. lia.
  - destruct (move m s0) as [[r s1]| |] eqn:E; cbn [obind snd] in H; try done.
    assert (R1 : reachable s1) by (by eapply reach_move).
    specialize (IH s1 s R1 H). destruct r.
    + destruct (card_count_step s0 s1 m R E) as [Hc _]. lia.
    + by rewrite (move_rejected_unchanged _ _ _ E) in *.
Qed.

(** C1, amended. In a match dealt to two players and played by any
    sequence of moves, the count of cards in play (deck, trump indicator,
    both hands, table) plus the cards discarded so far is 36. A
    successful [attack], [defend] or [throwIn] discards nothing and
    leaves the deck and the trump indicator as they are; a successful
    [passTurn] discards the cards on the table; and the trump indicator
    is discarded by the refill of a [passTurn] or a [takeCards], exactly
    when that refill leaves the deck empty, and by nothing else. So the
    count is 36 right after the deal, each successful move lowers it by
    what that move discards, and it never exceeds 36. *)
Theorem card_count_after_moves
    (roomId a b : string) (rndA rndB : nat -> nat) (sA sB s : t) (ms : list Move) :
  truthy a = true -> truthy b = true ->
  addPlayer rndA a (new roomId) = Returned (true, sA) ->
  addPlayer rndB b sA = Returned (true, sB) ->
  runMoves ms sB = Returned s ->
  cardCount sB = 36
  /\ cardCount s + discardedAlong ms sB = 36
  /\ (forall m s', move m s = Returned (true, s') ->
        cardCount s' + discarded m s s' = cardCount s
        /\ cardCount s' <= 36
        /\ match m with
           | PassTurn _ | TakeCards _ =>
               trumpCard s' = (if bool_decide (deck s' = []) then None else trumpCard s)
           | _ => deck s' = deck s /\ trumpCard s' = trumpCard s
           end).
Proof.
  intros Ta Tb HA HB Hrun.
  pose proof (card_count_after_deal roomId a b rndA rndB sA sB Ta Tb HA HB) as H36.
  pose proof (reach_deal roomId a b rndA rndB sA sB Ta Tb HA HB) as RB.
  split_and!; [done| |].
  - rewrite <- H36. by apply card_count_run.
  - intros m s' Hm. apply card_count_step; [|done]. by eapply reachable_run.
Qed.

Lemma card_count_after_moves_witness :
  cardCount sampleDeal = 36
  /\ cardCount (sampleAfter 53) + discardedAlong (take 53 sampleMoves) sampleDeal = 36
  /\ (forall m s', move m (sampleAfter 53) = Returned (true, s') ->
        cardCount s' + discarded m (sampleAfter 53) s' = cardCount (sampleAfter 53)
        /\ cardCount s' <= 36
        /\ match m with
           | PassTurn _ | TakeCards _ =>
               trumpCard s' = (if bool_decide (deck s' = []) then None
                               else trumpCard (sampleAfter 53))
           | _ => deck s' = deck (sampleAfter 53)
                  /\ trumpCard s' = trumpCard (sampleAfter 53)
           end).
Proof.
  apply (card_count_after_moves "ROOM01" "alice" "bob" sampleRnd sampleRnd
           sampleLobby sampleDeal (sampleAfter 53) (take 53 sampleMoves));
    vm_compute; reflexivity.
Defined.

Example sample_first_pass_discards_two :
  cardCount (sampleAfter 5) = 34
  /\ discardedAlong (take 5 sampleMoves) sampleDeal = 2.
Proof. vm_compute. split; reflexivity. Qed.

(** The pass that draws the last card of the deck: the two cards on the
    table and the trump indicator leave the game. *)
Example sample_pass_discards_indicator :
  move (PassTurn "bob") (sampleAfter 53) = Returned (true, sampleAfter 54)
  /\ trumpCard (sampleAfter 53) = Some "7h" /\ tableCount (sampleAfter 53) = 2
  /\ deck (sampleAfter 54) = [] /\ trumpCard (sampleAfter 54) = None
  /\ discarded (PassTurn "bob") (sampleAfter 53) (sampleAfter 54) = 3
  /\ cardCount (sampleAfter 53) = 14 /\ cardCount (sampleAfter 54) = 11.
Proof. vm_compute. split_and!; reflexivity. Qed.

End CardsLeavingPlay.

Section ViewLeak.

Lemma length_tableList s : length (tableList s) = tableCount s.
Proof.
  unfold tableList, tableCount. induction (table s) as [|p l IH]; [done|].
  cbn [flat_map sum_list_with]. rewrite length_app, IH.
  unfold pairList, pairCount. by destruct (defense_ p).
Qed.

Lemma length_allCards s a b :
  players s = [a; b] -> length (allCards s) = cardCount s.
Proof.
  intros Hp. rewrite (allCards_two s a b Hp). unfold cardCount.
  rewrite (handsTotal_two s a b Hp), !length_app, length_tableList.
  unfold trumpList, trumpPresent. destruct (trumpCard s); cbn; lia.
Qed.

(** Of a full set of different cards, split into those seen and those
    hidden: the hidden cards are among the cards not seen, and they are
    all of them when no card of the full set is missing. *)
Lemma unseen_hidden (seen hidden full : list Card) :
  seen ++ hidden ⊆+ full -> NoDup full ->
  hidden ⊆+ filter (fun c => c ∉ seen) full
  /\ (length full <= length (seen ++ hidden) ->
      filter (fun c => c ∉ seen) full ≡ₚ hidden).
Proof.
  intros Hsub Hnd.
  assert (Hnd' : NoDup (seen ++ hidden)).
  { destruct (submseteq_Permutation _ _ Hsub) as [k Hk].
    rewrite Hk in Hnd. by apply NoDup_app in Hnd as (Hnd & _). }
  apply NoDup_app in Hnd' as (_ & Hdis & Hndh).
  assert (Hin : forall x, x ∈ hidden -> x ∈ filter (fun c => c ∉ seen) full).
  { intros x Hx. apply list_elem_of_filter. split.
    - intros Hs. by apply (Hdis x).
    - eapply elem_of_submseteq; [|exact Hsub]. apply elem_of_app. by right. }
  split; [by apply NoDup_submseteq|].
  intros Hlen.
  pose proof (submseteq_length_Permutation _ _ Hsub Hlen) as P.
  apply NoDup_Permutation; [by apply NoDup_filter|done|].
  intros x. split; [|by apply Hin].
  intros [Hs Hf]%list_elem_of_filter.
  rewrite <- P in Hf. apply elem_of_app in Hf as [?|?]; done.
Qed.

(** C9. The view masks the [hands] field and yet gives the hand of the
    opponent away. In a match reached from a deal the view of the player
    [p] shows the hand of the opponent [q] as placeholders only, but it
    carries the deck, the trump indicator, the table and [p]'s own hand
    with their cards: the cards of [q] are among the cards of the game
    that the view shows nowhere, and as long as no card has been
    discarded (all 36 are in play) they are exactly those cards. *)
Theorem view_reveals_opponent_hand (s : t) (p q : string) :
  reachable s -> p ∈ players s -> q ∈ players s -> p <> q ->
  exists v,
    getStateForPlayer p s = Returned v
    /\ handOf v q = replicate (length (handOf s q)) "back"
    /\ deck v = deck s /\ trumpCard v = trumpCard s
    /\ handOf s q ⊆+ unseenCards p v
    /\ (cardCount s = 36 -> unseenCards p v ≡ₚ handOf s q).
Proof.
  intros R Hp Hq Hne.
  destruct (reachable_Sound s R) as (a & b & [W _ _] & S).
  pose proof (wf_players _ _ _ W) as Hpl.
  assert (Hall : forall x, x ∈ players s -> is_Some (hands s !! x)).
  { intros x Hx. rewrite Hpl in Hx.
    apply elem_of_cons in Hx as [->|Hx]; [apply W|].
    apply list_elem_of_singleton in Hx as ->. apply W. }
  unfold getStateForPlayer, getState.
  destruct (hideHands_returns p s (players s) ∅ Hall) as [h Eh].
  rewrite Eh. cbn [obind]. eexists. split; [reflexivity|].
  assert (Hown : handOf (set_hands h s) p = handOf s p).
  { unfold handOf. cbn. rewrite (hideHands_own _ _ _ _ _ Eh). by rewrite decide_True. }
  assert (Hoth : handOf (set_hands h s) q = replicate (length (handOf s q)) "back").
  { destruct (hideHands_lookup _ _ _ _ _ Eh q (not_eq_sym Hne)) as [Hl _].
    exact (f_equal (default []) (Hl Hq)). }
  split; [done|]. split; [done|]. split; [done|].
  unfold unseenCards. rewrite Hown.
  change (deck (set_hands h s)) with (deck s).
  change (trumpList (set_hands h s)) with (trumpList s).
  change (tableList (set_hands h s)) with (tableList s).
  set (seen := deck s ++ trumpList s ++ handOf s p ++ tableList s).
  assert (P : seen ++ handOf s q ≡ₚ allCards s).
  { rewrite (allCards_two s a b Hpl). unfold seen.
    rewrite Hpl in Hp, Hq.
    apply elem_of_cons in Hp as [->|Hp]; apply elem_of_cons in Hq as [->|Hq];
      try apply list_elem_of_singleton in Hp as ->;
      try apply list_elem_of_singleton in Hq as ->; try done; solve_Permutation. }
  assert (Hsub : seen ++ handOf s q ⊆+ generateDeck).
  { etrans; [exact (Permutation_submseteq _ _ P)|apply S]. }
  destruct (unseen_hidden seen (handOf s q) generateDeck Hsub NoDup_generateDeck)
    as [H1 H2].
  split; [done|]. intros Hc. apply H2.
  rewrite (Permutation_length P), (length_allCards s a b Hpl), Hc. done.
Qed.

Lemma view_reveals_opponent_hand_witness :
  exists v,
    getStateForPlayer "alice" sampleDeal = Returned v
    /\ handOf v "bob" = replicate (length (handOf sampleDeal "bob")) "back"
    /\ deck v = deck sampleDeal /\ trumpCard v = trumpCard sampleDeal
    /\ handOf sampleDeal "bob" ⊆+ unseenCards "alice" v
    /\ (cardCount sampleDeal = 36 -> unseenCards "alice" v ≡ₚ handOf sampleDeal "bob").
Proof.
  apply (view_reveals_opponent_hand sampleDeal "alice" "bob").
  - apply sampleDeal_reachable.
  - vm_compute. apply elem_of_cons. by left.
  - vm_compute. apply elem_of_cons. right. apply elem_of_cons. by left.
  - discriminate.
Defined.

(** The sample deal: the view of "alice" shows six placeholders for the
    hand of "bob", and the six cards it shows nowhere are his hand. *)
Example sample_view_gives_hand_away :
  exists v,
    getStateForPlayer "alice" sampleDeal = Returned v
    /\ cardCount sampleDeal = 36
    /\ hands v !! "bob" = Some ["back"; "back"; "back"; "back"; "back"; "back"]
    /\ hands sampleDeal !! "bob" = Some ["Kc"; "6s"; "8s"; "10s"; "Qs"; "As"]
    /\ unseenCards "alice" v = ["Kc"; "6s"; "8s"; "10s"; "Qs"; "As"].
Proof.
  eexists. split; [vm_compute; reflexivity|].
  vm_compute. split_and!; reflexivity.
Qed.

End ViewLeak.

(** ** Properties of the match beyond the specification *)

Section SessionProperties.

Lemma lobby_join rndB roomId a b :
  truthy a = true -> truthy b = true -> a <> b ->
  exists sB,
    addPlayer rndB b (set_hands (<[a := []]> ∅) (set_players [a] (new roomId)))
    = Returned (true, sB).
Proof.
  intros Ta Tb Hne. unfold addPlayer. cbn.
  rewrite bool_decide_eq_false_2 by lia.
  rewrite bool_decide_eq_false_2
    by (intros Hin; apply list_elem_of_singleton in Hin; congruence).
  rewrite bool_decide_eq_true_2 by done.
  set (s := set_hands _ _).
  destruct (startGame_Inv rndB a b s) as (s' & Hs & _); auto.
  - constructor; auto; unfold s; cbn.
    + rewrite lookup_insert_ne by done. rewrite lookup_insert_eq. by eexists.
    + rewrite lookup_insert_eq. by eexists.
    + intros p. rewrite !lookup_insert_is_Some', lookup_empty.
      intros [<-|[<-|[? ?]]]; auto; done.
    + intros p. unfold handOf. cbn.
      destruct (decide (b = p)) as [->|?];
        [by rewrite lookup_insert_eq|rewrite lookup_insert_ne by done].
      destruct (decide (a = p)) as [->|?];
        [by rewrite lookup_insert_eq|rewrite lookup_insert_ne by done].
      by rewrite lookup_empty.
  - unfold handOf, s. cbn. rewrite lookup_insert_ne by done.
    by rewrite lookup_insert_eq.
  - unfold handOf, s. cbn. by rewrite lookup_insert_eq.
  - rewrite Hs. cbn. by eexists.
Qed.

(** X6. When a second player joins a new session the game is dealt: both
    calls of [addPlayer] return [true], the first leaves the session
    waiting, the second leaves it playing with six cards in each hand, 23
    cards in the deck and one card aside as the trump indicator, whose
    suit is the trump suit; the table is empty, nobody has won, the two
    players share the roles of attacker and defender, and deck, indicator
    and hands together are the 36 cards of the game. *)
Theorem deal_gives_six_cards_each (rndA rndB : nat -> nat) (roomId a b : string) :
  truthy a = true -> truthy b = true -> a <> b ->
  exists sA sB c,
    addPlayer rndA a (new roomId) = Returned (true, sA)
    /\ phase sA = waiting
    /\ addPlayer rndB b sA = Returned (true, sB)
    /\ phase sB = playing /\ players sB = [a; b]
    /\ length (handOf sB a) = 6 /\ length (handOf sB b) = 6
    /\ length (deck sB) = 23
    /\ trumpCard sB = Some c /\ trumpSuit sB = Some (suit (parseCard c))
    /\ table sB = [] /\ winner sB = None
    /\ (attacker sB = Some a /\ defender sB = Some b
        \/ attacker sB = Some b /\ defender sB = Some a)
    /\ allCards sB ≡ₚ generateDeck.
Proof.
  intros Ta Tb Hne.
  destruct (lobby_join rndB roomId a b Ta Tb Hne) as (sB & HB).
  pose proof (addPlayer_first rndA a roomId) as HA.
  destruct (deal_shape roomId a b rndA rndB _ sB Ta Tb HA HB)
    as (c & Hp & _ & La & Lb & Ld & Htc & Hts & Htb & _ & Hph & P).
  destruct (deal_Inv roomId a b rndA rndB _ sB Ta Tb HA HB) as ([W _ _] & _).
  eexists _, sB, c. split; [exact HA|]. split; [done|]. split; [exact HB|].
  split; [done|]. split; [done|]. split; [done|]. split; [done|].
  split; [done|]. split; [done|]. split; [done|]. split; [done|].
  split; [by apply W|]. split; [apply W|done].
Qed.

Lemma deal_gives_six_cards_each_witness :
  exists sA sB c,
    addPlayer sampleRnd "alice" (new "ROOM01") = Returned (true, sA)
    /\ phase sA = waiting
    /\ addPlayer sampleRnd "bob" sA = Returned (true, sB)
    /\ phase sB = playing /\ players sB = ["alice"; "bob"]
    /\ length (handOf sB "alice") = 6 /\ length (handOf sB "bob") = 6
    /\ length (deck sB) = 23
    /\ trumpCard sB = Some c /\ trumpSuit sB = Some (suit (parseCard c))
    /\ table sB = [] /\ winner sB = None
    /\ (attacker sB = Some "alice" /\ defender sB = Some "bob"
        \/ attacker sB = Some "bob" /\ defender sB = Some "alice")
    /\ allCards sB ≡ₚ generateDeck.
Proof.
  apply (deal_gives_six_cards_each sampleRnd sampleRnd "ROOM01" "alice" "bob").
  - reflexivity.
  - reflexivity.
  - discriminate.
Defined.

(** X7. In every match reached from a deal no card is invented or
    doubled: the cards of the deck, the trump indicator, the two hands
    and the table are pairwise different, and each of them is one of the
    36 cards [rank ++ suit] of the game. *)
Theorem cards_never_invented_or_doubled (s : t) :
  reachable s ->
  NoDup (allCards s)
  /\ (forall c, c ∈ allCards s -> exists r u, c = mkCard r u).
Proof.
  intros R. destruct (reachable_Sound s R) as (a & b & _ & S).
  pose proof (snd_cards _ _ _ S) as Hc. split.
  - destruct (submseteq_Permutation _ _ Hc) as [k Hk].
    pose proof NoDup_generateDeck as Hn. rewrite Hk in Hn.
    by apply NoDup_app in Hn as (Hn & _).
  - intros c Hin. apply elem_of_generateDeck. by eapply elem_of_submseteq.
Qed.

Lemma cards_never_invented_or_doubled_witness :
  NoDup (allCards (sampleAfter 20))
  /\ (forall c, c ∈ allCards (sampleAfter 20) -> exists r u, c = mkCard r u).
Proof.
  apply (cards_never_invented_or_doubled (sampleAfter 20)).
  apply sampleAfter_reachable.
Defined.

Lemma move_trumpSuit a b s m r s' :
  Inv a b s -> move m s = Returned (r, s') -> trumpSuit s' = trumpSuit s.
Proof.
  intros I H. pose proof (inv_wf _ _ _ I) as W.
  destruct r; [|by rewrite (move_rejected_unchanged _ _ _ H)].
  destruct m as [p c|p atk d|p c|p|p]; cbn [move] in H.
  - by apply attack_ok in H as (hand & _ & _ & _ & _ & _ & ->).
  - by apply defend_ok in H as (hand & i & found & _ & _ & _ & _ & _ & _ & ->).
  - by apply throwIn_ok in H as (hand & _ & _ & _ & _ & ->).
  - pose proof (passTurn_guards _ _ _ H) as (Hph & Hat & Hall).
    destruct (passTurn_Inv a b s p I Hph Hat Hall)
      as (s1 & s'' & Hre & Hcw & Hpass & _).
    assert (s'' = s') as -> by congruence.
    apply refillHands_frame in Hre. apply checkWinner_frame in Hcw.
    unfold refillFrame, winnerFrame in *. cbn in *. congruence.
  - destruct (takeCards_steps a b s p s' W H) as (s1 & _ & Hre & Hcw).
    apply refillHands_frame in Hre. apply checkWinner_frame in Hcw.
    unfold refillFrame, winnerFrame in *. cbn in *. congruence.
Qed.

(** X8. In every match reached from a deal the trump suit is one of the
    four suits and no move changes it, and every covered attack on the
    table is beaten by its cover under [canBeat] with that trump suit. *)
Theorem covered_attacks_are_beaten (s : t) :
  reachable s ->
  exists u,
    trumpSuit s = Some (suitStr u)
    /\ (forall p d, p ∈ table s -> defense_ p = Some d ->
                    canBeat (attack_ p) d (suitStr u) = true)
    /\ (forall m r s', move m s = Returned (r, s') -> trumpSuit s' = trumpSuit s).
Proof.
  intros R. destruct (reachable_Sound s R) as (a & b & I & S).
  destruct (snd_trump _ _ _ S) as [u Hu]. exists u. split_and!; [done| |].
  - intros p d Hp Hd. by apply (snd_beats _ _ _ S p d).
  - intros m r s'. by apply (move_trumpSuit a b).
Qed.

Lemma covered_attacks_are_beaten_witness :
  exists u,
    trumpSuit (sampleAfter 4) = Some (suitStr u)
    /\ (forall p d, p ∈ table (sampleAfter 4) -> defense_ p = Some d ->
                    canBeat (attack_ p) d (suitStr u) = true)
    /\ (forall m r s', move m (sampleAfter 4) = Returned (r, s') ->
                       trumpSuit s' = trumpSuit (sampleAfter 4)).
Proof.
  apply (covered_attacks_are_beaten (sampleAfter 4)).
  apply sampleAfter_reachable.
Defined.

(** X9. In every match reached from a deal the trump indicator lies
    aside exactly while the deck is not empty; it shows the trump suit,
    and it is no card of the deck, of a hand or of the table: the
    indicator is never drawn, it leaves the game when the deck runs
    out. *)
Theorem trump_indicator_lasts_with_deck (s : t) :
  reachable s ->
  (trumpCard s = None <-> deck s = [])
  /\ (forall c, trumpCard s = Some c ->
        trumpSuit s = Some (suit (parseCard c))
        /\ (c ∉ deck s) /\ (forall p, c ∉ handOf s p) /\ (c ∉ tableList s)).
Proof.
  intros R. destruct (reachable_Sound s R) as (a & b & I & S).
  pose proof (inv_wf _ _ _ I) as W.
  split; [apply S|]. intros c Ec. split; [by apply S|].
  pose proof (snd_cards _ _ _ S) as Hc.
  destruct (submseteq_Permutation _ _ Hc) as [k Hk].
  pose proof NoDup_generateDeck as Hn. rewrite Hk in Hn.
  apply NoDup_app in Hn as (Hn & _).
  rewrite (allCards_two s a b) in Hn by apply W.
  unfold trumpList in Hn. rewrite Ec in Hn.
  apply NoDup_app in Hn as (_ & Hd & Hn).
  apply NoDup_app in Hn as (_ & Hr & _).
  assert (Hcc : c ∈ [c]) by (by apply list_elem_of_singleton).
  specialize (Hr c Hcc). rewrite !elem_of_app in Hr.
  split_and!.
  - intros Hin. apply (Hd c Hin). rewrite !elem_of_app. tauto.
  - intros p Hin.
    destruct (decide (p = a)) as [->|Hpa]; [tauto|].
    destruct (decide (p = b)) as [->|Hpb]; [tauto|].
    unfold handOf in Hin. destruct (hands s !! p) as [h|] eqn:Eh.
    + destruct (wf_dom _ _ _ W p); by eauto.
    + by apply elem_of_nil in Hin.
  - tauto.
Qed.

Lemma trump_indicator_lasts_with_deck_witness :
  (trumpCard (sampleAfter 20) = None <-> deck (sampleAfter 20) = [])
  /\ (forall c, trumpCard (sampleAfter 20) = Some c ->
        trumpSuit (sampleAfter 20) = Some (suit (parseCard c))
        /\ (c ∉ deck (sampleAfter 20)) /\ (forall p, c ∉ handOf (sampleAfter 20) p)
        /\ (c ∉ tableList (sampleAfter 20))).
Proof.
  apply (trump_indicator_lasts_with_deck (sampleAfter 20)).
  apply sampleAfter_reachable.
Defined.

(** X10. In every match reached from a deal at most one attack lies
    uncovered on the table, and the flag [canThrow] is set exactly when
    the table is not empty and every attack on it is covered. *)
Theorem at_most_one_open_attack (s : t) :
  reachable s ->
  undefendedCount (table s) <= 1
  /\ canThrow s = allDefended (table s) && bool_decide (table s <> []).
Proof.
  intros R. destruct (reachable_Sound s R) as (a & b & _ & S).
  split; apply S.
Qed.

Lemma at_most_one_open_attack_witness :
  undefendedCount (table (sampleAfter 4)) <= 1
  /\ canThrow (sampleAfter 4)
     = allDefended (table (sampleAfter 4)) && bool_decide (table (sampleAfter 4) <> []).
Proof.
  apply (at_most_one_open_attack (sampleAfter 4)).
  apply sampleAfter_reachable.
Defined.

(** X11. In every match reached from a deal, while the deck is not
    empty each player's hand together with the cards on the table holds
    at least six cards; so between rounds, with the table empty, every
    hand has been refilled to six cards or more. *)
Theorem six_cards_while_deck_lasts (s : t) (p : string) :
  reachable s -> deck s <> [] -> p ∈ players s ->
  6 <= length (handOf s p) + tableCount s
  /\ (table s = [] -> 6 <= length (handOf s p)).
Proof.
  intros R Hd Hp. destruct (reachable_Inv s R) as (a & b & [W Six _]).
  rewrite (wf_players _ _ _ W) in Hp.
  assert (Hab : p = a \/ p = b).
  { apply elem_of_cons in Hp as [->|Hp]; [by left|].
    apply list_elem_of_singleton in Hp. by right. }
  pose proof (Six Hd p Hab) as H6. split; [done|].
  intros E. unfold tableCount in H6. rewrite E in H6. cbn in H6. lia.
Qed.

Lemma six_cards_while_deck_lasts_witness :
  6 <= length (handOf (sampleAfter 5) "bob") + tableCount (sampleAfter 5)
  /\ (table (sampleAfter 5) = [] -> 6 <= length (handOf (sampleAfter 5) "bob")).
Proof.
  apply (six_cards_while_deck_lasts (sampleAfter 5) "bob").
  - apply sampleAfter_reachable.
  - vm_compute. discriminate.
  - vm_compute. apply elem_of_cons. right. by apply list_elem_of_singleton.
Defined.

Lemma move_not_playing m s : phase s <> playing -> move m s = Returned (false, s).
Proof.
  intros Hph. destruct m; cbn [move];
    unfold attack, defend, throwIn, passTurn, takeCards;
    by rewrite (bool_decide_eq_true_2 _ Hph).
Qed.



(** X13. [refillHands] serves the attacker first: the attacker [x] takes
    [min (6 - |hand|) |deck|] cards from the end of the deck, last card
    first, then the defender [y] takes as many as are missing from what
    is left; both hands are sorted again, every other field but the trump
    indicator is kept, and the indicator is dropped when the deck has run
    out. *)
Theorem refill_serves_attacker_first (s : t) (x y : string) (hx hy : list Card) :
  attacker s = Some x -> defender s = Some y -> x <> y ->
  truthy x = true -> truthy y = true ->
  hands s !! x = Some hx -> hands s !! y = Some hy ->
  Forall cardOk (deck s) ->
  let nx := length (deck s) - Nat.min (6 - length hx) (length (deck s)) in
  let rest := take nx (deck s) in
  let ny := length rest - Nat.min (6 - length hy) (length rest) in
  let s2 := set_hands (<[y := sortHand (hy ++ reverse (drop ny rest)) (trumpSuit s)]>
                         (<[x := sortHand (hx ++ reverse (drop nx (deck s))) (trumpSuit s)]>
                            (hands s)))
              (set_deck (take ny rest) s) in
  refillHands s =
    Returned (if bool_decide (length (take ny rest) = 0)
                 && bool_decide (or_null (trumpCard s) <> None)
              then set_trumpCard None s2 else s2).
Proof.
  intros Hx Hy Hne Tx Ty Ex Ey Hok nx rest ny s2.
  unfold refillHands, refillOrder. rewrite Hx, Hy. cbn [app].
  rewrite !filter_cons_True by done. rewrite filter_nil. cbn [forEach].
  unfold refillOne at 1. rewrite Ex.
  rewrite (refillLoop_closed _ hx (deck s)) by done. cbn [obind].
  fold nx. fold rest. unfold refillOne.
  cbn [hands deck trumpSuit set_hands set_deck].
  rewrite lookup_insert_ne by done. rewrite Ey.
  rewrite (refillLoop_closed _ hy rest) by (done || by apply Forall_take).
  cbn [obind]. fold ny. subst s2. cbn. by destruct (_ && _).
Qed.

(** The refill of the pass that ends the second round of the sample
    match: "bob", the attacker, draws the last card of the deck and
    "alice" the card before it. *)
Lemma refill_serves_attacker_first_witness :
  let s := set_canThrow false (set_table [] (sampleAfter 7)) in
  let hx := handOf s "bob" in
  let hy := handOf s "alice" in
  let nx := length (deck s) - Nat.min (6 - length hx) (length (deck s)) in
  let rest := take nx (deck s) in
  let ny := length rest - Nat.min (6 - length hy) (length rest) in
  let s2 := set_hands (<["alice" := sortHand (hy ++ reverse (drop ny rest)) (trumpSuit s)]>
                         (<["bob" := sortHand (hx ++ reverse (drop nx (deck s)))
                                       (trumpSuit s)]>
                            (hands s)))
              (set_deck (take ny rest) s) in
  refillHands s =
    Returned (if bool_decide (length (take ny rest) = 0)
                 && bool_decide (or_null (trumpCard s) <> None)
              then set_trumpCard None s2 else s2).
Proof.
  apply (refill_serves_attacker_first
           (set_canThrow false (set_table [] (sampleAfter 7))) "bob" "alice").
  - vm_compute. reflexivity.
  - vm_compute. reflexivity.
  - discriminate.
  - reflexivity.
  - reflexivity.
  - vm_compute. reflexivity.
  - vm_compute. reflexivity.
  - vm_compute. repeat constructor.
Defined.

Example refill_sample :
  let s := set_canThrow false (set_table [] (sampleAfter 7)) in
  exists s1, refillHands s = Returned s1
    /\ handOf s1 "bob" = ["10c"; "6s"; "8s"; "10s"; "Qs"; "As"]
    /\ handOf s1 "alice" = ["9c"; "Jc"; "7s"; "9s"; "Js"; "Ks"]
    /\ length (deck s1) = 19.
Proof. eexists. vm_compute. split_and!; reflexivity. Qed.

(** X14. In a match reached from a deal [getStateForPlayer] never
    throws, whoever asks, a player or not: it returns a view with the
    fields of the state other than the hands, in which every player's
    hand has as many entries as the hand itself, the hand of the player
    who asks is that player's own, and every other hand consists of
    placeholders. *)
Theorem view_never_throws (s : t) (p : string) :
  reachable s ->
  exists v,
    getStateForPlayer p s = Returned v
    /\ viewFrame v = viewFrame s
    /\ (forall q, q ∈ players s -> length (handOf v q) = length (handOf s q))
    /\ (p ∈ players s -> handOf v p = handOf s p)
    /\ (forall q, q ∈ players s -> q <> p ->
                  handOf v q = replicate (length (handOf s q)) "back").
Proof.
  intros R. destruct (reachable_Inv s R) as (a & b & [W _ _]).
  assert (Hall : forall q, q ∈ players s -> is_Some (hands s !! q)).
  { intros q Hq. rewrite (wf_players _ _ _ W) in Hq.
    apply elem_of_cons in Hq as [->|Hq]; [apply W|].
    apply list_elem_of_singleton in Hq as ->. apply W. }
  unfold getStateForPlayer, getState.
  destruct (hideHands_returns p s (players s) ∅ Hall) as [h Eh].
  rewrite Eh. cbn [obind]. eexists. split; [reflexivity|].
  assert (Hown : p ∈ players s -> handOf (set_hands h s) p = handOf s p).
  { intros Hin. unfold handOf. cbn.
    rewrite (hideHands_own _ _ _ _ _ Eh). by rewrite decide_True. }
  assert (Hoth : forall q, q ∈ players s -> q <> p ->
                   handOf (set_hands h s) q = replicate (length (handOf s q)) "back").
  { intros q Hin Hq.
    destruct (hideHands_lookup _ _ _ _ _ Eh q Hq) as [Hl _].
    exact (f_equal (default []) (Hl Hin)). }
  split_and!; [done| |done|done].
  intros q Hin. destruct (decide (q = p)) as [->|Hq].
  - by rewrite Hown.
  - by rewrite Hoth, length_replicate.
Qed.

Lemma view_never_throws_witness :
  exists v,
    getStateForPlayer "mallory" (sampleAfter 4) = Returned v
    /\ viewFrame v = viewFrame (sampleAfter 4)
    /\ (forall q, q ∈ players (sampleAfter 4) ->
                  length (handOf v q) = length (handOf (sampleAfter 4) q))
    /\ ("mallory" ∈ players (sampleAfter 4) ->
        handOf v "mallory" = handOf (sampleAfter 4) "mallory")
    /\ (forall q, q ∈ players (sampleAfter 4) -> q <> "mallory" ->
                  handOf v q = replicate (length (handOf (sampleAfter 4) q)) "back").
Proof.
  apply (view_never_throws (sampleAfter 4) "mallory").
  apply sampleAfter_reachable.
Defined.

(** X15. When a player leaves a match reached from a deal, the session
    keeps the other player alone and no hand for the leaver, and it is
    finished: a match that was being played is won by the player who
    stays, a match that was finished keeps its winner. A call for
    somebody who is no player of the match changes nothing. *)
Theorem leaver_forfeits (s : t) (p : string) :
  reachable s ->
  (p ∈ players s ->
   exists q,
     q ∈ players s /\ q <> p
     /\ players (removePlayer p s) = [q]
     /\ hands (removePlayer p s) !! p = None
     /\ hands (removePlayer p s) !! q = hands s !! q
     /\ phase (removePlayer p s) = finished
     /\ (phase s = playing -> winner (removePlayer p s) = Some q)
     /\ (phase s = finished -> winner (removePlayer p s) = winner s))
  /\ (p ∉ players s -> removePlayer p s = s).
Proof.
  intros R. destruct (reachable_Inv s R) as (a & b & [W _ _]).
  pose proof (wf_players _ _ _ W) as Hpl. pose proof (wf_ne _ _ _ W) as Hne.
  assert (Hph : phase s = playing \/ phase s = finished).
  { pose proof (wf_phase _ _ _ W). destruct (phase s); tauto. }
  split.
  - intros Hin. rewrite Hpl in Hin.
    assert (Hcase : p = a \/ p = b).
    { apply elem_of_cons in Hin as [->|Hin]; [by left|].
      apply list_elem_of_singleton in Hin. by right. }
    unfold removePlayer. cbn. rewrite Hpl.
    destruct Hcase as [->| ->].
    + exists b. rewrite filter_cons_False by (intros E; by apply E).
      rewrite filter_cons_True by congruence. rewrite filter_nil. cbn.
      destruct Hph as [E|E]; rewrite E;
        [rewrite !bool_decide_eq_true_2 by done
        |rewrite (bool_decide_eq_false_2 (finished = playing)) by done];
        cbn; rewrite lookup_delete_eq, lookup_delete_ne by done;
        (split; [apply elem_of_cons; right; by apply list_elem_of_singleton|]);
        split_and!; try done; congruence.
    + exists a. rewrite filter_cons_True by congruence.
      rewrite filter_cons_False by (intros E; by apply E). rewrite filter_nil. cbn.
      destruct Hph as [E|E]; rewrite E;
        [rewrite !bool_decide_eq_true_2 by done
        |rewrite (bool_decide_eq_false_2 (finished = playing)) by done];
        cbn; rewrite lookup_delete_eq, lookup_delete_ne by done;
        (split; [apply elem_of_cons; by left|]);
        split_and!; try done; congruence.
  - intros Hnin. rewrite Hpl in Hnin.
    apply not_elem_of_cons in Hnin as [Hpa Hnin].
    apply not_elem_of_cons in Hnin as [Hpb _].
    unfold removePlayer. cbn. rewrite Hpl.
    rewrite !filter_cons_True by congruence. rewrite filter_nil. cbn.
    rewrite (bool_decide_eq_false_2 (2 = 1)) by lia. rewrite andb_false_r.
    assert (Hno : hands s !! p = None).
    { destruct (hands s !! p) eqn:E; [|done].
      destruct (wf_dom _ _ _ W p); by eauto. }
    rewrite delete_id by done. rewrite <- Hpl. by destruct s.
Qed.

Lemma leaver_forfeits_witness :
  ("bob" ∈ players (sampleAfter 4) ->
   exists q,
     q ∈ players (sampleAfter 4) /\ q <> "bob"
     /\ players (removePlayer "bob" (sampleAfter 4)) = [q]
     /\ hands (removePlayer "bob" (sampleAfter 4)) !! "bob" = None
     /\ hands (removePlayer "bob" (sampleAfter 4)) !! q = hands (sampleAfter 4) !! q
     /\ phase (removePlayer "bob" (sampleAfter 4)) = finished
     /\ (phase (sampleAfter 4) = playing ->
         winner (removePlayer "bob" (sampleAfter 4)) = Some q)
     /\ (phase (sampleAfter 4) = finished ->
         winner (removePlayer "bob" (sampleAfter 4)) = winner (sampleAfter 4)))
  /\ ("bob" ∉ players (sampleAfter 4) ->
      removePlayer "bob" (sampleAfter 4) = sampleAfter 4).
Proof.
  apply (leaver_forfeits (sampleAfter 4) "bob").
  apply sampleAfter_reachable.
Defined.

End SessionProperties.

(** ** Who attacks first *)

Section FirstAttacker.

Lemma compareCards_deck c l :
  c ∈ generateDeck -> l ∈ generateDeck ->
  compareCards c l = Some (rankOf c - rankOf l)%Z.
Proof.
  intros (rc & uc & ->)%elem_of_generateDeck (rl & ul & ->)%elem_of_generateDeck.
  unfold compareCards, rankOf. rewrite !parseCard_mkCard. cbn [rank].
  by rewrite !RANK_VALUES_rankStr.
Qed.

Lemma or_null_deck (l : string) : l ∈ generateDeck -> or_null (Some l) = Some l.
Proof.
  intros Hl. apply or_null_truthy.
  eapply Forall_forall in Hl; [|apply generateDeck_truthy]. done.
Qed.

(** One hand scanned by [determineFirstAttacker]: either no card of the
    hand is a better trump than the one found so far, or the lowest trump
    of the hand is the new find and its owner the new first attacker. *)
Lemma scan_hand (tr : option Suit) (p : string) (hand : list Card) :
  forall acc,
    Forall (fun c => c ∈ generateDeck) hand ->
    (forall l, fst acc = Some l -> l ∈ generateDeck) ->
    let acc' := fold_left (scanCard tr p) hand acc in
    (acc' = acc
     /\ forall c, c ∈ hand -> Some (suit (parseCard c)) = tr ->
                  exists l, fst acc = Some l /\ (rankOf l <= rankOf c)%Z)
    \/ (exists c0,
          acc' = (Some c0, Some p) /\ c0 ∈ hand /\ Some (suit (parseCard c0)) = tr
          /\ (forall c, c ∈ hand -> Some (suit (parseCard c)) = tr ->
                        (rankOf c0 <= rankOf c)%Z)
          /\ (forall l, fst acc = Some l -> (rankOf c0 < rankOf l)%Z)).
Proof.
  induction hand as [|c hand IH]; intros acc Hok Hacc; cbn [fold_left].
  - left. split; [done|]. by intros c ?%elem_of_nil.
  - apply Forall_cons in Hok as [Hc Hok].
    assert (Hstep :
      (scanCard tr p acc c = acc
       /\ (Some (suit (parseCard c)) = tr ->
           exists l, fst acc = Some l /\ (rankOf l <= rankOf c)%Z))
      \/ (scanCard tr p acc c = (Some c, Some p) /\ Some (suit (parseCard c)) = tr
          /\ forall l, fst acc = Some l -> (rankOf c < rankOf l)%Z)).
    { unfold scanCard. case_bool_decide as Ht; [|by left].
      destruct (fst acc) as [l|] eqn:El.
      - unfold Card in *. rewrite (or_null_deck l) by (by apply Hacc).
        rewrite (compareCards_deck c l) by (done || by apply Hacc).
        destruct (Z.ltb_spec (rankOf c - rankOf l) 0) as [Hlt|Hge].
        + right. split_and!; [done|done|]. intros l' [= <-]. lia.
        + left. split; [done|]. intros _. exists l. split; [done|lia].
      - cbn [or_null]. right. split_and!; [done|done|]. by intros l'. }
    destruct Hstep as [(E & Hkeep)|(E & Ht & Hlow)]; rewrite E.
    + destruct (IH acc Hok Hacc) as [(E' & Hall)|(c0 & E' & Hin & Ht0 & Hmin & Hlt)].
      * left. split; [done|]. intros c' [->|Hin]%elem_of_cons; auto.
      * right. exists c0. split_and!; try done.
        -- apply elem_of_cons. by right.
        -- intros c' [->|Hin']%elem_of_cons Ht'; [|by apply Hmin].
           destruct (Hkeep Ht') as (l & El & Hle). specialize (Hlt l El). lia.
    + destruct (IH (Some c, Some p) Hok) as [(E' & Hall)|(c0 & E' & Hin & Ht0 & Hmin & Hlt)].
      { by intros l [= <-]. }
      * right. exists c. split_and!; try done.
        -- apply elem_of_cons. by left.
        -- intros c' [->|Hin]%elem_of_cons Ht'; [lia|].
           destruct (Hall c' Hin Ht') as (l & [= <-] & Hle). done.
      * right. exists c0. split_and!; try done.
        -- apply elem_of_cons. by right.
        -- intros c' [->|Hin']%elem_of_cons Ht'; [|by apply Hmin].
           specialize (Hlt c eq_refl). lia.
        -- intros l El. specialize (Hlt c eq_refl). specialize (Hlow l El). lia.
Qed.

(** The two hands scanned in turn, from nothing found. *)
Lemma scan_two (tr : option Suit) (a b : string) (ha hb : list Card) :
  Forall (fun c => c ∈ generateDeck) ha ->
  Forall (fun c => c ∈ generateDeck) hb ->
  let acc := fold_left (scanCard tr b) hb (fold_left (scanCard tr a) ha (None, None)) in
  (snd acc = None
   /\ (forall c, c ∈ ha ++ hb -> Some (suit (parseCard c)) <> tr))
  \/ (snd acc = Some a
      /\ forall d, d ∈ hb -> Some (suit (parseCard d)) = tr ->
           exists c, c ∈ ha /\ Some (suit (parseCard c)) = tr
                     /\ (rankOf c <= rankOf d)%Z)
  \/ (snd acc = Some b
      /\ forall d, d ∈ ha -> Some (suit (parseCard d)) = tr ->
           exists c, c ∈ hb /\ Some (suit (parseCard c)) = tr
                     /\ (rankOf c <= rankOf d)%Z).
Proof.
  intros Ha Hb acc. subst acc.
  destruct (scan_hand tr a ha (None, None) Ha) as [(Ea & Halla)|(ca & Ea & Hina & Hta & Hmina & _)];
    [done| |]; rewrite Ea.
  - destruct (scan_hand tr b hb (None, None) Hb)
      as [(Eb & Hallb)|(cb & Eb & Hinb & Htb & Hminb & _)]; [done| |]; rewrite Eb.
    + left. split; [done|]. intros c [Hin|Hin]%elem_of_app Ht.
      * by destruct (Halla c Hin Ht) as (l & ? & _).
      * by destruct (Hallb c Hin Ht) as (l & ? & _).
    + right. right. split; [done|]. intros d Hin Ht.
      by destruct (Halla d Hin Ht) as (l & ? & _).
  - destruct (scan_hand tr b hb (Some ca, Some a) Hb)
      as [(Eb & Hallb)|(cb & Eb & Hinb & Htb & Hminb & Hlt)]; rewrite ?Eb.
    { intros l [= <-]. by eapply Forall_forall in Ha. }
    + right. left. split; [done|]. intros d Hin Ht.
      destruct (Hallb d Hin Ht) as (l & [= <-] & Hle). by exists ca.
    + right. right. split; [done|]. intros d Hin Ht. exists cb.
      specialize (Hlt ca eq_refl). specialize (Hmina d Hin Ht).
      split_and!; [done|done|lia].
Qed.

Lemma scan_no_trump (tr : option Suit) (p : string) (hand : list Card) : forall acc,
  (forall c, c ∈ hand -> Some (suit (parseCard c)) <> tr) ->
  fold_left (scanCard tr p) hand acc = acc.
Proof.
  induction hand as [|c hand IH]; intros acc Hno; cbn [fold_left]; [done|].
  assert (E : scanCard tr p acc c = acc).
  { unfold scanCard. rewrite bool_decide_eq_false_2; [done|].
    apply Hno, elem_of_cons. by left. }
  rewrite E. apply IH. intros c' Hc'. apply Hno, elem_of_cons. by right.
Qed.

(** The first attacker as [startGame] computes it, from the hands as
    they are dealt. *)
Lemma startGame_first rnd a b s :
  players s = [a; b] -> truthy a = true -> truthy b = true ->
  Dealing a b s -> handOf s a = [] -> handOf s b = [] -> table s = [] ->
  exists s' ha hb,
    startGame rnd s = Returned s'
    /\ handOf s' a ≡ₚ ha /\ handOf s' b ≡ₚ hb
    /\ attacker s' =
         match or_null (snd (fold_left (scanCard (trumpSuit s') b) hb
                               (fold_left (scanCard (trumpSuit s') a) ha (None, None))))
         with
         | Some p => Some p
         | None => [a; b] !! (rnd 35 mod 2)
         end.
Proof.
  intros Hp Ta Tb D Ha0 Hb0 Ht. unfold startGame.
  set (sa := set_deck (shuffleDeck rnd generateDeck) s).
  assert (Hlen : length (deck sa) = 36).
  { change (deck sa) with (shuffleDeck rnd generateDeck).
    by rewrite shuffleDeck_Permutation. }
  assert (Da : Dealing a b sa).
  { destruct D. constructor; auto.
    change (deck sa) with (shuffleDeck rnd generateDeck).
    rewrite shuffleDeck_Permutation. apply generateDeck_truthy. }
  replace (players sa) with [a; b] by done.
  destruct (deal_rounds a b 6 sa Da ltac:(lia)) as (s1 & -> & D1 & F1 & L1 & _).
  cbn [obind].
  apply dealFrame_fields in F1 as (Fp & _).
  unfold sa in Fp. cbn in Fp. rewrite Hp in Fp.
  rewrite Hlen in L1.
  destruct (deck s1) as [|c rest] eqn:Ed; cbn [length] in L1; [lia|]. cbn [shift].
  pose proof (dl_deck _ _ _ D1) as Hdk. rewrite Ed in Hdk.
  apply Forall_cons in Hdk as [Hc Hrest].
  cbn [or_null]. unfold cardOk in Hc. rewrite Hc. cbn [trumpCard set_trumpCard].
  set (s3 := set_trumpSuit _ _).
  destruct (dl_hand_a _ _ _ D1) as [ha Eha], (dl_hand_b _ _ _ D1) as [hb Ehb].
  unfold determineFirstAttacker.
  replace (players s3) with [a; b] by (unfold s3; cbn; congruence).
  cbn [scanPlayers].
  replace (hands s3) with (hands s1) by done. rewrite Eha, Ehb. cbn [obind].
  set (s4 := set_attacker _ s3).
  set (s5 := set_defender _ s4).
  replace (players s5) with [a; b] by (unfold s5, s4, s3; cbn; congruence).
  rewrite (sortHands_two a b s5 ha hb (dl_ne _ _ _ D)) by done.
  cbn [obind]. eexists _, ha, hb. split; [reflexivity|].
  set (s' := set_lastAction _ _).
  split_and!.
  - unfold handOf, s'. cbn.
    rewrite lookup_insert_ne by (intros ->; by apply (dl_ne _ _ _ D)).
    rewrite lookup_insert_eq. cbn. apply sortHand_Permutation.
  - unfold handOf, s'. cbn. rewrite lookup_insert_eq. cbn. apply sortHand_Permutation.
  - done.
Qed.

(** X24. The first attacker is the holder of the lowest trump: right
    after the deal, for every trump in the defender's hand the attacker
    holds a trump of a lower rank; and when neither hand holds a trump
    the first attacker is the player drawn by [Math.random]. *)
Theorem first_attacker_holds_lowest_trump (rndA rndB : nat -> nat)
    (roomId a b : string) (sA sB : t) :
  truthy a = true -> truthy b = true ->
  addPlayer rndA a (new roomId) = Returned (true, sA) ->
  addPlayer rndB b sA = Returned (true, sB) ->
  exists x y,
    attacker sB = Some x /\ defender sB = Some y
    /\ (forall d, d ∈ handOf sB y -> isTrump sB d ->
          exists c, c ∈ handOf sB x /\ isTrump sB c /\ (rankOf c < rankOf d)%Z)
    /\ ((forall p c, c ∈ handOf sB p -> ~ isTrump sB c) ->
        attacker sB = [a; b] !! (rndB 35 mod 2)).
Proof.
  intros Ta Tb HA HB.
  destruct (deal_Inv roomId a b rndA rndB sA sB Ta Tb HA HB) as ([W _ _] & _).
  pose proof (deal_Sound roomId a b rndA rndB sA sB Ta Tb HA HB) as S.
  rewrite addPlayer_first in HA. injection HA as <-.
  unfold addPlayer in HB. cbn in HB.
  rewrite bool_decide_eq_false_2 in HB by lia.
  case_bool_decide as Hin; [done|].
  assert (Hne : a <> b).
  { intros E. apply Hin. rewrite E. by apply list_elem_of_singleton. }
  rewrite bool_decide_eq_true_2 in HB by done.
  set (s := set_hands _ _) in HB.
  destruct (startGame_first rndB a b s) as (s' & ha & hb & Hs & Pa & Pb & Hat); auto.
  { constructor; auto; unfold s; cbn.
    + rewrite lookup_insert_ne by done. rewrite lookup_insert_eq. by eexists.
    + rewrite lookup_insert_eq. by eexists.
    + intros p. rewrite !lookup_insert_is_Some', lookup_empty.
      intros [<-|[<-|[? ?]]]; auto; done.
    + intros p. unfold handOf. cbn.
      destruct (decide (b = p)) as [->|?];
        [by rewrite lookup_insert_eq|rewrite lookup_insert_ne by done].
      destruct (decide (a = p)) as [->|?];
        [by rewrite lookup_insert_eq|rewrite lookup_insert_ne by done].
      by rewrite lookup_empty. }
  { unfold handOf, s. cbn. rewrite lookup_insert_ne by done.
    by rewrite lookup_insert_eq. }
  { unfold handOf, s. cbn. by rewrite lookup_insert_eq. }
  rewrite Hs in HB. cbn in HB. injection HB as ->.
  pose proof (snd_cards _ _ _ S) as Hcards.
  rewrite (allCards_two sB a b) in Hcards by apply W.
  destruct (submseteq_Permutation _ _ Hcards) as [k Hk].
  pose proof NoDup_generateDeck as Hnd. rewrite Hk in Hnd.
  apply NoDup_app in Hnd as (Hnd & _). apply NoDup_app in Hnd as (_ & _ & Hnd).
  apply NoDup_app in Hnd as (_ & _ & Hnd). apply NoDup_app in Hnd as (Hnd & _).
  apply NoDup_app in Hnd as (_ & Hdisj & _).
  assert (Hina : forall c, c ∈ handOf sB a -> c ∈ generateDeck).
  { intros c Hc. eapply elem_of_submseteq; [|exact Hcards].
    rewrite !elem_of_app. tauto. }
  assert (Hinb : forall c, c ∈ handOf sB b -> c ∈ generateDeck).
  { intros c Hc. eapply elem_of_submseteq; [|exact Hcards].
    rewrite !elem_of_app. tauto. }
  assert (Hstrict : forall c d,
    c ∈ handOf sB a -> d ∈ handOf sB b -> isTrump sB c -> isTrump sB d ->
    rankOf c <> rankOf d).
  { intros c d Hc Hd Hct Hdt E.
    apply (Hdisj c Hc). replace c with d; [done|].
    pose proof (Hina c Hc) as (rc & uc & ->)%elem_of_generateDeck.
    pose proof (Hinb d Hd) as (rd & ud & ->)%elem_of_generateDeck.
    unfold isTrump in Hct, Hdt. rewrite <- Hdt in Hct.
    rewrite !parseCard_mkCard in Hct. cbn in Hct. injection Hct as Hu.
    apply suitStr_inj in Hu as ->.
    unfold rankOf in E. rewrite !parseCard_mkCard in E. cbn [rank] in E.
    rewrite !RANK_VALUES_rankStr in E. cbn in E.
    by destruct rc, rd. }
  assert (Fa : Forall (fun c => c ∈ generateDeck) ha).
  { apply Forall_forall. intros c Hc. apply Hina. by rewrite Pa. }
  assert (Fb : Forall (fun c => c ∈ generateDeck) hb).
  { apply Forall_forall. intros c Hc. apply Hinb. by rewrite Pb. }
  assert (Hrand : (forall p c, c ∈ handOf sB p -> ~ isTrump sB c) ->
                  attacker sB = [a; b] !! (rndB 35 mod 2)).
  { intros Hno. rewrite Hat.
    rewrite (scan_no_trump _ a ha) by (intros c Hc; apply (Hno a); by rewrite Pa).
    by rewrite (scan_no_trump _ b hb) by (intros c Hc; apply (Hno b); by rewrite Pb). }
  destruct (scan_two (trumpSuit sB) a b ha hb Fa Fb)
    as [(E & Hnone)|[(E & Hlow)|(E & Hlow)]]; rewrite E in Hat.
  - cbn [or_null] in Hat.
    destruct (wf_roles _ _ _ W) as [[Hx Hy]|[Hx Hy]].
    + exists a, b. split_and!; [done|done| |done].
      intros d Hd Hdt. exfalso. apply (Hnone d); [|done].
      apply elem_of_app. right. by rewrite <- Pb.
    + exists b, a. split_and!; [done|done| |done].
      intros d Hd Hdt. exfalso. apply (Hnone d); [|done].
      apply elem_of_app. left. by rewrite <- Pa.
  - rewrite (or_null_truthy _ Ta) in Hat.
    assert (Hde : defender sB = Some b).
    { destruct (wf_roles _ _ _ W) as [[Hx Hy]|[Hx Hy]]; congruence. }
    exists a, b. split_and!; [done|done| |done].
    intros d Hd Hdt. rewrite Pb in Hd.
    destruct (Hlow d Hd Hdt) as (c & Hc & Hct & Hle).
    rewrite <- Pa in Hc. rewrite <- Pb in Hd.
    exists c. split_and!; [done|done|].
    pose proof (Hstrict c d Hc Hd Hct Hdt). lia.
  - rewrite (or_null_truthy _ Tb) in Hat.
    assert (Hde : defender sB = Some a).
    { destruct (wf_roles _ _ _ W) as [[Hx Hy]|[Hx Hy]]; congruence. }
    exists b, a. split_and!; [done|done| |done].
    intros d Hd Hdt. rewrite Pa in Hd.
    destruct (Hlow d Hd Hdt) as (c & Hc & Hct & Hle).
    rewrite <- Pb in Hc. rewrite <- Pa in Hd.
    exists c. split_and!; [done|done|].
    pose proof (Hstrict d c Hd Hc Hdt Hct). lia.
Qed.

Lemma first_attacker_holds_lowest_trump_witness :
  exists x y,
    attacker sampleDeal = Some x /\ defender sampleDeal = Some y
    /\ (forall d, d ∈ handOf sampleDeal y -> isTrump sampleDeal d ->
          exists c, c ∈ handOf sampleDeal x /\ isTrump sampleDeal c
                    /\ (rankOf c < rankOf d)%Z)
    /\ ((forall p c, c ∈ handOf sampleDeal p -> ~ isTrump sampleDeal c) ->
        attacker sampleDeal = ["alice"; "bob"] !! (sampleRnd 35 mod 2)).
Proof.
  apply (first_attacker_holds_lowest_trump sampleRnd sampleRnd "ROOM01" "alice" "bob"
           sampleLobby sampleDeal).
  - reflexivity.
  - reflexivity.
  - vm_compute. reflexivity.
  - vm_compute. reflexivity.
Defined.

End FirstAttacker.

(** ** No draw, and who may throw in *)

Section ThrowInAndParity.

(** X25. The cards of the deck, the hands and the table are always odd
    in number in a match reached from a deal: 35 after the deal, and a
    pass takes an even number of them away. So the two hands are never
    empty together between rounds, when deck and table are empty: no
    match ends without a winner. *)
Theorem match_is_never_drawn (s : t) :
  reachable s ->
  Nat.odd (length (deck s) + handsTotal s + tableCount s) = true
  /\ (deck s = [] -> table s = [] -> exists p, p ∈ players s /\ handOf s p <> []).
Proof.
  intros R. destruct (reachable_Sound s R) as (a & b & [W _ _] & S).
  pose proof (snd_odd _ _ _ S) as Hodd. unfold inPlay in Hodd. split; [done|].
  intros Hd Ht. rewrite (handsTotal_two s a b) in Hodd by apply W.
  unfold tableCount in Hodd. rewrite Hd, Ht in Hodd. rewrite (wf_players _ _ _ W).
  destruct (handOf s a) as [|c h] eqn:Ea.
  - destruct (handOf s b) as [|c h] eqn:Eb; [done|].
    exists b. split; [|by rewrite Eb].
    apply elem_of_cons. right. by apply list_elem_of_singleton.
  - exists a. split; [|by rewrite Ea]. apply elem_of_cons. by left.
Qed.

Lemma match_is_never_drawn_witness :
  Nat.odd (length (deck (sampleAfter 66)) + handsTotal (sampleAfter 66)
           + tableCount (sampleAfter 66)) = true
  /\ (deck (sampleAfter 66) = [] -> table (sampleAfter 66) = [] ->
      exists p, p ∈ players (sampleAfter 66) /\ handOf (sampleAfter 66) p <> []).
Proof.
  apply (match_is_never_drawn (sampleAfter 66)).
  apply sampleAfter_reachable.
Defined.

(** X26. In a match reached from a deal [throwIn] never throws for a
    player of the match, and it is accepted exactly when the match is
    being played, throw-ins are open, the card is in the caller's hand,
    its rank lies on the table and the defender still holds a card: the
    caller may be either player, the defender included, and the capacity
    rule comes down to a defender's hand that is not empty, since no
    attack lies uncovered while throw-ins are open. An accepted card
    goes from the hand to the table as a new attack. *)
Theorem throwIn_accepted_exactly_when (s : t) (p : string) (c : Card) :
  reachable s -> p ∈ players s ->
  exists d,
    defender s = Some d
    /\ throwIn p c s =
         if bool_decide (phase s = playing) && canThrow s
            && bool_decide (c ∈ handOf s p) && canThrowIn c (tableCards s)
            && bool_decide (handOf s d <> [])
         then Returned (true, played (p +:+ " подкидывает карту " +:+ c) p c
                                (handOf s p) s)
         else Returned (false, s).
Proof.
  intros R Hp. destruct (reachable_Sound s R) as (a & b & [W _ _] & S).
  destruct (Wf_roles _ _ _ W) as (x & d & Hx & Hd & Hne & Tx & Td & Hxy).
  exists d. split; [done|].
  rewrite (wf_players _ _ _ W) in Hp.
  assert (Hpab : p = a \/ p = b).
  { apply elem_of_cons in Hp as [->|Hp]; [by left|].
    apply list_elem_of_singleton in Hp. by right. }
  pose proof (Wf_hand _ _ _ _ W Hpab) as Ep.
  assert (Ed : hands s !! d = Some (handOf s d))
    by (apply (Wf_hand a b); [done|tauto]).
  unfold throwIn, includes, defenderHandSize, removeCardFromHand.
  case_bool_decide as Hph.
  { rewrite bool_decide_eq_false_2 by done. done. }
  rewrite (bool_decide_eq_true_2 _ Hph). cbn [andb].
  destruct (canThrow s) eqn:Hcan; cbn [negb andb]; [|done].
  rewrite Ep. case_bool_decide as Hin; cbn [negb andb]; [|done].
  destruct (canThrowIn c (tableCards s)); cbn [negb andb]; [|done].
  rewrite Hd, (or_null_truthy _ Td), Ed. cbn [obind].
  pose proof (snd_throw _ _ _ S) as Hth. rewrite Hcan in Hth. symmetry in Hth.
  apply andb_true_iff in Hth as [Hall _]. apply allDefended_count in Hall.
  rewrite Hall.
  destruct (handOf s d) as [|c' h] eqn:Eh.
  - rewrite bool_decide_eq_true_2 by (cbn; lia).
    by rewrite bool_decide_eq_false_2 by (intros E; by apply E).
  - rewrite bool_decide_eq_false_2 by (cbn; lia).
    by rewrite bool_decide_eq_true_2 by done.
Qed.

(** The defender "bob" throws a queen on the table, on which a queen
    lies covered. *)
Lemma throwIn_accepted_exactly_when_witness :
  exists d,
    defender (sampleAfter 4) = Some d
    /\ throwIn "bob" "Qs" (sampleAfter 4) =
         if bool_decide (phase (sampleAfter 4) = playing) && canThrow (sampleAfter 4)
            && bool_decide ("Qs" ∈ handOf (sampleAfter 4) "bob")
            && canThrowIn "Qs" (tableCards (sampleAfter 4))
            && bool_decide (handOf (sampleAfter 4) d <> [])
         then Returned (true, played ("bob" +:+ " подкидывает карту " +:+ "Qs") "bob" "Qs"
                                (handOf (sampleAfter 4) "bob") (sampleAfter 4))
         else Returned (false, sampleAfter 4).
Proof.
  apply (throwIn_accepted_exactly_when (sampleAfter 4) "bob" "Qs").
  - apply sampleAfter_reachable.
  - vm_compute. apply elem_of_cons. right. by apply list_elem_of_singleton.
Defined.

Example defender_throws_in :
  defender (sampleAfter 4) = Some "bob"
  /\ exists s', throwIn "bob" "Qs" (sampleAfter 4) = Returned (true, s')
                /\ table s' = [mkPair "Qc" (Some "Kc"); mkPair "Qs" None].
Proof. split; [vm_compute; reflexivity|]. eexists. vm_compute. by split. Qed.

Lemma defend_found p a d s s' :
  defend p a d s = Returned (true, s') ->
  exists hand i found tr,
    defender s = Some p /\ hands s !! p = Some hand /\ d ∈ hand
    /\ table s !! i = Some found /\ found = mkPair a None
    /\ trumpSuit s = Some tr /\ canBeat a d tr = true
    /\ s' = defended p d hand i found s.
Proof.
  unfold defend, removeCardFromHand, includes, findPair. intros H. split_op H.
  repeat match goal with
         | E : bool_decide _ = false |- _ => apply bool_decide_eq_false in E
         | E : bool_decide _ = true |- _ => apply bool_decide_eq_true in E
         | E : negb _ = false |- _ => apply negb_false_iff in E
         | E : list_find _ _ = Some _ |- _ => apply list_find_Some in E as (? & [? ?] & _)
         | E : or_null _ = Some _ |- _ => apply or_null_Some in E
         end.
  do 4 eexists. split_and!; try done.
  - symmetry. by apply dec_stable.
  - destruct c; cbn in *. congruence.
Qed.

(** X30. An accepted [defend] covers the one open attack: in a match
    reached from a deal, when [defend] answers [true] the caller is the
    defender, the pair of the attack card was the only uncovered pair of
    the table and the defense card beats the attack card under the trump
    suit; afterwards that pair holds the defense card, which has left the
    defender's hand, every pair of the table is covered and throw-ins are
    open. *)
Theorem defend_covers_the_open_attack (s s' : t) (p : string) (a d : Card) :
  reachable s ->
  defend p a d s = Returned (true, s') ->
  defender s = Some p
  /\ undefendedCount (table s) = 1
  /\ (exists i, table s !! i = Some (mkPair a None)
                /\ table s' = <[i := mkPair a (Some d)]> (table s))
  /\ (exists tr, trumpSuit s = Some tr /\ canBeat a d tr = true)
  /\ d ∈ handOf s p /\ handOf s' p = spliceFirst d (handOf s p)
  /\ allDefended (table s') = true /\ canThrow s' = true.
Proof.
  intros R H. destruct (reachable_Sound s R) as (x & y & I & S).
  apply defend_found in H as (hand & i & found & tr & Hd & Eh & Hin & Ei & -> & Etr & Hb & ->).
  pose proof (undefendedCount_insert (table s) i _ d Ei eq_refl) as Hcount.
  pose proof (snd_open _ _ _ S) as Hopen. cbn [attack_] in Hcount.
  assert (Hall : allDefended (<[i := mkPair a (Some d)]> (table s)) = true).
  { apply allDefended_count. lia. }
  split; [done|]. split; [lia|]. split; [by exists i|]. split; [by exists tr|].
  rewrite (handOf_Some _ _ _ Eh). split; [done|]. split.
  - unfold handOf. cbn. by rewrite lookup_insert_eq.
  - by split.
Qed.

Lemma defend_covers_the_open_attack_witness :
  defender (sampleAfter 3) = Some "bob"
  /\ undefendedCount (table (sampleAfter 3)) = 1
  /\ (exists i, table (sampleAfter 3) !! i = Some (mkPair "Qc" None)
                /\ table (sampleAfter 4) = <[i := mkPair "Qc" (Some "Kc")]> (table (sampleAfter 3)))
  /\ (exists tr, trumpSuit (sampleAfter 3) = Some tr /\ canBeat "Qc" "Kc" tr = true)
  /\ "Kc" ∈ handOf (sampleAfter 3) "bob"
  /\ handOf (sampleAfter 4) "bob" = spliceFirst "Kc" (handOf (sampleAfter 3) "bob")
  /\ allDefended (table (sampleAfter 4)) = true /\ canThrow (sampleAfter 4) = true.
Proof.
  apply (defend_covers_the_open_attack (sampleAfter 3) (sampleAfter 4) "bob" "Qc" "Kc").
  - apply sampleAfter_reachable.
  - vm_compute. reflexivity.
Defined.

End ThrowInAndParity.

(** ** The rooms of the registry *)

Section Rooms.
Import GameManager.

(** *** Room codes *)

Lemma get_elem_of (s : string) : forall n c,
  String.get n s = Some c -> c ∈ String.list_ascii_of_string s.
Proof.
  induction s as [|x s IH]; intros n c H; [done|].
  destruct n as [|n]; cbn in H.
  - injection H as ->. apply elem_of_cons. by left.
  - apply elem_of_cons. right. by eapply IH.
Qed.

Lemma get_is_Some (s : string) : forall n,
  n < String.length s -> is_Some (String.get n s).
Proof.
  induction s as [|x s IH]; intros n H; cbn in H; [lia|].
  destruct n as [|n]; cbn; [by eexists|]. apply IH. lia.
Qed.

Lemma charAt_chars n :
  n < String.length chars ->
  exists c, charAt chars n = String c EmptyString
            /\ c ∈ String.list_ascii_of_string chars.
Proof.
  intros H. unfold charAt. destruct (get_is_Some chars n H) as [c Ec].
  rewrite Ec. exists c. split; [done|]. by eapply get_elem_of.
Qed.

Lemma randomCode_code rnd n : forall k,
  String.length (randomCode rnd k n) = n
  /\ Forall (fun c => c ∈ String.list_ascii_of_string chars)
            (String.list_ascii_of_string (randomCode rnd k n)).
Proof.
  induction n as [|n IH]; intros k; cbn [randomCode]; [by split|].
  destruct (charAt_chars (rnd k mod String.length chars)) as (c & -> & Hc).
  { apply Nat.mod_upper_bound. by vm_compute. }
  destruct (IH (S k)) as [Hl Hf].
  set (rest := randomCode rnd (S k) n) in *.
  change (String c EmptyString +:+ rest) with (String c rest).
  cbn [String.length String.list_ascii_of_string].
  split; [by rewrite Hl|by constructor].
Qed.

Lemma generateRoomId_code fuel rnd : forall k live r,
  generateRoomId fuel rnd k live = Returned r -> isRoomCode r.
Proof.
  induction fuel as [|fuel IH]; intros k live r H; cbn [generateRoomId] in H; [done|].
  case_bool_decide; [by eapply IH|]. injection H as <-.
  exact (randomCode_code rnd 6 k).
Qed.

Lemma isRoomCode_truthy r : isRoomCode r -> truthy r = true.
Proof. intros [Hl _]. by destruct r. Qed.

(** *** What the session methods do to the phase *)

Lemma checkPlayer_phase p s s' :
  checkPlayer p s = Returned s' -> phase s' = phase s \/ phase s' = finished.
Proof. unfold checkPlayer. intros H. split_op H; auto. Qed.

Lemma forEach_checkPlayer_phase l : forall s s',
  forEach checkPlayer l s = Returned s' ->
  phase s' = phase s \/ phase s' = finished.
Proof.
  induction l as [|p l IH]; intros s s' H; cbn in H.
  - simplify_eq. by left.
  - destruct (checkPlayer p s) as [s1| |] eqn:E; cbn in H; try done.
    apply checkPlayer_phase in E. apply IH in H.
    destruct E as [E|E], H as [H|H]; rewrite ?H, ?E; auto.
Qed.

Lemma checkWinner_phase s s' :
  checkWinner s = Returned s' -> phase s' = phase s \/ phase s' = finished.
Proof.
  unfold checkWinner. intros H.
  destruct (_ && _); [by eapply forEach_checkPlayer_phase|].
  simplify_eq. by left.
Qed.

Lemma move_phase mv s r s' :
  move mv s = Returned (r, s') -> phase s <> waiting -> phase s' <> waiting.
Proof.
  intros H Hph. destruct r; [|by rewrite (move_rejected_unchanged _ _ _ H)].
  pose proof (move_accepted_playing _ _ _ H) as Hpl.
  assert (Hk : phase s' = playing \/ phase s' = finished);
    [|by destruct Hk as [-> | ->]].
  destruct mv as [p c|p atk d|p c|p|p]; cbn [move] in H.
  - apply attack_ok in H as (hand & _ & _ & _ & _ & _ & ->). by left.
  - apply defend_ok in H as (hand & i & found & _ & _ & _ & _ & _ & _ & ->). by left.
  - apply throwIn_ok in H as (hand & _ & _ & _ & _ & ->). by left.
  - unfold passTurn in H.
    repeat (case_match; try done).
    destruct (refillHands _) as [s1| |] eqn:Hre; cbn [obind] in H; try done.
    destruct (checkWinner _) as [s2| |] eqn:Hcw; cbn [obind] in H; try done.
    simplify_eq. apply refillHands_frame in Hre. apply checkWinner_phase in Hcw.
    unfold refillFrame in Hre. cbn in *.
    destruct Hcw as [E|E]; [left|by right]. congruence.
  - unfold takeCards in H.
    repeat (case_match; try done); cbn [obind] in H;
      destruct (refillHands _) as [s1| |] eqn:Hre; cbn [obind] in H; try done;
      destruct (checkWinner _) as [s2| |] eqn:Hcw; cbn [obind] in H; try done;
      simplify_eq; apply refillHands_frame in Hre; apply checkWinner_phase in Hcw;
      unfold refillFrame in Hre; cbn in *;
      (destruct Hcw as [E|E]; [left|by right]); congruence.
Qed.

(** *** Joining a lobby *)

Lemma startGame_returns rnd a b s :
  players s = [a; b] -> Dealing a b s ->
  exists s', startGame rnd s = Returned s'
             /\ phase s' = playing /\ players s' = [a; b].
Proof.
  intros Hp D. unfold startGame.
  set (sa := set_deck (shuffleDeck rnd generateDeck) s).
  assert (Hlen : length (deck sa) = 36).
  { change (deck sa) with (shuffleDeck rnd generateDeck).
    by rewrite shuffleDeck_Permutation. }
  assert (Da : Dealing a b sa).
  { destruct D. constructor; auto.
    change (deck sa) with (shuffleDeck rnd generateDeck).
    rewrite shuffleDeck_Permutation. apply generateDeck_truthy. }
  replace (players sa) with [a; b] by done.
  destruct (deal_rounds a b 6 sa Da ltac:(lia)) as (s1 & -> & D1 & F1 & _).
  cbn [obind].
  apply dealFrame_fields in F1 as (Fp & _).
  unfold sa in Fp. cbn in Fp. rewrite Hp in Fp.
  destruct (shift (deck s1)) as [first deck'].
  set (s3 := match trumpCard _ with Some c => _ | None => _ end).
  assert (Hp3 : players s3 = [a; b]).
  { unfold s3. cbn. destruct (or_null first); cbn; congruence. }
  assert (Hh3 : hands s3 = hands s1).
  { unfold s3. cbn. by destruct (or_null first). }
  destruct (dl_hand_a _ _ _ D1) as [ha Eha], (dl_hand_b _ _ _ D1) as [hb Ehb].
  unfold determineFirstAttacker. rewrite Hp3. cbn [scanPlayers].
  rewrite Hh3, Eha, Ehb. cbn [obind].
  set (s5 := set_defender _ _).
  replace (players s5) with [a; b] by done.
  rewrite (sortHands_two a b s5 ha hb (dl_ne _ _ _ D)) by (unfold s5; cbn; congruence).
  cbn [obind]. eexists. split; [reflexivity|]. by split.
Qed.

Lemma lobby_join_any rnd roomId a p :
  p <> a ->
  exists s', addPlayer rnd p (lobby roomId a) = Returned (true, s')
             /\ phase s' = playing /\ players s' = [a; p].
Proof.
  intros Hne. unfold addPlayer, lobby. cbn.
  rewrite bool_decide_eq_false_2 by lia.
  rewrite bool_decide_eq_false_2
    by (intros Hin; apply list_elem_of_singleton in Hin; congruence).
  rewrite bool_decide_eq_true_2 by done.
  set (s := set_hands _ _).
  destruct (startGame_returns rnd a p s) as (s' & Hs & Hph & Hpl); auto.
  - constructor; auto; unfold s; cbn.
    + rewrite lookup_insert_ne by done. rewrite lookup_insert_eq. by eexists.
    + rewrite lookup_insert_eq. by eexists.
    + intros q. rewrite !lookup_insert_is_Some', lookup_empty.
      intros [<-|[<-|[? ?]]]; auto; done.
    + intros q. unfold handOf. cbn.
      destruct (decide (p = q)) as [->|?];
        [by rewrite lookup_insert_eq|rewrite lookup_insert_ne by done].
      destruct (decide (a = q)) as [->|?];
        [by rewrite lookup_insert_eq|rewrite lookup_insert_ne by done].
      by rewrite lookup_empty.
  - rewrite Hs. cbn. by eexists.
Qed.

(** *** The shape of the rooms is kept *)

Lemma RegShape_empty : RegShape empty.
Proof. constructor; intros r s H; cbn in H; by rewrite lookup_empty in H. Qed.

Lemma createRoom_lobby fuel rnd p m r m' :
  createRoom fuel rnd p m = Returned (Created r, m') ->
  playerRooms m !! p = None /\ sessions m !! r = None /\ isRoomCode r
  /\ m' = {| sessions := <[r := lobby r p]> (sessions m);
             playerRooms := <[p := r]> (playerRooms m) |}.
Proof.
  unfold createRoom. intros H. case_bool_decide as Hp; [done|].
  assert (Hnone : playerRooms m !! p = None).
  { destruct (playerRooms m !! p) eqn:E; [|done]. destruct Hp. by eexists. }
  destruct (generateRoomId fuel rnd 0 (sessions m)) as [r0| |] eqn:Eg;
    cbn [obind] in H; try done.
  rewrite addPlayer_first in H. cbn [obind snd] in H.
  injection H as <- <-.
  split; [done|]. split; [by eapply generateRoomId_fresh|].
  split; [by eapply generateRoomId_code|done].
Qed.

Lemma createRoom_refused fuel rnd p m e m' :
  createRoom fuel rnd p m = Returned (NotCreated e, m') -> m' = m.
Proof.
  unfold createRoom. intros H. case_bool_decide; [by simplify_eq|].
  destruct (generateRoomId fuel rnd 0 (sessions m)); cbn [obind] in H; [|done|done].
  rewrite addPlayer_first in H. cbn [obind] in H. done.
Qed.

Lemma createRoom_shape fuel rnd p m res m' :
  RegShape m -> createRoom fuel rnd p m = Returned (res, m') -> RegShape m'.
Proof.
  intros [Hcode Hsome Hlobby] H. destruct res as [r|e];
    [|by rewrite (createRoom_refused _ _ _ _ _ _ H)].
  apply createRoom_lobby in H as (_ & _ & Hr & ->).
  constructor; cbn; intros r' s Hs.
  - destruct (decide (r = r')) as [<-|Hne]; [done|].
    rewrite lookup_insert_ne in Hs by done. by eapply Hcode.
  - destruct (decide (r = r')) as [<-|Hne].
    + rewrite lookup_insert_eq in Hs. injection Hs as <-. cbn. lia.
    + rewrite lookup_insert_ne in Hs by done. by eapply Hsome.
  - destruct (decide (r = r')) as [<-|Hne].
    + rewrite lookup_insert_eq in Hs. injection Hs as <-. by exists p.
    + rewrite lookup_insert_ne in Hs by done. by eapply Hlobby.
Qed.

(** Joining an open room: the room is the lobby of its first player,
    [addPlayer] deals, and the registry stores the match. *)
Lemma joinRoom_open rnd p r m s :
  RegInv m -> RegShape m ->
  playerRooms m !! p = None -> sessions m !! r = Some s -> isOpen s = true ->
  exists a s',
    s = lobby r a /\ a <> p
    /\ addPlayer rnd p s = Returned (true, s')
    /\ phase s' = playing /\ players s' = [a; p]
    /\ joinRoom rnd p r m =
         Returned (Success, {| sessions := <[r := s']> (sessions m);
                               playerRooms := <[p := r]> (playerRooms m) |}).
Proof.
  intros [Hlive Hback] [Hcode Hsome Hlobby] Hp Hs Hopen.
  unfold isOpen in Hopen. apply andb_true_iff in Hopen as [Hph Hlen].
  apply bool_decide_eq_true in Hph, Hlen.
  destruct (Hlobby r s Hs Hph) as [a ->].
  assert (Hne : a <> p).
  { intros ->. assert (Hin : p ∈ players (lobby r p))
      by (by apply list_elem_of_singleton).
    rewrite (Hback r _ p Hs Hin) in Hp. done. }
  destruct (lobby_join_any rnd r a p) as (s' & Ha & Hph' & Hpl'); [done|].
  exists a, s'. split_and!; try done.
  unfold joinRoom. rewrite Hp, Hs.
  rewrite bool_decide_eq_false_2 by (by intros [? ?]).
  rewrite bool_decide_eq_false_2 by lia.
  rewrite bool_decide_eq_false_2 by (intros E; by apply E).
  by rewrite Ha.
Qed.

Lemma joinRoom_shape rnd p r m res m' :
  RegInv m -> RegShape m -> joinRoom rnd p r m = Returned (res, m') -> RegShape m'.
Proof.
  intros I S H.
  destruct (playerRooms m !! p) as [r0|] eqn:Hp.
  { unfold joinRoom in H. rewrite Hp in H.
    rewrite bool_decide_eq_true_2 in H by (by eexists). by simplify_eq. }
  destruct (sessions m !! r) as [s|] eqn:Hs.
  2:{ unfold joinRoom in H. rewrite Hp, Hs in H.
      rewrite bool_decide_eq_false_2 in H by (by intros [? ?]). by simplify_eq. }
  destruct (isOpen s) eqn:Hopen.
  - destruct (joinRoom_open rnd p r m s I S Hp Hs Hopen)
      as (a & s' & _ & _ & _ & Hph & Hpl & Hj).
    rewrite Hj in H. simplify_eq. destruct S as [Hcode Hsome Hlobby].
    constructor; cbn; intros r' s0 Hs0.
    + destruct (decide (r = r')) as [<-|Hne]; [by eapply Hcode|].
      rewrite lookup_insert_ne in Hs0 by done. by eapply Hcode.
    + destruct (decide (r = r')) as [<-|Hne].
      * rewrite lookup_insert_eq in Hs0. injection Hs0 as <-. rewrite Hpl. cbn. lia.
      * rewrite lookup_insert_ne in Hs0 by done. by eapply Hsome.
    + destruct (decide (r = r')) as [<-|Hne].
      * rewrite lookup_insert_eq in Hs0. injection Hs0 as <-. congruence.
      * rewrite lookup_insert_ne in Hs0 by done. by eapply Hlobby.
  - unfold joinRoom in H. rewrite Hp, Hs in H.
    rewrite bool_decide_eq_false_2 in H by (by intros [? ?]).
    unfold isOpen in Hopen. apply andb_false_iff in Hopen as [E|E];
      apply bool_decide_eq_false in E.
    + case_bool_decide; [by simplify_eq|].
      rewrite bool_decide_eq_true_2 in H by done. by simplify_eq.
    + rewrite bool_decide_eq_true_2 in H by lia. by simplify_eq.
Qed.

Lemma removePlayer_players_eq p s :
  players (removePlayer p s) = filter (fun q => q <> p) (players s).
Proof. unfold removePlayer. by case_match. Qed.

Lemma removePlayer_phase p s :
  phase (removePlayer p s) = phase s \/ phase (removePlayer p s) = finished.
Proof. unfold removePlayer. case_match; [by right|by left]. Qed.

Lemma leaveRoom_shape p m : RegInv m -> RegShape m -> RegShape (snd (leaveRoom p m)).
Proof.
  intros [Hlive Hback] [Hcode Hsome Hlobby]. unfold leaveRoom.
  destruct (or_null (playerRooms m !! p)) as [r|] eqn:Er; [|by constructor].
  apply or_null_Some in Er.
  destruct (sessions m !! r) as [s|] eqn:Hs; [|by constructor]. cbn [snd].
  destruct (Hlive p r Er) as (s0 & Hs0 & Hin). assert (s0 = s) as -> by congruence.
  set (s' := removePlayer p s).
  assert (Hcases : forall r' s'',
    (if bool_decide (length (players s') = 0)
     then delete r (<[r := s']> (sessions m)) else <[r := s']> (sessions m)) !! r'
    = Some s'' ->
    (r' = r /\ s'' = s' /\ length (players s') <> 0)
    \/ (r' <> r /\ sessions m !! r' = Some s'')).
  { intros r' s'' H. case_bool_decide as Hl.
    - apply lookup_delete_Some in H as [Hne H].
      rewrite lookup_insert_ne in H by done. right. by split.
    - destruct (decide (r = r')) as [<-|Hne].
      + rewrite lookup_insert_eq in H. injection H as <-. by left.
      + rewrite lookup_insert_ne in H by done. right. by split. }
  constructor; cbn; intros r' s'' H; apply Hcases in H as [(-> & -> & Hl)|(Hne & H)];
    try (by eauto).
  - split; [lia|]. unfold s'. rewrite removePlayer_players_eq.
    etrans; [apply length_filter|]. by apply (Hsome r s).
  - intros Hw. exfalso. apply Hl.
    destruct (removePlayer_phase p s) as [E|E]; fold s' in E; [|congruence].
    rewrite E in Hw. destruct (Hlobby r s Hs Hw) as [a ->].
    apply list_elem_of_singleton in Hin as ->.
    unfold s'. rewrite removePlayer_players_eq.
    change (players (lobby r a)) with [a].
    by rewrite filter_cons_False, filter_nil by (intros E'; by apply E').
Qed.

Lemma cleanup_sub (f : string * GameSession.t -> nat * t -> nat * t) :
  (forall x n m r s, sessions (snd (f x (n, m))) !! r = Some s ->
                     sessions m !! r = Some s) ->
  forall l m r s,
    sessions (snd (foldr f (0, m) l)) !! r = Some s -> sessions m !! r = Some s.
Proof.
  intros Hf l m. induction l as [|x l IH]; intros r s H; cbn [foldr] in H; [done|].
  destruct (foldr f (0, m) l) as [n m1]. apply Hf in H. by apply IH.
Qed.

Lemma cleanupEmptyRooms_sub m r s :
  sessions (snd (cleanupEmptyRooms m)) !! r = Some s -> sessions m !! r = Some s.
Proof.
  apply cleanup_sub. intros [r0 s0] n m0 r' s'. case_bool_decide; cbn; [|done].
  by intros [_ ?]%lookup_delete_Some.
Qed.

Lemma cleanupFinishedGames_sub m r s :
  sessions (snd (cleanupFinishedGames m)) !! r = Some s -> sessions m !! r = Some s.
Proof.
  apply cleanup_sub. intros [r0 s0] n m0 r' s'. case_bool_decide; cbn; [|done].
  by intros [_ ?]%lookup_delete_Some.
Qed.

Lemma RegShape_sub m m' :
  (forall r s, sessions m' !! r = Some s -> sessions m !! r = Some s) ->
  RegShape m -> RegShape m'.
Proof.
  intros Hsub [Hcode Hsome Hlobby].
  constructor; intros r s H%Hsub; eauto.
Qed.

Lemma play_shape mv m res m' :
  RegShape m -> play mv m = Returned (res, m') -> RegShape m'.
Proof.
  intros [Hcode Hsome Hlobby] H. unfold play in H.
  destruct (or_null _) as [r|]; [|by simplify_eq].
  destruct (sessions m !! r) as [s|] eqn:Hs; [|by simplify_eq].
  destruct (move mv s) as [[b s']| |] eqn:Hm; cbn [obind] in H; try done.
  simplify_eq. cbn [fst snd].
  constructor; cbn; intros r' s0 H0.
  - destruct (decide (r = r')) as [<-|Hne]; [by eapply Hcode|].
    rewrite lookup_insert_ne in H0 by done. by eapply Hcode.
  - destruct (decide (r = r')) as [<-|Hne].
    + rewrite lookup_insert_eq in H0. injection H0 as <-.
      rewrite (move_players _ _ _ _ Hm). by eapply Hsome.
    + rewrite lookup_insert_ne in H0 by done. by eapply Hsome.
  - destruct (decide (r = r')) as [<-|Hne].
    + rewrite lookup_insert_eq in H0. injection H0 as <-. intros Hw.
      destruct (decide (phase s = waiting)) as [E|E].
      * rewrite move_not_playing in Hm by congruence. simplify_eq. by eapply Hlobby.
      * by destruct (move_phase _ _ _ _ Hm E).
    + rewrite lookup_insert_ne in H0 by done. by eapply Hlobby.
Qed.

Lemma step_shape op m m' :
  RegInv m -> RegShape m -> step op m = Returned m' -> RegShape m'.
Proof.
  intros I S H. destruct op as [fuel rnd p|rnd p roomId|p| | |mv]; cbn in H.
  - destruct (createRoom fuel rnd p m) as [[res m1]| |] eqn:E; cbn in H; try done.
    simplify_eq. by eapply createRoom_shape.
  - destruct (joinRoom rnd p roomId m) as [[res m1]| |] eqn:E; cbn in H; try done.
    simplify_eq. by eapply joinRoom_shape.
  - simplify_eq. by apply leaveRoom_shape.
  - simplify_eq. eapply RegShape_sub; [|done]. apply cleanupEmptyRooms_sub.
  - simplify_eq. eapply RegShape_sub; [|done]. apply cleanupFinishedGames_sub.
  - destruct (play mv m) as [[res m1]| |] eqn:E; cbn in H; try done.
    simplify_eq. by eapply play_shape.
Qed.

Lemma run_shape ops : forall m m',
  RegInv m -> RegShape m -> run ops m = Returned m' -> RegInv m' /\ RegShape m'.
Proof.
  induction ops as [|op ops IH]; intros m m' I S H; cbn in H.
  - by simplify_eq.
  - destruct (step op m) as [m1| |] eqn:E; cbn in H; try done.
    eapply IH; [| |exact H].
    + by eapply step_RegInv.
    + by eapply step_shape.
Qed.

Lemma reached_shape ops m :
  run ops empty = Returned m -> RegInv m /\ RegShape m.
Proof. apply run_shape; [apply RegInv_empty|apply RegShape_empty]. Qed.

End Rooms.

(** ** Properties of the registry beyond the specification *)

Section RegistryProperties.
Import GameManager.

(** X16. The ids of the rooms are codes: in every registry reached from
    the empty one each live room, and each room a player is mapped to,
    has an id of six characters of the alphabet A-Z, 0-9; and an id that
    [createRoom] returns is such a code that no live room had. *)
Theorem room_ids_are_codes (ops : list Op) (m : GameManager.t) :
  run ops empty = Returned m ->
  (forall r, is_Some (sessions m !! r) -> isRoomCode r)
  /\ (forall p r, playerRooms m !! p = Some r -> isRoomCode r)
  /\ (forall fuel rnd p r m',
        createRoom fuel rnd p m = Returned (Created r, m') ->
        isRoomCode r /\ sessions m !! r = None).
Proof.
  intros H. destruct (reached_shape ops m H) as [I S]. split_and!.
  - intros r [s Hs]. by eapply shape_code.
  - intros p r Hp. destruct (reg_live _ I p r Hp) as (s & Hs & _).
    by eapply shape_code.
  - intros fuel rnd p r m' Hc. by apply createRoom_lobby in Hc as (_ & ? & ? & _).
Qed.

Lemma room_ids_are_codes_witness :
  (forall r, is_Some (sessions sampleRegistry !! r) -> isRoomCode r)
  /\ (forall p r, playerRooms sampleRegistry !! p = Some r -> isRoomCode r)
  /\ (forall fuel rnd p r m',
        createRoom fuel rnd p sampleRegistry = Returned (Created r, m') ->
        isRoomCode r /\ sessions sampleRegistry !! r = None).
Proof.
  apply (room_ids_are_codes sampleOps sampleRegistry).
  vm_compute. reflexivity.
Defined.

(** X17. Leaving undoes creating: when [createRoom] has opened a room
    for a player, [leaveRoom] by that player succeeds and gives back the
    registry as it was before, the room deleted with its only player. *)
Theorem create_then_leave_restores (fuel : nat) (rnd : nat -> nat) (p r : string)
    (m m1 : GameManager.t) :
  createRoom fuel rnd p m = Returned (Created r, m1) ->
  leaveRoom p m1 = (Success, m).
Proof.
  intros H. apply createRoom_lobby in H as (Hp & Hr & Hcode & ->).
  unfold leaveRoom. cbn [playerRooms sessions].
  rewrite lookup_insert_eq, (or_null_truthy _ (isRoomCode_truthy _ Hcode)).
  rewrite lookup_insert_eq.
  assert (Hnone : players (removePlayer p (lobby r p)) = []).
  { rewrite removePlayer_players_eq. change (players (lobby r p)) with [p].
    by rewrite filter_cons_False, filter_nil by (intros E; by apply E). }
  rewrite Hnone. rewrite bool_decide_eq_true_2 by done.
  rewrite insert_insert_eq, !delete_insert_id by done. by destruct m.
Qed.

Lemma create_then_leave_restores_witness :
  leaveRoom "alice"
    {| sessions := <["AAAAAA" := lobby "AAAAAA" "alice"]> ∅;
       playerRooms := <["alice" := "AAAAAA"]> ∅ |}
  = (Success, empty).
Proof.
  apply (create_then_leave_restores 1 sampleRnd "alice" "AAAAAA" empty).
  vm_compute. reflexivity.
Defined.

(** X18. In every registry reached from the empty one [leaveRoom]
    succeeds exactly for the players who are in a room: for such a player
    it answers success, after which the player is in no room and no live
    session lists the player; for anybody else it answers the failure
    value and leaves the registry as it is. *)
Theorem leaveRoom_succeeds_for_members (ops : list Op) (m : GameManager.t)
    (p : string) :
  run ops empty = Returned m ->
  (is_Some (playerRooms m !! p) ->
   exists m', leaveRoom p m = (Success, m')
              /\ playerRooms m' !! p = None
              /\ (forall r s, sessions m' !! r = Some s -> p ∉ players s))
  /\ (playerRooms m !! p = None -> exists e, leaveRoom p m = (Failure e, m)).
Proof.
  intros H. destruct (reached_shape ops m H) as [I S]. split.
  - intros [r Hp].
    pose proof (leaveRoom_RegInv p m I) as I'.
    destruct (reg_live _ I p r Hp) as (s & Hs & Hin).
    assert (Ht : truthy r = true) by (eapply isRoomCode_truthy, shape_code; eauto).
    unfold leaveRoom in *. rewrite Hp, (or_null_truthy _ Ht), Hs in *.
    cbn [snd] in I'. eexists. split; [reflexivity|].
    cbn [playerRooms sessions].
    assert (Hgone : delete p (playerRooms m) !! p = None) by apply lookup_delete_eq.
    split; [done|]. intros r' s' Hs' Hin'.
    pose proof (reg_back _ I' r' s' p Hs' Hin') as Hb. cbn in Hb. congruence.
  - intros Hp. unfold leaveRoom. rewrite Hp. cbn. by eexists.
Qed.

Lemma leaveRoom_succeeds_for_members_witness :
  (is_Some (playerRooms sampleRegistry !! "alice") ->
   exists m', leaveRoom "alice" sampleRegistry = (Success, m')
              /\ playerRooms m' !! "alice" = None
              /\ (forall r s, sessions m' !! r = Some s -> "alice" ∉ players s))
  /\ (playerRooms sampleRegistry !! "alice" = None ->
      exists e, leaveRoom "alice" sampleRegistry = (Failure e, sampleRegistry)).
Proof.
  apply (leaveRoom_succeeds_for_members sampleOps sampleRegistry "alice").
  vm_compute. reflexivity.
Defined.

Lemma cleanupEmpty_fold l : forall m,
  Forall (fun x => length (players x.2) <> 0) l ->
  foldr (fun '(roomId, session) '(cleaned, m) =>
           if bool_decide (length (GameSession.players session) = 0)
           then (S cleaned,
                 {| sessions := delete roomId (sessions m);
                    playerRooms := playerRooms m |})
           else (cleaned, m))
        (0, m) l = (0, m).
Proof.
  intros m. induction 1 as [|[r s] l Hx _ IH]; [done|].
  cbn [foldr]. rewrite IH. by rewrite bool_decide_eq_false_2.
Qed.

(** X19. In every registry reached from the empty one there is no empty
    room: every live room holds one or two players, and
    [cleanupEmptyRooms] finds nothing to clean, answers 0 and leaves the
    registry as it is. *)
Theorem cleanupEmptyRooms_finds_nothing (ops : list Op) (m : GameManager.t) :
  run ops empty = Returned m ->
  (forall r s, sessions m !! r = Some s -> 1 <= length (players s) <= 2)
  /\ cleanupEmptyRooms m = (0, m).
Proof.
  intros H. destruct (reached_shape ops m H) as [_ S]. split; [apply S|].
  unfold cleanupEmptyRooms. apply cleanupEmpty_fold.
  apply Forall_forall. intros [r s] Hin. apply elem_of_map_to_list in Hin.
  pose proof (shape_some _ S r s Hin). cbn. lia.
Qed.

Lemma cleanupEmptyRooms_finds_nothing_witness :
  (forall r s, sessions sampleRegistry !! r = Some s -> 1 <= length (players s) <= 2)
  /\ cleanupEmptyRooms sampleRegistry = (0, sampleRegistry).
Proof.
  apply (cleanupEmptyRooms_finds_nothing sampleOps sampleRegistry).
  vm_compute. reflexivity.
Defined.

Lemma elem_of_getOpenRooms now m info :
  info ∈ getOpenRooms now m ->
  exists s k,
    sessions m !! info_roomId info = Some s /\ isOpen s = true
    /\ info = mkRoomInfo (info_roomId info) (length (players s)) 2 waiting (now k).
Proof.
  unfold getOpenRooms. intros H.
  apply elem_of_lookup_imap_1 in H as (k & [r s] & -> & Hl).
  apply list_elem_of_lookup_2 in Hl. apply list_elem_of_filter in Hl as [Hopen Hin].
  apply elem_of_map_to_list in Hin. by exists s, k.
Qed.

(** X21. A room that [getOpenRooms] lists can be joined: in every
    registry reached from the empty one such a room is the lobby of one
    player, and for a player who is in no room [joinRoom] succeeds, deals
    the game to the two players and maps the joiner to the room, which
    [getOpenRooms] lists no more. *)
Theorem open_room_can_be_joined (ops : list Op) (m : GameManager.t)
    (now : nat -> Z) (rnd : nat -> nat) (p : string) (info : RoomInfo) :
  run ops empty = Returned m ->
  info ∈ getOpenRooms now m ->
  playerRooms m !! p = None ->
  exists a s' m',
    sessions m !! info_roomId info = Some (lobby (info_roomId info) a)
    /\ playerCount info = 1 /\ maxPlayers info = 2 /\ status info = waiting
    /\ joinRoom rnd p (info_roomId info) m = Returned (Success, m')
    /\ sessions m' !! info_roomId info = Some s'
    /\ phase s' = playing /\ players s' = [a; p]
    /\ playerRooms m' !! p = Some (info_roomId info)
    /\ (forall now' info', info' ∈ getOpenRooms now' m' ->
                           info_roomId info' <> info_roomId info).
Proof.
  intros H Hin Hp. destruct (reached_shape ops m H) as [I S].
  apply elem_of_getOpenRooms in Hin as (s & k & Hs & Hopen & Hinfo).
  destruct (joinRoom_open rnd p (info_roomId info) m s I S Hp Hs Hopen)
    as (a & s' & -> & Hne & Ha & Hph & Hpl & Hj).
  exists a, s'. eexists. split; [done|].
  split; [by rewrite Hinfo|]. split; [by rewrite Hinfo|]. split; [by rewrite Hinfo|].
  split; [exact Hj|]. cbn [sessions playerRooms].
  split; [by rewrite lookup_insert_eq|]. split; [done|]. split; [done|].
  split; [by rewrite lookup_insert_eq|].
  intros now' info' Hin' E.
  apply elem_of_getOpenRooms in Hin' as (s0 & k' & Hs0 & Hopen' & _).
  cbn [sessions] in Hs0. rewrite E, lookup_insert_eq in Hs0. injection Hs0 as <-.
  unfold isOpen in Hopen'. rewrite Hph in Hopen'. done.
Qed.

Lemma open_room_can_be_joined_witness :
  exists a s' m',
    sessions sampleRegistry !! "BAAAAA" = Some (lobby "BAAAAA" a)
    /\ playerCount (mkRoomInfo "BAAAAA" 1 2 waiting 0) = 1
    /\ maxPlayers (mkRoomInfo "BAAAAA" 1 2 waiting 0) = 2
    /\ status (mkRoomInfo "BAAAAA" 1 2 waiting 0) = waiting
    /\ joinRoom sampleRnd "bob" "BAAAAA" sampleRegistry = Returned (Success, m')
    /\ sessions m' !! "BAAAAA" = Some s'
    /\ phase s' = playing /\ players s' = [a; "bob"]
    /\ playerRooms m' !! "bob" = Some "BAAAAA"
    /\ (forall now' info', info' ∈ getOpenRooms now' m' ->
                           info_roomId info' <> "BAAAAA").
Proof.
  apply (open_room_can_be_joined sampleOps sampleRegistry (fun _ => 0%Z) sampleRnd
           "bob" (mkRoomInfo "BAAAAA" 1 2 waiting 0)).
  - vm_compute. reflexivity.
  - vm_compute. apply list_elem_of_here.
  - vm_compute. reflexivity.
Defined.

Lemma stats_partition (l : list (string * GameSession.t)) :
  Forall (fun x => phase x.2 = waiting -> length (players x.2) < 2) l ->
  length l
  = length (filter (fun x => isOpen x.2 = true) l)
    + length (filter (fun s => phase s = playing) l.*2)
    + length (filter (fun s => phase s = finished) l.*2).
Proof.
  induction 1 as [|[r s] l Hx _ IH]; [done|].
  cbn [fmap list_fmap snd length]. cbn [snd] in Hx.
  destruct (phase s) eqn:E.
  - rewrite filter_cons_True
      by (unfold isOpen; cbn [snd]; rewrite E;
          rewrite !bool_decide_eq_true_2 by auto; done).
    rewrite !filter_cons_False by (cbn; congruence). cbn [length]. lia.
  - rewrite filter_cons_False
      by (unfold isOpen; cbn [snd]; rewrite E;
          rewrite bool_decide_eq_false_2 by done; done).
    rewrite filter_cons_True by done.
    rewrite filter_cons_False by (cbn; congruence). cbn [length]. lia.
  - rewrite filter_cons_False
      by (unfold isOpen; cbn [snd]; rewrite E;
          rewrite bool_decide_eq_false_2 by done; done).
    rewrite filter_cons_False by (cbn; congruence).
    rewrite filter_cons_True by done. cbn [length]. lia.
Qed.

(** X22. The figures of [getServerStats] add up: in every registry
    reached from the empty one each live room is counted once, as a
    waiting room, a game being played or a finished game, so that
    [activeRooms = waitingRooms + playingGames + finishedGames]. *)
Theorem server_stats_add_up (ops : list Op) (m : GameManager.t) (now : nat -> Z) :
  run ops empty = Returned m ->
  activeRooms (getServerStats now m)
  = waitingRooms (getServerStats now m) + playingGames (getServerStats now m)
    + finishedGames (getServerStats now m).
Proof.
  intros H. destruct (reached_shape ops m H) as [_ S].
  unfold getServerStats, getOpenRooms. cbn [activeRooms waitingRooms playingGames finishedGames].
  rewrite length_imap, <- length_map_to_list. apply stats_partition.
  apply Forall_forall. intros [r s] Hin Hw. apply elem_of_map_to_list in Hin.
  destruct (shape_lobby _ S r s Hin Hw) as [a ->]. cbn. lia.
Qed.

Lemma server_stats_add_up_witness :
  activeRooms (getServerStats (fun _ => 0%Z) sampleRegistry)
  = waitingRooms (getServerStats (fun _ => 0%Z) sampleRegistry)
    + playingGames (getServerStats (fun _ => 0%Z) sampleRegistry)
    + finishedGames (getServerStats (fun _ => 0%Z) sampleRegistry).
Proof.
  apply (server_stats_add_up sampleOps sampleRegistry (fun _ => 0%Z)).
  vm_compute. reflexivity.
Defined.

Example sampleRegistry_stats :
  getServerStats (fun _ => 0%Z) sampleRegistry
  = {| activeRooms := 2; onlinePlayers := 2; waitingRooms := 1;
       playingGames := 0; finishedGames := 1 |}.
Proof. vm_compute. reflexivity. Qed.

(** X23. The look-ups of the registry agree: in every registry reached
    from the empty one [isPlayerInRoom] answers [true] exactly for the
    players for whom [getSessionByPlayer] finds a session, and that
    session lists the player and is the one [getSession] finds under the
    room id [getPlayerRoom] gives. *)
Theorem player_lookups_agree (ops : list Op) (m : GameManager.t) (p : string) :
  run ops empty = Returned m ->
  (isPlayerInRoom p m = true <-> is_Some (getSessionByPlayer p m))
  /\ (forall s, getSessionByPlayer p m = Some s ->
        p ∈ players s
        /\ exists r, getPlayerRoom p m = Some r /\ getSession r m = Some s).
Proof.
  intros H. destruct (reached_shape ops m H) as [I S].
  unfold isPlayerInRoom, getSessionByPlayer, getPlayerRoom, getSession.
  rewrite bool_decide_eq_true.
  destruct (playerRooms m !! p) as [r|] eqn:Hp.
  - destruct (reg_live _ I p r Hp) as (s & Hs & Hin).
    assert (Ht : truthy r = true) by (eapply isRoomCode_truthy, shape_code; eauto).
    rewrite (or_null_truthy _ Ht), Hs. split.
    + split; by eexists.
    + intros s0 [= <-]. split; [done|]. by exists r.
  - cbn. split; [|done]. split; intros [? ?]; done.
Qed.

Lemma player_lookups_agree_witness :
  (isPlayerInRoom "carol" sampleRegistry = true
   <-> is_Some (getSessionByPlayer "carol" sampleRegistry))
  /\ (forall s, getSessionByPlayer "carol" sampleRegistry = Some s ->
        "carol" ∈ players s
        /\ exists r, getPlayerRoom "carol" sampleRegistry = Some r
                     /\ getSession r sampleRegistry = Some s).
Proof.
  apply (player_lookups_agree sampleOps sampleRegistry "carol").
  vm_compute. reflexivity.
Defined.

Lemma cleanupFinished_fold (l : list (string * GameSession.t)) m :
  foldr (fun '(roomId, session) '(cleaned, m) =>
           if bool_decide (GameSession.phase session = finished)
           then (S cleaned,
                 {| sessions := delete roomId (sessions m);
                    playerRooms := foldr delete (playerRooms m)
                                         (GameSession.players session) |})
           else (cleaned, m))
        (0, m) l
  = (length (filter (fun x => phase x.2 = finished) l),
     {| sessions := foldr delete (sessions m)
                      (filter (fun x => phase x.2 = finished) l).*1;
        playerRooms := foldr delete (playerRooms m)
                         (concat (players <$>
                                    (filter (fun x => phase x.2 = finished) l).*2)) |}).
Proof.
  induction l as [|[r s] l IH]; [by destruct m|].
  cbn [foldr]. rewrite IH. case_bool_decide as E.
  - rewrite filter_cons_True by done. cbn [length fmap list_fmap fst snd concat].
    by rewrite foldr_app.
  - by rewrite filter_cons_False by done.
Qed.

Lemma elem_of_concat {A} (x : A) (ls : list (list A)) :
  x ∈ concat ls <-> exists l, x ∈ l /\ l ∈ ls.
Proof.
  induction ls as [|l ls IH]; cbn [concat].
  - split; [by intros ?%elem_of_nil|by intros (? & _ & ?%elem_of_nil)].
  - rewrite elem_of_app, IH. split.
    + intros [H|(l' & H & Hin)].
      * exists l. split; [done|]. apply elem_of_cons. by left.
      * exists l'. split; [done|]. apply elem_of_cons. by right.
    + intros (l' & H & [->|Hin]%elem_of_cons); [by left|]. right. by exists l'.
Qed.

Lemma length_filter_finished (l : list (string * GameSession.t)) :
  length (filter (fun x => phase x.2 = finished) l)
  = length (filter (fun s => phase s = finished) l.*2).
Proof.
  induction l as [|x l IH]; [done|]. cbn [fmap list_fmap].
  destruct (decide (phase x.2 = finished)).
  - rewrite !filter_cons_True by done. cbn. by rewrite IH.
  - by rewrite !filter_cons_False by done.
Qed.

(** X20. [cleanupFinishedGames] removes the finished games and nothing
    else: in every registry reached from the empty one it answers the
    number of finished games, the one [getServerStats] reports; the
    rooms it leaves are the rooms whose game is not finished, each with
    its session; and the players it leaves registered are those whose
    room is not finished, each in the same room. *)
Theorem cleanupFinishedGames_removes_finished (ops : list Op) (m : GameManager.t)
    (now : nat -> Z) :
  run ops empty = Returned m ->
  fst (cleanupFinishedGames m) = finishedGames (getServerStats now m)
  /\ (forall r,
        sessions (snd (cleanupFinishedGames m)) !! r
        = match sessions m !! r with
          | Some s => if bool_decide (phase s = finished) then None else Some s
          | None => None
          end)
  /\ (forall p,
        playerRooms (snd (cleanupFinishedGames m)) !! p
        = match getSessionByPlayer p m with
          | Some s => if bool_decide (phase s = finished) then None
                      else playerRooms m !! p
          | None => playerRooms m !! p
          end).
Proof.
  intros H. destruct (reached_shape ops m H) as [I S].
  unfold cleanupFinishedGames. rewrite cleanupFinished_fold. cbn [fst snd].
  set (l := map_to_list (sessions m)).
  assert (Hl : forall r s, (r, s) ∈ l <-> sessions m !! r = Some s)
    by (intros r s; apply elem_of_map_to_list).
  assert (Hkeys : forall r,
    r ∈ (filter (fun x => phase x.2 = finished) l).*1
    <-> exists s, sessions m !! r = Some s /\ phase s = finished).
  { intros r. rewrite list_elem_of_fmap. split.
    - intros ([r' s] & -> & Hin). apply list_elem_of_filter in Hin as [Hf Hin].
      exists s. by split; [apply Hl|].
    - intros (s & Hs & Hf). exists (r, s). split; [done|].
      apply list_elem_of_filter. by split; [|apply Hl]. }
  assert (Hplayers : forall p,
    p ∈ concat (players <$> (filter (fun x => phase x.2 = finished) l).*2)
    <-> exists r s, sessions m !! r = Some s /\ phase s = finished /\ p ∈ players s).
  { intros p. rewrite elem_of_concat. split.
    - intros (ps & Hp & Hps). apply list_elem_of_fmap in Hps as (s & -> & Hs).
      apply list_elem_of_fmap in Hs as ([r s'] & -> & Hin).
      apply list_elem_of_filter in Hin as [Hf Hin].
      exists r, s'. by split; [apply Hl|].
    - intros (r & s & Hs & Hf & Hp). exists (players s). split; [done|].
      apply list_elem_of_fmap. exists s. split; [done|].
      apply list_elem_of_fmap. exists (r, s). split; [done|].
      apply list_elem_of_filter. by split; [|apply Hl]. }
  split_and!.
  - unfold getServerStats. cbn [finishedGames].
    apply length_filter_finished.
  - intros r. cbn [sessions].
    destruct (sessions m !! r) as [s|] eqn:Hs.
    + case_bool_decide as Hf.
      * apply lookup_foldr_delete, Hkeys. by exists s.
      * rewrite lookup_foldr_delete_not_elem_of; [done|].
        intros (s' & Hs' & Hf')%Hkeys. congruence.
    + rewrite lookup_foldr_delete_not_elem_of; [done|].
      intros (s' & Hs' & Hf')%Hkeys. congruence.
  - intros p. cbn [playerRooms]. unfold getSessionByPlayer.
    destruct (playerRooms m !! p) as [r|] eqn:Hp.
    + destruct (reg_live _ I p r Hp) as (s & Hs & Hin).
      assert (Ht : truthy r = true) by (eapply isRoomCode_truthy, shape_code; eauto).
      rewrite (or_null_truthy _ Ht), Hs. case_bool_decide as Hf.
      * apply lookup_foldr_delete, Hplayers. by exists r, s.
      * rewrite lookup_foldr_delete_not_elem_of; [done|].
        intros (r' & s' & Hs' & Hf' & Hin')%Hplayers.
        pose proof (reg_back _ I r' s' p Hs' Hin'). congruence.
    + cbn. rewrite lookup_foldr_delete_not_elem_of; [done|].
      intros (r' & s' & Hs' & Hf' & Hin')%Hplayers.
      pose proof (reg_back _ I r' s' p Hs' Hin'). congruence.
Qed.

Lemma cleanupFinishedGames_removes_finished_witness :
  fst (cleanupFinishedGames sampleRegistry)
  = finishedGames (getServerStats (fun _ => 0%Z) sampleRegistry)
  /\ (forall r,
        sessions (snd (cleanupFinishedGames sampleRegistry)) !! r
        = match sessions sampleRegistry !! r with
          | Some s => if bool_decide (phase s = finished) then None else Some s
          | None => None
          end)
  /\ (forall p,
        playerRooms (snd (cleanupFinishedGames sampleRegistry)) !! p
        = match getSessionByPlayer p sampleRegistry with
          | Some s => if bool_decide (phase s = finished) then None
                      else playerRooms sampleRegistry !! p
          | None => playerRooms sampleRegistry !! p
          end).
Proof.
  apply (cleanupFinishedGames_removes_finished sampleOps sampleRegistry (fun _ => 0%Z)).
  vm_compute. reflexivity.
Defined.

Example sampleRegistry_cleanup :
  fst (cleanupFinishedGames sampleRegistry) = 1
  /\ playerRooms (snd (cleanupFinishedGames sampleRegistry)) !! "alice" = None
  /\ playerRooms (snd (cleanupFinishedGames sampleRegistry)) !! "carol" = Some "BAAAAA".
Proof. vm_compute. split_and!; reflexivity. Qed.

End RegistryProperties.

(** ** The registry never throws *)

Section RegistryTotal.
Import GameManager.

Lemma removePlayer_finished a b s p :
  Wf a b s -> p ∈ players s -> phase (removePlayer p s) = finished.
Proof.
  intros W Hin. pose proof (wf_players _ _ _ W) as Hpl.
  pose proof (wf_ne _ _ _ W) as Hne.
  destruct (removePlayer_phase p s) as [E|E]; [|done]. rewrite E.
  destruct (phase s) eqn:Hph; [by destruct (wf_phase _ _ _ W)| |done].
  exfalso. revert E. unfold removePlayer. cbn. rewrite Hph, Hpl.
  rewrite Hpl in Hin.
  assert (Hlen : length (filter (fun q => q <> p) [a; b]) = 1).
  { apply elem_of_cons in Hin as [->|Hin].
    - rewrite filter_cons_False by (intros E; by apply E).
      by rewrite filter_cons_True by congruence.
    - apply list_elem_of_singleton in Hin as ->.
      rewrite filter_cons_True by congruence.
      by rewrite filter_cons_False by (intros E; by apply E). }
  rewrite Hlen. rewrite !bool_decide_eq_true_2 by done. cbn. done.
Qed.

Lemma lobby_inj r a a' : lobby r a = lobby r a' -> a = a'.
Proof. intros E. apply (f_equal players) in E. cbn in E. congruence. Qed.

Lemma RegLive_empty : RegLive empty.
Proof. intros r s H. cbn in H. by rewrite lookup_empty in H. Qed.

Lemma step_live op m m' :
  RegInv m -> RegShape m -> RegLive m -> opNamed op ->
  step op m = Returned m' -> RegLive m'.
Proof.
  intros I S L Hop H.
  destruct op as [fuel rnd p|rnd p roomId|p| | |mv]; cbn in H, Hop.
  - destruct (createRoom fuel rnd p m) as [[res m1]| |] eqn:E; cbn in H; try done.
    simplify_eq. destruct res as [r|e];
      [|by rewrite (createRoom_refused _ _ _ _ _ _ E)].
    apply createRoom_lobby in E as (_ & _ & _ & ->).
    intros r' s Hs. cbn in Hs. destruct (decide (r = r')) as [<-|Hne].
    + rewrite lookup_insert_eq in Hs. injection Hs as <-. left. by exists p.
    + rewrite lookup_insert_ne in Hs by done. by apply L.
  - destruct (joinRoom rnd p roomId m) as [[res m1]| |] eqn:E; cbn in H; try done.
    simplify_eq.
    destruct (playerRooms m !! p) as [r0|] eqn:Hp.
    { unfold joinRoom in E. rewrite Hp in E.
      rewrite bool_decide_eq_true_2 in E by (by eexists). by simplify_eq. }
    destruct (sessions m !! roomId) as [s|] eqn:Hs.
    2:{ unfold joinRoom in E. rewrite Hp, Hs in E.
        rewrite bool_decide_eq_false_2 in E by (by intros [? ?]). by simplify_eq. }
    destruct (isOpen s) eqn:Hopen.
    + destruct (joinRoom_open rnd p roomId m s I S Hp Hs Hopen)
        as (a & s' & -> & Hne & Ha & Hph & Hpl & Hj).
      rewrite Hj in E. simplify_eq.
      assert (Ta : truthy a = true).
      { destruct (L roomId _ Hs) as [(a' & E' & Ta)|[R|Hf]]; [|exfalso|done].
        - by rewrite (lobby_inj _ _ _ E').
        - destruct (reachable_Inv _ R) as (x & y & [W _ _]).
          by apply (wf_phase _ _ _ W). }
      intros r' s0 Hs0. cbn in Hs0. destruct (decide (roomId = r')) as [<-|Hne'].
      * rewrite lookup_insert_eq in Hs0. injection Hs0 as <-. right. left.
        exact (reach_deal roomId a p rnd rnd (lobby roomId a) s' Ta Hop
                 (addPlayer_first rnd a roomId) Ha).
      * rewrite lookup_insert_ne in Hs0 by done. by apply L.
    + unfold joinRoom in E. rewrite Hp, Hs in E.
      rewrite bool_decide_eq_false_2 in E by (by intros [? ?]).
      unfold isOpen in Hopen. apply andb_false_iff in Hopen as [E'|E'];
        apply bool_decide_eq_false in E'.
      * case_bool_decide; [by simplify_eq|].
        rewrite bool_decide_eq_true_2 in E by done. by simplify_eq.
      * rewrite bool_decide_eq_true_2 in E by lia. by simplify_eq.
  - simplify_eq. unfold leaveRoom.
    destruct (or_null (playerRooms m !! p)) as [r|] eqn:Er; [|done].
    apply or_null_Some in Er.
    destruct (sessions m !! r) as [s|] eqn:Hs; [|done]. cbn [snd].
    destruct (reg_live _ I p r Er) as (s0 & Hs0 & Hin).
    assert (s0 = s) as -> by congruence.
    intros r' s' Hs'. cbn [sessions] in Hs'.
    assert (Hcases : (r' = r /\ s' = removePlayer p s
                      /\ length (players (removePlayer p s)) <> 0)
                     \/ (r' <> r /\ sessions m !! r' = Some s')).
    { revert Hs'. case_bool_decide as Hl.
      - intros [Hne H]%lookup_delete_Some.
        rewrite lookup_insert_ne in H by done. right. by split.
      - destruct (decide (r = r')) as [<-|Hne].
        + rewrite lookup_insert_eq. intros [= <-]. by left.
        + rewrite lookup_insert_ne by done. right. by split. }
    destruct Hcases as [(-> & -> & Hl)|(Hne & H)]; [|by apply L].
    right. right.
    destruct (L r s Hs) as [(a & -> & Ta)|[R|Hf]].
    + exfalso. apply Hl. apply list_elem_of_singleton in Hin as ->.
      rewrite removePlayer_players_eq. change (players (lobby r a)) with [a].
      by rewrite filter_cons_False, filter_nil by (intros E'; by apply E').
    + destruct (reachable_Inv _ R) as (x & y & [W _ _]).
      by eapply removePlayer_finished.
    + destruct (removePlayer_phase p s) as [E|E]; congruence.
  - simplify_eq. intros r s Hs%cleanupEmptyRooms_sub. by apply L.
  - simplify_eq. intros r s Hs%cleanupFinishedGames_sub. by apply L.
  - destruct (play mv m) as [[res m1]| |] eqn:E; cbn in H; try done.
    simplify_eq. unfold play in E.
    destruct (or_null _) as [r|]; [|by simplify_eq].
    destruct (sessions m !! r) as [s|] eqn:Hs; [|by simplify_eq].
    destruct (move mv s) as [[b s']| |] eqn:Hm; cbn [obind] in E; try done.
    simplify_eq. cbn [fst snd].
    intros r' s0 H0. cbn in H0. destruct (decide (r = r')) as [<-|Hne].
    + rewrite lookup_insert_eq in H0. injection H0 as <-.
      destruct (L r s Hs) as [(a & -> & Ta)|[R|Hf]].
      * rewrite move_not_playing in Hm by done. simplify_eq. left. by exists a.
      * right. left. by eapply reach_move.
      * rewrite move_not_playing in Hm by congruence. simplify_eq. by right; right.
    + rewrite lookup_insert_ne in H0 by done. by apply L.
Qed.

Lemma run_live ops : forall m m',
  RegInv m -> RegShape m -> RegLive m -> Forall opNamed ops ->
  run ops m = Returned m' -> RegInv m' /\ RegShape m' /\ RegLive m'.
Proof.
  induction ops as [|op ops IH]; intros m m' I S L Hops H; cbn in H.
  - by simplify_eq.
  - apply Forall_cons in Hops as [Hop Hops].
    destruct (step op m) as [m1| |] eqn:E; cbn in H; try done.
    eapply IH; [| | |exact Hops|exact H].
    + by eapply step_RegInv.
    + by eapply step_shape.
    + by eapply step_live.
Qed.

(** X27. Through the registry no game action throws: in every registry
    reached from the empty one by operations under non-empty player ids,
    as the transport issues them, an action made in a player's own name
    returns; it answers nothing when the player is in no room, and an
    action that is not accepted leaves the registry as it is. *)
Theorem registry_moves_never_throw (ops : list Op) (m : GameManager.t)
    (mv : GameSession.Move) :
  run ops empty = Returned m -> Forall opNamed ops ->
  exists res m',
    play mv m = Returned (res, m')
    /\ (res = None <-> playerRooms m !! movePlayer mv = None)
    /\ (res <> Some true -> m' = m).
Proof.
  intros H Hops.
  destruct (run_live ops empty m RegInv_empty RegShape_empty RegLive_empty Hops H)
    as (I & S & L).
  unfold play. destruct (playerRooms m !! movePlayer mv) as [r|] eqn:Hp.
  - destruct (reg_live _ I _ r Hp) as (s & Hs & Hin).
    assert (Ht : truthy r = true) by (eapply isRoomCode_truthy, shape_code; eauto).
    rewrite (or_null_truthy _ Ht), Hs.
    assert (Hret : exists b s', move mv s = Returned (b, s') /\ (b = false -> s' = s)).
    { destruct (L r s Hs) as [(a & -> & Ta)|[R|Hf]].
      - rewrite move_not_playing by done. by eauto.
      - apply move_by_player_returns; [done|]. by intros p c ->.
      - rewrite move_not_playing by congruence. by eauto. }
    destruct Hret as (b & s' & -> & Hsame). cbn [obind fst snd].
    eexists _, _. split; [reflexivity|]. split; [by split|].
    intros Hb. destruct b; [done|]. rewrite Hsame by done.
    rewrite insert_id by done. by destruct m.
  - cbn. eexists _, _. split; [reflexivity|]. by split.
Qed.

Lemma registry_moves_never_throw_witness :
  exists res m',
    play (ThrowIn "alice" "Ac") sampleRegistry = Returned (res, m')
    /\ (res = None <-> playerRooms sampleRegistry !! movePlayer (ThrowIn "alice" "Ac") = None)
    /\ (res <> Some true -> m' = sampleRegistry).
Proof.
  apply (registry_moves_never_throw sampleOps sampleRegistry (ThrowIn "alice" "Ac")).
  - vm_compute. reflexivity.
  - repeat constructor.
Defined.

End RegistryTotal.

(** ** Leaving a match, and drawing a room code *)

Section LeavingAndCodes.
Import GameManager.

Lemma removePlayer_playing a b s :
  players s = [a; b] -> a <> b -> phase s = playing ->
  removePlayer a s
  = set_lastAction "Противник покинул игру"
      (set_phase finished
         (set_winner (Some b) (set_hands (delete a (hands s)) (set_players [b] s))))
  /\ removePlayer b s
     = set_lastAction "Противник покинул игру"
         (set_phase finished
            (set_winner (Some a) (set_hands (delete b (hands s)) (set_players [a] s)))).
Proof.
  intros Hpl Hne Hph. unfold removePlayer. cbn. rewrite Hpl, Hph. split.
  - rewrite filter_cons_False by (intros E; by apply E).
    rewrite filter_cons_True by congruence. rewrite filter_nil.
    by rewrite !bool_decide_eq_true_2 by done.
  - rewrite filter_cons_True by congruence.
    rewrite filter_cons_False by (intros E; by apply E). rewrite filter_nil.
    by rewrite !bool_decide_eq_true_2 by done.
Qed.

(** X28. Leaving a match hands the win to the opponent: in every
    registry reached from the empty one under non-empty player ids, when
    a player whose match is being played leaves, [leaveRoom] succeeds,
    the room stays with the opponent as its only player, the match is
    finished and the opponent its winner; the opponent stays in the room
    and the leaver is in no room. *)
Theorem leaving_a_match_hands_the_win (ops : list Op) (m : GameManager.t)
    (p r : string) (s : GameSession.t) :
  run ops empty = Returned m -> Forall opNamed ops ->
  playerRooms m !! p = Some r -> sessions m !! r = Some s -> phase s = playing ->
  exists q m' s',
    leaveRoom p m = (Success, m')
    /\ q <> p /\ (players s = [p; q] \/ players s = [q; p])
    /\ sessions m' !! r = Some s'
    /\ players s' = [q] /\ phase s' = finished /\ winner s' = Some q
    /\ playerRooms m' !! q = Some r /\ playerRooms m' !! p = None.
Proof.
  intros H Hops Hp Hs Hph.
  destruct (run_live ops empty m RegInv_empty RegShape_empty RegLive_empty Hops H)
    as (I & S & L).
  destruct (reg_live _ I p r Hp) as (s0 & Hs0 & Hin).
  assert (s0 = s) as -> by congruence.
  assert (Ht : truthy r = true) by (eapply isRoomCode_truthy, shape_code; eauto).
  assert (R : reachable s).
  { destruct (L r s Hs) as [(a & -> & _)|[R|Hf]]; [done|done|congruence]. }
  destruct (reachable_Inv s R) as (a & b & [W _ _]).
  pose proof (wf_players _ _ _ W) as Hpl. pose proof (wf_ne _ _ _ W) as Hne.
  destruct (removePlayer_playing a b s Hpl Hne Hph) as [Ea Eb].
  assert (Hq : exists q, q <> p /\ q ∈ players s
                         /\ (players s = [p; q] \/ players s = [q; p])
                         /\ players (removePlayer p s) = [q]
                         /\ phase (removePlayer p s) = finished
                         /\ winner (removePlayer p s) = Some q).
  { rewrite Hpl in Hin. apply elem_of_cons in Hin as [->|Hin].
    - exists b. rewrite Ea, Hpl.
      split; [by intros ->|]. split; [|split; [by left|done]].
      apply elem_of_cons. right. by apply list_elem_of_singleton.
    - apply list_elem_of_singleton in Hin as ->.
      exists a. rewrite Eb, Hpl.
      split; [done|]. split; [|split; [by right|done]].
      apply elem_of_cons. by left. }
  destruct Hq as (q & Hqp & Hqin & Hor & Hpl' & Hph' & Hw').
  exists q. unfold leaveRoom. rewrite Hp, (or_null_truthy _ Ht), Hs.
  rewrite Hpl'. rewrite bool_decide_eq_false_2 by (cbn; lia).
  eexists _, (removePlayer p s). split; [reflexivity|].
  cbn [sessions playerRooms].
  split_and!; try done.
  - by rewrite lookup_insert_eq.
  - rewrite lookup_delete_ne by done. by apply (reg_back _ I r s q).
  - by rewrite lookup_delete_eq.
Qed.

(** "bob" leaves the sample room after the first attack. *)
Lemma leaving_a_match_hands_the_win_witness :
  exists q m' s',
    leaveRoom "bob" (sampleRegistryAfter 4) = (Success, m')
    /\ q <> "bob"
    /\ (players (sampleRoom 4) = ["bob"; q] \/ players (sampleRoom 4) = [q; "bob"])
    /\ sessions m' !! "AAAAAA" = Some s'
    /\ players s' = [q] /\ phase s' = finished /\ winner s' = Some q
    /\ playerRooms m' !! q = Some "AAAAAA" /\ playerRooms m' !! "bob" = None.
Proof.
  apply (leaving_a_match_hands_the_win (take 4 sampleOps) (sampleRegistryAfter 4)
           "bob" "AAAAAA" (sampleRoom 4)).
  - vm_compute. reflexivity.
  - repeat constructor.
  - vm_compute. reflexivity.
  - vm_compute. reflexivity.
  - vm_compute. reflexivity.
Defined.

Lemma generateRoomId_S fuel rnd k live :
  generateRoomId (S fuel) rnd k live
  = if bool_decide (is_Some (live !! randomCode rnd k 6))
    then generateRoomId fuel rnd (k + 6) live
    else Returned (randomCode rnd k 6).
Proof. reflexivity. Qed.

(** X29. [generateRoomId] returns the first free code it draws: the
    call returns [r] within [fuel] draws exactly when [r] is the code of
    some draw [n < fuel] that no live room has, every earlier draw being
    the code of a live room. While all the codes drawn are taken the
    recursion goes on. *)
Theorem generateRoomId_first_free (fuel : nat) (rnd : nat -> nat)
    (live : gmap string GameSession.t) (k : nat) (r : string) :
  generateRoomId fuel rnd k live = Returned r
  <-> exists n, n < fuel /\ r = randomCode rnd (k + 6 * n) 6 /\ live !! r = None
                /\ forall j, j < n -> is_Some (live !! randomCode rnd (k + 6 * j) 6).
Proof.
  revert k. induction fuel as [|fuel IH]; intros k.
  - cbn [generateRoomId]. split; [done|]. intros (n & Hn & _). lia.
  - rewrite generateRoomId_S. case_bool_decide as Htaken.
    + rewrite IH. split.
      * intros (n & Hn & -> & Hfree & Hbefore). exists (S n).
        replace (k + 6 * S n) with (k + 6 + 6 * n) by lia.
        split_and!; [lia|done|done|].
        intros [|j] Hj; [by rewrite Nat.mul_0_r, Nat.add_0_r|].
        replace (k + 6 * S j) with (k + 6 + 6 * j) by lia. apply Hbefore. lia.
      * intros ([|n] & Hn & -> & Hfree & Hbefore).
        { rewrite Nat.mul_0_r, Nat.add_0_r in Hfree. rewrite Hfree in Htaken.
          by destruct Htaken. }
        exists n. replace (k + 6 * S n) with (k + 6 + 6 * n) in * by lia.
        split_and!; [lia|done|done|].
        intros j Hj. replace (k + 6 + 6 * j) with (k + 6 * S j) by lia.
        apply Hbefore. lia.
    + assert (Hfree : live !! randomCode rnd k 6 = None).
      { destruct (live !! randomCode rnd k 6) eqn:E; [|done].
        destruct Htaken. by eexists. }
      split.
      * intros [= <-]. exists 0. rewrite Nat.mul_0_r, Nat.add_0_r.
        split_and!; [lia|done|done|]. intros j Hj. lia.
      * intros ([|n] & Hn & -> & _ & Hbefore).
        { by rewrite Nat.mul_0_r, Nat.add_0_r. }
        specialize (Hbefore 0 ltac:(lia)).
        rewrite Nat.mul_0_r, Nat.add_0_r in Hbefore. by destruct Htaken.
Qed.

End LeavingAndCodes.
